(** * scip_api.c: the JavaScript bridge of SCIP, embedded in Rocq

    The bridge (src/scip_api.c) keeps all its state in C globals: the solver
    instance, three handle registries, the pending outputs of the running
    pricing round and a few enable flags.  The embedding keeps the globals as
    the fields of one record, [bridge], and writes every C function that
    assigns to one of them as a function on that record, under the name it
    has in the source (the pass-through wrappers, which hand their arguments
    to the solver and leave the globals alone, are not embedded).

    What lives outside the C file is made explicit:
    - answers of the solver (return codes, objects found or created, the
      presence of an LP) and of [realloc] are arguments of the function that
      asks for them;
    - requests sent to the solver and call-outs to JavaScript are appended to
      the [trace] field (the one field that is not a C global), so that "how
      many interrupts were requested" or "was the callback invoked" can be
      read off the state;
    - a JavaScript callback is the sequence of calls it makes back into the
      bridge while the hook waits ([js_call]);
    - the constants of the SCIP headers are the fields of [ScipDefs].

    C [int]s are [Z].  The three counters of pricing rounds grow by one at
    every pricing call, bounded by nothing but time, so their increment is
    written with the wrap-around of the 32-bit target ([int_wrap]).  The sizes
    and capacities of the registries and the two counters of priced columns
    count live solver objects, which the 32-bit address space keeps far below
    [int_max]; they are left unbounded.  Native objects are identified with
    their addresses, as the registries do. *)

From Stdlib Require Import String ZArith List Bool Lia Floats.
Import ListNotations.
Open Scope Z_scope.

(** ** Constants of the SCIP headers

    [scip/scip.h] is not part of the bridge; the enumerators and the
    [SCIP_INVALID] macro the bridge mentions are taken as parameters. *)

Class ScipDefs := {
  SCIP_OKAY : Z;                 (* SCIP_RETCODE of a successful call *)
  SCIP_SUCCESS : Z;              (* SCIP_RESULT *)
  SCIP_DIDNOTRUN : Z;            (* SCIP_RESULT *)
  SCIP_INVALID : float;          (* the "unset" SCIP_Real *)
  SCIP_STAGE_PROBLEM : Z;
  SCIP_STAGE_SOLVING : Z;
  SCIP_STATUS_OPTIMAL : Z;
  SCIP_STATUS_INFEASIBLE : Z;
  SCIP_STATUS_UNBOUNDED : Z;
  SCIP_STATUS_TIMELIMIT : Z
}.

(** Native references are addresses; the null pointer is address 0. *)
Definition ptr := Z.
Definition NULL : ptr := 0.

(** C's [a != b] on doubles (IEEE comparison: a NaN differs from everything). *)
Definition real_neq (a b : float) : bool := negb (PrimFloat.eqb a b).

(** C's [int] on the WebAssembly target: 32 bits, two's complement.  The
    compiled [x += 1] is a 32-bit addition, which wraps from [int_max] to
    [int_min]. *)
Definition int_min : Z := -2147483648.
Definition int_max : Z := 2147483647.

Definition int_wrap (z : Z) : Z :=
  (z + 2147483648) mod 4294967296 - 2147483648.

(** ** Handle registries (scip_api.c:52-265)

    [var_registry], [cons_registry] and [row_registry] are three copies of the
    same code.  A registry is its array and its capacity; [reg_slots] is the
    initialised prefix [registry[0 .. size)], so the C variable [*_size] is the
    length of that list. *)

Record registry := mkRegistry {
  reg_slots : list ptr;
  reg_capacity : Z
}.

Definition reg_size (r : registry) : Z := Z.of_nat (length (reg_slots r)).

(** What [clearRegistries] leaves in each of the three. *)
Definition empty_registry : registry := mkRegistry [] 0.

(** [while (newcap < needed) newcap *= 2;] *)
Fixpoint grow_capacity (fuel : nat) (newcap needed : Z) : Z :=
  match fuel with
  | O => newcap
  | S fuel' =>
      if newcap <? needed then grow_capacity fuel' (newcap * 2) needed
      else newcap
  end.

(** ensure{Var,Cons,Row}RegistryCapacity.  [realloc_ok] tells whether
    [realloc] returns a block, should it be called. *)
Definition ensureRegistryCapacity (realloc_ok : bool) (needed : Z)
    (r : registry) : registry * Z :=
  if needed <=? reg_capacity r then (r, 1)
  else
    let newcap := if reg_capacity r =? 0 then 64 else reg_capacity r in
    let newcap := grow_capacity (Z.to_nat needed) newcap needed in
    if realloc_ok then (mkRegistry (reg_slots r) newcap, 1)
    else (r, 0).

(** [for (i = 0; i < size; ++i) if (registry[i] == obj) return i + 1;]
    started at index [i]: the index of the first slot holding [obj]. *)
Fixpoint scan_registry (slots : list ptr) (obj : ptr) (i : Z) : option Z :=
  match slots with
  | [] => None
  | x :: rest => if x =? obj then Some i else scan_registry rest obj (i + 1)
  end.

(** register{Var,Cons,Row}Handle. *)
Definition registerHandle (realloc_ok : bool) (obj : ptr) (r : registry)
    : registry * Z :=
  if obj =? NULL then (r, -1)
  else
    match scan_registry (reg_slots r) obj 0 with
    | Some i => (r, i + 1)
    | None =>
        let '(r1, ok) := ensureRegistryCapacity realloc_ok (reg_size r + 1) r in
        if ok =? 0 then (r1, -1)
        else
          let r2 := mkRegistry (reg_slots r1 ++ [obj]) (reg_capacity r1) in
          (r2, reg_size r2)
    end.

(** get{Var,Cons,Row}ByHandle. *)
Definition getByHandle (id : Z) (r : registry) : ptr :=
  if (id <=? 0) || (id >? reg_size r) then NULL
  else nth (Z.to_nat (id - 1)) (reg_slots r) NULL.

(** ** What crosses the boundary of the C file

    Requests the bridge sends to the solver (named after the SCIP function it
    calls) and call-outs to the JavaScript [Module] (the [EM_ASM] blocks). *)

Inductive event :=
| SCIPinterruptSolve
| SCIPfree
| SCIPfreeTransform
| SCIPfreeProb
| SCIPcreateProbBasic (name : string)
| SCIPsetObjsense (maximize : bool)
| SCIPaddVar (var : ptr)
| SCIPaddCons (cons : ptr)
| SCIPreleaseCons (cons : ptr)
| SCIPaddPricedVar (var : ptr)
| SCIPreleaseVar (var : ptr)
| SCIPaddVarToRow (row var : ptr) (val : float)
| SCIPaddCoefLinear (cons var : ptr) (val : float)
| Module_onIncumbent (objval : float)
| Module_onNode (dualbound primalbound nnodes : float)
| Module_onPricerRedcost
| Module_onPricerFarkas.

Definition is_interrupt (e : event) : bool :=
  match e with SCIPinterruptSolve => true | _ => false end.

Definition is_callout (e : event) : bool :=
  match e with
  | Module_onIncumbent _ | Module_onNode _ _ _
  | Module_onPricerRedcost | Module_onPricerFarkas => true
  | _ => false
  end.

(** Number of events of a kind in a trace. *)
Definition count (p : event -> bool) (t : list event) : nat :=
  length (filter p t).

(** ** The globals of scip_api.c (lines 20-63) *)

Record bridge := mkBridge {
  scip_instance : ptr;   (* static SCIP* scip_instance *)
  current_pricing_mode : Z;   (* 0: none, 1: redcost, 2: farkas *)
  priced_vars_added : Z;
  js_incumbent_callback : Z;
  js_node_callback : Z;
  js_pricer_redcost_callback : Z;
  js_pricer_farkas_callback : Z;
  js_pricer : ptr;   (* static SCIP_PRICER* js_pricer *)
  pending_pricer_result : Z;   (* SCIP_RESULT *)
  pending_pricer_lowerbound : float;   (* SCIP_Real *)
  pending_pricer_stopearly : bool;   (* SCIP_Bool *)
  pending_pricer_abortround : bool;   (* SCIP_Bool *)
  pricer_redcost_calls : Z;
  pricer_farkas_calls : Z;
  pricer_round : Z;
  last_pricing_mode : Z;
  last_pricing_result : Z;
  added_vars_this_call : Z;
  var_registry : registry;
  cons_registry : registry;
  row_registry : registry;
  trace : list event   (* requests to the solver and call-outs, oldest first *)
}.

(** Assignment to one global. *)

Definition set_scip_instance (v : ptr) (s : bridge) : bridge :=
  mkBridge v (current_pricing_mode s) (priced_vars_added s)
    (js_incumbent_callback s) (js_node_callback s)
    (js_pricer_redcost_callback s) (js_pricer_farkas_callback s) (js_pricer
    s) (pending_pricer_result s) (pending_pricer_lowerbound s)
    (pending_pricer_stopearly s) (pending_pricer_abortround s)
    (pricer_redcost_calls s) (pricer_farkas_calls s) (pricer_round s)
    (last_pricing_mode s) (last_pricing_result s) (added_vars_this_call s)
    (var_registry s) (cons_registry s) (row_registry s) (trace s).

Definition set_current_pricing_mode (v : Z) (s : bridge) : bridge :=
  mkBridge (scip_instance s) v (priced_vars_added s) (js_incumbent_callback
    s) (js_node_callback s) (js_pricer_redcost_callback s)
    (js_pricer_farkas_callback s) (js_pricer s) (pending_pricer_result s)
    (pending_pricer_lowerbound s) (pending_pricer_stopearly s)
    (pending_pricer_abortround s) (pricer_redcost_calls s)
    (pricer_farkas_calls s) (pricer_round s) (last_pricing_mode s)
    (last_pricing_result s) (added_vars_this_call s) (var_registry s)
    (cons_registry s) (row_registry s) (trace s).

Definition set_priced_vars_added (v : Z) (s : bridge) : bridge :=
  mkBridge (scip_instance s) (current_pricing_mode s) v
    (js_incumbent_callback s) (js_node_callback s)
    (js_pricer_redcost_callback s) (js_pricer_farkas_callback s) (js_pricer
    s) (pending_pricer_result s) (pending_pricer_lowerbound s)
    (pending_pricer_stopearly s) (pending_pricer_abortround s)
    (pricer_redcost_calls s) (pricer_farkas_calls s) (pricer_round s)
    (last_pricing_mode s) (last_pricing_result s) (added_vars_this_call s)
    (var_registry s) (cons_registry s) (row_registry s) (trace s).

Definition set_js_incumbent_callback (v : Z) (s : bridge) : bridge :=
  mkBridge (scip_instance s) (current_pricing_mode s) (priced_vars_added s)
    v (js_node_callback s) (js_pricer_redcost_callback s)
    (js_pricer_farkas_callback s) (js_pricer s) (pending_pricer_result s)
    (pending_pricer_lowerbound s) (pending_pricer_stopearly s)
    (pending_pricer_abortround s) (pricer_redcost_calls s)
    (pricer_farkas_calls s) (pricer_round s) (last_pricing_mode s)
    (last_pricing_result s) (added_vars_this_call s) (var_registry s)
    (cons_registry s) (row_registry s) (trace s).

Definition set_js_node_callback (v : Z) (s : bridge) : bridge :=
  mkBridge (scip_instance s) (current_pricing_mode s) (priced_vars_added s)
    (js_incumbent_callback s) v (js_pricer_redcost_callback s)
    (js_pricer_farkas_callback s) (js_pricer s) (pending_pricer_result s)
    (pending_pricer_lowerbound s) (pending_pricer_stopearly s)
    (pending_pricer_abortround s) (pricer_redcost_calls s)
    (pricer_farkas_calls s) (pricer_round s) (last_pricing_mode s)
    (last_pricing_result s) (added_vars_this_call s) (var_registry s)
    (cons_registry s) (row_registry s) (trace s).

Definition set_js_pricer_redcost_callback (v : Z) (s : bridge) : bridge :=
  mkBridge (scip_instance s) (current_pricing_mode s) (priced_vars_added s)
    (js_incumbent_callback s) (js_node_callback s) v
    (js_pricer_farkas_callback s) (js_pricer s) (pending_pricer_result s)
    (pending_pricer_lowerbound s) (pending_pricer_stopearly s)
    (pending_pricer_abortround s) (pricer_redcost_calls s)
    (pricer_farkas_calls s) (pricer_round s) (last_pricing_mode s)
    (last_pricing_result s) (added_vars_this_call s) (var_registry s)
    (cons_registry s) (row_registry s) (trace s).

Definition set_js_pricer_farkas_callback (v : Z) (s : bridge) : bridge :=
  mkBridge (scip_instance s) (current_pricing_mode s) (priced_vars_added s)
    (js_incumbent_callback s) (js_node_callback s)
    (js_pricer_redcost_callback s) v (js_pricer s) (pending_pricer_result s)
    (pending_pricer_lowerbound s) (pending_pricer_stopearly s)
    (pending_pricer_abortround s) (pricer_redcost_calls s)
    (pricer_farkas_calls s) (pricer_round s) (last_pricing_mode s)
    (last_pricing_result s) (added_vars_this_call s) (var_registry s)
    (cons_registry s) (row_registry s) (trace s).

Definition set_js_pricer (v : ptr) (s : bridge) : bridge :=
  mkBridge (scip_instance s) (current_pricing_mode s) (priced_vars_added s)
    (js_incumbent_callback s) (js_node_callback s)
    (js_pricer_redcost_callback s) (js_pricer_farkas_callback s) v
    (pending_pricer_result s) (pending_pricer_lowerbound s)
    (pending_pricer_stopearly s) (pending_pricer_abortround s)
    (pricer_redcost_calls s) (pricer_farkas_calls s) (pricer_round s)
    (last_pricing_mode s) (last_pricing_result s) (added_vars_this_call s)
    (var_registry s) (cons_registry s) (row_registry s) (trace s).

Definition set_pending_pricer_result (v : Z) (s : bridge) : bridge :=
  mkBridge (scip_instance s) (current_pricing_mode s) (priced_vars_added s)
    (js_incumbent_callback s) (js_node_callback s)
    (js_pricer_redcost_callback s) (js_pricer_farkas_callback s) (js_pricer
    s) v (pending_pricer_lowerbound s) (pending_pricer_stopearly s)
    (pending_pricer_abortround s) (pricer_redcost_calls s)
    (pricer_farkas_calls s) (pricer_round s) (last_pricing_mode s)
    (last_pricing_result s) (added_vars_this_call s) (var_registry s)
    (cons_registry s) (row_registry s) (trace s).

Definition set_pending_pricer_lowerbound (v : float) (s : bridge) : bridge :=
  mkBridge (scip_instance s) (current_pricing_mode s) (priced_vars_added s)
    (js_incumbent_callback s) (js_node_callback s)
    (js_pricer_redcost_callback s) (js_pricer_farkas_callback s) (js_pricer
    s) (pending_pricer_result s) v (pending_pricer_stopearly s)
    (pending_pricer_abortround s) (pricer_redcost_calls s)
    (pricer_farkas_calls s) (pricer_round s) (last_pricing_mode s)
    (last_pricing_result s) (added_vars_this_call s) (var_registry s)
    (cons_registry s) (row_registry s) (trace s).

Definition set_pending_pricer_stopearly (v : bool) (s : bridge) : bridge :=
  mkBridge (scip_instance s) (current_pricing_mode s) (priced_vars_added s)
    (js_incumbent_callback s) (js_node_callback s)
    (js_pricer_redcost_callback s) (js_pricer_farkas_callback s) (js_pricer
    s) (pending_pricer_result s) (pending_pricer_lowerbound s) v
    (pending_pricer_abortround s) (pricer_redcost_calls s)
    (pricer_farkas_calls s) (pricer_round s) (last_pricing_mode s)
    (last_pricing_result s) (added_vars_this_call s) (var_registry s)
    (cons_registry s) (row_registry s) (trace s).

Definition set_pending_pricer_abortround (v : bool) (s : bridge) : bridge :=
  mkBridge (scip_instance s) (current_pricing_mode s) (priced_vars_added s)
    (js_incumbent_callback s) (js_node_callback s)
    (js_pricer_redcost_callback s) (js_pricer_farkas_callback s) (js_pricer
    s) (pending_pricer_result s) (pending_pricer_lowerbound s)
    (pending_pricer_stopearly s) v (pricer_redcost_calls s)
    (pricer_farkas_calls s) (pricer_round s) (last_pricing_mode s)
    (last_pricing_result s) (added_vars_this_call s) (var_registry s)
    (cons_registry s) (row_registry s) (trace s).

Definition set_pricer_redcost_calls (v : Z) (s : bridge) : bridge :=
  mkBridge (scip_instance s) (current_pricing_mode s) (priced_vars_added s)
    (js_incumbent_callback s) (js_node_callback s)
    (js_pricer_redcost_callback s) (js_pricer_farkas_callback s) (js_pricer
    s) (pending_pricer_result s) (pending_pricer_lowerbound s)
    (pending_pricer_stopearly s) (pending_pricer_abortround s) v
    (pricer_farkas_calls s) (pricer_round s) (last_pricing_mode s)
    (last_pricing_result s) (added_vars_this_call s) (var_registry s)
    (cons_registry s) (row_registry s) (trace s).

Definition set_pricer_farkas_calls (v : Z) (s : bridge) : bridge :=
  mkBridge (scip_instance s) (current_pricing_mode s) (priced_vars_added s)
    (js_incumbent_callback s) (js_node_callback s)
    (js_pricer_redcost_callback s) (js_pricer_farkas_callback s) (js_pricer
    s) (pending_pricer_result s) (pending_pricer_lowerbound s)
    (pending_pricer_stopearly s) (pending_pricer_abortround s)
    (pricer_redcost_calls s) v (pricer_round s) (last_pricing_mode s)
    (last_pricing_result s) (added_vars_this_call s) (var_registry s)
    (cons_registry s) (row_registry s) (trace s).

Definition set_pricer_round (v : Z) (s : bridge) : bridge :=
  mkBridge (scip_instance s) (current_pricing_mode s) (priced_vars_added s)
    (js_incumbent_callback s) (js_node_callback s)
    (js_pricer_redcost_callback s) (js_pricer_farkas_callback s) (js_pricer
    s) (pending_pricer_result s) (pending_pricer_lowerbound s)
    (pending_pricer_stopearly s) (pending_pricer_abortround s)
    (pricer_redcost_calls s) (pricer_farkas_calls s) v (last_pricing_mode s)
    (last_pricing_result s) (added_vars_this_call s) (var_registry s)
    (cons_registry s) (row_registry s) (trace s).

Definition set_last_pricing_mode (v : Z) (s : bridge) : bridge :=
  mkBridge (scip_instance s) (current_pricing_mode s) (priced_vars_added s)
    (js_incumbent_callback s) (js_node_callback s)
    (js_pricer_redcost_callback s) (js_pricer_farkas_callback s) (js_pricer
    s) (pending_pricer_result s) (pending_pricer_lowerbound s)
    (pending_pricer_stopearly s) (pending_pricer_abortround s)
    (pricer_redcost_calls s) (pricer_farkas_calls s) (pricer_round s) v
    (last_pricing_result s) (added_vars_this_call s) (var_registry s)
    (cons_registry s) (row_registry s) (trace s).

Definition set_last_pricing_result (v : Z) (s : bridge) : bridge :=
  mkBridge (scip_instance s) (current_pricing_mode s) (priced_vars_added s)
    (js_incumbent_callback s) (js_node_callback s)
    (js_pricer_redcost_callback s) (js_pricer_farkas_callback s) (js_pricer
    s) (pending_pricer_result s) (pending_pricer_lowerbound s)
    (pending_pricer_stopearly s) (pending_pricer_abortround s)
    (pricer_redcost_calls s) (pricer_farkas_calls s) (pricer_round s)
    (last_pricing_mode s) v (added_vars_this_call s) (var_registry s)
    (cons_registry s) (row_registry s) (trace s).

Definition set_added_vars_this_call (v : Z) (s : bridge) : bridge :=
  mkBridge (scip_instance s) (current_pricing_mode s) (priced_vars_added s)
    (js_incumbent_callback s) (js_node_callback s)
    (js_pricer_redcost_callback s) (js_pricer_farkas_callback s) (js_pricer
    s) (pending_pricer_result s) (pending_pricer_lowerbound s)
    (pending_pricer_stopearly s) (pending_pricer_abortround s)
    (pricer_redcost_calls s) (pricer_farkas_calls s) (pricer_round s)
    (last_pricing_mode s) (last_pricing_result s) v (var_registry s)
    (cons_registry s) (row_registry s) (trace s).

Definition set_var_registry (v : registry) (s : bridge) : bridge :=
  mkBridge (scip_instance s) (current_pricing_mode s) (priced_vars_added s)
    (js_incumbent_callback s) (js_node_callback s)
    (js_pricer_redcost_callback s) (js_pricer_farkas_callback s) (js_pricer
    s) (pending_pricer_result s) (pending_pricer_lowerbound s)
    (pending_pricer_stopearly s) (pending_pricer_abortround s)
    (pricer_redcost_calls s) (pricer_farkas_calls s) (pricer_round s)
    (last_pricing_mode s) (last_pricing_result s) (added_vars_this_call s) v
    (cons_registry s) (row_registry s) (trace s).

Definition set_cons_registry (v : registry) (s : bridge) : bridge :=
  mkBridge (scip_instance s) (current_pricing_mode s) (priced_vars_added s)
    (js_incumbent_callback s) (js_node_callback s)
    (js_pricer_redcost_callback s) (js_pricer_farkas_callback s) (js_pricer
    s) (pending_pricer_result s) (pending_pricer_lowerbound s)
    (pending_pricer_stopearly s) (pending_pricer_abortround s)
    (pricer_redcost_calls s) (pricer_farkas_calls s) (pricer_round s)
    (last_pricing_mode s) (last_pricing_result s) (added_vars_this_call s)
    (var_registry s) v (row_registry s) (trace s).

Definition set_row_registry (v : registry) (s : bridge) : bridge :=
  mkBridge (scip_instance s) (current_pricing_mode s) (priced_vars_added s)
    (js_incumbent_callback s) (js_node_callback s)
    (js_pricer_redcost_callback s) (js_pricer_farkas_callback s) (js_pricer
    s) (pending_pricer_result s) (pending_pricer_lowerbound s)
    (pending_pricer_stopearly s) (pending_pricer_abortround s)
    (pricer_redcost_calls s) (pricer_farkas_calls s) (pricer_round s)
    (last_pricing_mode s) (last_pricing_result s) (added_vars_this_call s)
    (var_registry s) (cons_registry s) v (trace s).

Definition set_trace (v : list event) (s : bridge) : bridge :=
  mkBridge (scip_instance s) (current_pricing_mode s) (priced_vars_added s)
    (js_incumbent_callback s) (js_node_callback s)
    (js_pricer_redcost_callback s) (js_pricer_farkas_callback s) (js_pricer
    s) (pending_pricer_result s) (pending_pricer_lowerbound s)
    (pending_pricer_stopearly s) (pending_pricer_abortround s)
    (pricer_redcost_calls s) (pricer_farkas_calls s) (pricer_round s)
    (last_pricing_mode s) (last_pricing_result s) (added_vars_this_call s)
    (var_registry s) (cons_registry s) (row_registry s) v.

(** Statement sequencing: [s |> f |> g] runs [f], then [g]. *)
Notation "s |> f" := (f s) (at level 45, left associativity, only parsing).

(** A request or call-out leaves the C file. *)
Definition emit (e : event) (s : bridge) : bridge :=
  set_trace (trace s ++ [e]) s.

Definition interrupts (s : bridge) : nat := count is_interrupt (trace s).
Definition callouts (s : bridge) : nat := count is_callout (trace s).

(** [a[0], ..., a[n-1]] of a C array; the list holds the entries the caller
    allocated, and a read past them yields [d]. *)
Definition array_read {A : Type} (a : list A) (n : Z) (d : A) : list A :=
  map (fun i => nth i a d) (seq 0 (Z.to_nat n)).

(** A pointer argument to caller-owned data (a string, an array) is [None]
    when the caller passes a null pointer. *)
Definition is_null {A : Type} (p : option A) : bool :=
  match p with None => true | Some _ => false end.

Section Bridge.
Context `{ScipDefs}.

(** The static initialisers of the globals. *)
Definition initial_bridge : bridge :=
  mkBridge NULL 0 0 0 0 0 0 NULL SCIP_SUCCESS SCIP_INVALID false false
    0 0 0 0 SCIP_DIDNOTRUN 0 empty_registry empty_registry empty_registry [].

(** *** Registries of the bridge *)

Definition clearRegistries (s : bridge) : bridge :=
  s |> set_var_registry empty_registry
    |> set_cons_registry empty_registry
    |> set_row_registry empty_registry.

Definition registerVarHandle (realloc_ok : bool) (var : ptr) (s : bridge)
    : bridge * Z :=
  let '(r, id) := registerHandle realloc_ok var (var_registry s) in
  (set_var_registry r s, id).

Definition registerConsHandle (realloc_ok : bool) (cons : ptr) (s : bridge)
    : bridge * Z :=
  let '(r, id) := registerHandle realloc_ok cons (cons_registry s) in
  (set_cons_registry r s, id).

Definition registerRowHandle (realloc_ok : bool) (row : ptr) (s : bridge)
    : bridge * Z :=
  let '(r, id) := registerHandle realloc_ok row (row_registry s) in
  (set_row_registry r s, id).

Definition getVarByHandle (varId : Z) (s : bridge) : ptr :=
  getByHandle varId (var_registry s).

Definition getConsByHandle (consId : Z) (s : bridge) : ptr :=
  getByHandle consId (cons_registry s).

Definition getRowByHandle (rowId : Z) (s : bridge) : ptr :=
  getByHandle rowId (row_registry s).

(** *** Pricing state and problem teardown (scip_api.c:146-178) *)

Definition resetPricingState (s : bridge) : bridge :=
  s |> set_pending_pricer_result SCIP_SUCCESS
    |> set_pending_pricer_lowerbound SCIP_INVALID
    |> set_pending_pricer_stopearly false
    |> set_pending_pricer_abortround false
    |> set_pricer_redcost_calls 0
    |> set_pricer_farkas_calls 0
    |> set_pricer_round 0
    |> set_last_pricing_mode 0
    |> set_last_pricing_result SCIP_DIDNOTRUN
    |> set_added_vars_this_call 0
    |> set_current_pricing_mode 0
    |> set_priced_vars_added 0.

(** [stage] and [stage'] are what [SCIPgetStage] answers before and after
    [SCIPfreeTransform]. *)
Definition clearCurrentProblem (stage stage' : Z) (s : bridge) : bridge :=
  if scip_instance s =? NULL then s
  else
    let '(s, stage) :=
      if stage >=? SCIP_STAGE_SOLVING then (emit SCIPfreeTransform s, stage')
      else (s, stage) in
    if stage >=? SCIP_STAGE_PROBLEM then emit SCIPfreeProb s else s.

(** *** Problem construction and handle translation *)

(** In this part and the next, arguments that are only handed through to the
    solver (bounds, objective coefficient, type and flags of a new variable or
    constraint) are left out.  [SCIP_CALL_ABORT(x)] never branches in the
    bridge: the process stops there or goes on as if [x] had succeeded, so the
    calls under it ask for no answer. *)

(** scip_add_cons_linear: [ret], [cons] answer [SCIPcreateConsLinear],
    [ret_add] answers [SCIPaddCons]. *)
Definition scip_add_cons_linear (name : option string)
    (ret : Z) (cons : ptr) (ret_add : Z) (realloc_ok : bool) (s : bridge)
    : bridge * Z :=
  if (scip_instance s =? NULL) || is_null name
  then (s, -1)
  else if negb (ret =? SCIP_OKAY) || (cons =? NULL) then (s, -1)
  else
    let s := emit (SCIPaddCons cons) s in
    if negb (ret_add =? SCIP_OKAY) then (emit (SCIPreleaseCons cons) s, -1)
    else
      let '(s, consId) := registerConsHandle realloc_ok cons s in
      (emit (SCIPreleaseCons cons) s, consId).

(** scip_add_var: [ret], [var] answer [SCIPcreateVarBasic], [ret_add] answers
    [SCIPaddVar]. *)
Definition scip_add_var (name : option string)
    (ret : Z) (var : ptr) (ret_add : Z) (realloc_ok : bool) (s : bridge)
    : bridge * Z :=
  if (scip_instance s =? NULL) || is_null name
  then (s, -1)
  else if negb (ret =? SCIP_OKAY) || (var =? NULL) then (s, -1)
  else
    let s := emit (SCIPaddVar var) s in
    if negb (ret_add =? SCIP_OKAY) then (emit (SCIPreleaseVar var) s, -1)
    else
      let '(s, varId) := registerVarHandle realloc_ok var s in
      (emit (SCIPreleaseVar var) s, varId).

(** scip_var_find_id: [var] answers [SCIPfindVar]. *)
Definition scip_var_find_id (name : option string) (var : ptr)
    (realloc_ok : bool) (s : bridge) : bridge * Z :=
  if (scip_instance s =? NULL) || is_null name
  then (s, -1)
  else registerVarHandle realloc_ok var s.

(** scip_cons_find_id: [cons] answers [SCIPfindCons]. *)
Definition scip_cons_find_id (name : option string) (cons : ptr)
    (realloc_ok : bool) (s : bridge) : bridge * Z :=
  if (scip_instance s =? NULL) || is_null name
  then (s, -1)
  else registerConsHandle realloc_ok cons s.

(** scip_var_get_transformed: [transformed] answers [SCIPisTransformed],
    [var_transformed] answers [SCIPvarIsTransformed], and [ret], [transvar]
    answer [SCIPgetTransformedVar]. *)
Definition scip_var_get_transformed (varId : Z)
    (transformed var_transformed : bool) (ret : Z) (transvar : ptr)
    (realloc_ok : bool) (s : bridge) : bridge * Z :=
  if scip_instance s =? NULL then (s, -1)
  else if negb transformed then (s, -1)
  else if getVarByHandle varId s =? NULL then (s, -1)
  else if var_transformed then (s, varId)
  else if negb (ret =? SCIP_OKAY) || (transvar =? NULL) then (s, -1)
  else registerVarHandle realloc_ok transvar s.

(** scip_cons_get_transformed, with the answers of [SCIPisTransformed],
    [SCIPconsIsTransformed] and [SCIPgetTransformedCons]. *)
Definition scip_cons_get_transformed (consId : Z)
    (transformed cons_transformed : bool) (ret : Z) (transcons : ptr)
    (realloc_ok : bool) (s : bridge) : bridge * Z :=
  if scip_instance s =? NULL then (s, -1)
  else if negb transformed then (s, -1)
  else if getConsByHandle consId s =? NULL then (s, -1)
  else if cons_transformed then (s, consId)
  else if negb (ret =? SCIP_OKAY) || (transcons =? NULL) then (s, -1)
  else registerConsHandle realloc_ok transcons s.

(** scip_cons_get_row: [row] answers [SCIPgetRowLinear]. *)
Definition scip_cons_get_row (consId : Z) (row : ptr) (realloc_ok : bool)
    (s : bridge) : bridge * Z :=
  if scip_instance s =? NULL then (s, -1)
  else if getConsByHandle consId s =? NULL then (s, -1)
  else if row =? NULL then (s, -1)
  else registerRowHandle realloc_ok row s.

(** scip_cons_is_in_lp: goes through scip_cons_get_row; [in_lp] answers
    [SCIProwIsInLP]. *)
Definition scip_cons_is_in_lp (consId : Z) (row : ptr) (realloc_ok : bool)
    (in_lp : bool) (s : bridge) : bridge * Z :=
  let '(s, rowId) := scip_cons_get_row consId row realloc_ok s in
  if rowId <=? 0 then (s, 0)
  else if getRowByHandle rowId s =? NULL then (s, 0)
  else (s, if in_lp then 1 else 0).

(** scip_ctx_get_n_lp_rows, with the answers of [SCIPgetStage],
    [SCIPisLPConstructed] and [SCIPgetNLPRows]. *)
Definition scip_ctx_get_n_lp_rows (stage : Z) (constructed : bool)
    (nlprows : Z) (s : bridge) : Z :=
  if scip_instance s =? NULL then 0
  else if negb (stage =? SCIP_STAGE_SOLVING) then 0
  else if negb constructed then 0
  else nlprows.

(** An entry of [SCIPgetLPRows]: the row, the value the loop reads from it
    (its dual or Farkas multiplier) and the answer of [realloc] should its
    registration grow the registry. *)
Definition lp_row : Type := ptr * float * bool.

(** [for (i = 0; i < count; ++i) { out[i] = value(rows[i]);
    registerRowHandle(rows[i]); }]: the globals afterwards and the values
    stored in [out[0 .. count)]. *)
Fixpoint register_lp_rows (rows : list lp_row) (s : bridge)
    : bridge * list float :=
  match rows with
  | [] => (s, [])
  | (row, value, realloc_ok) :: rest =>
      let s := fst (registerRowHandle realloc_ok row s) in
      let '(s, written) := register_lp_rows rest s in
      (s, value :: written)
  end.

(** The body shared by scip_ctx_get_lp_row_duals_batch and
    scip_ctx_get_lp_row_farkas_batch, which differ in the accessor that
    produces the value of a row.  [out] is [None] for a null buffer; [rows]
    answers [SCIPgetLPRows]. *)
Definition lp_row_values_batch (out : option (list float))
    (n : Z) (stage : Z) (constructed : bool) (nlprows : Z)
    (rows : list lp_row) (s : bridge) : bridge * list float * Z :=
  if (scip_instance s =? NULL) || is_null out || (n <=? 0) then (s, [], -1)
  else
    let nrows := scip_ctx_get_n_lp_rows stage constructed nlprows s in
    if nrows <=? 0 then (s, [], 0)
    else
      let count := if n <? nrows then n else nrows in
      let '(s, written) :=
        register_lp_rows (array_read rows count (NULL, 0%float, false)) s in
      (s, written, count).

(** The values of [rows] are the answers of [SCIProwGetDualsol]. *)
Definition scip_ctx_get_lp_row_duals_batch := lp_row_values_batch.

(** The values of [rows] are the answers of [SCIProwGetDualfarkas]. *)
Definition scip_ctx_get_lp_row_farkas_batch := lp_row_values_batch.

(** *** Pricer operations (scip_api.c:1330-1494, 1584-1613) *)

(** The two assignments every failure branch of the column-injection
    functions starts with. *)
Definition mark_abortround (s : bridge) : bridge :=
  s |> set_pending_pricer_abortround true
    |> set_pending_pricer_result SCIP_DIDNOTRUN.

(** Second loop of scip_pricer_add_var_to_rows_batch, from index [i] on;
    [rets k] answers the [k]-th [SCIPaddVarToRow]. *)
Fixpoint add_var_to_rows (rets : nat -> Z) (i : nat) (var : ptr)
    (entries : list (Z * float)) (s : bridge) : bridge * Z :=
  match entries with
  | [] => (s, 1)
  | (rowId, val) :: rest =>
      let row := getRowByHandle rowId s in
      let s := emit (SCIPaddVarToRow row var val) s in
      if negb (rets i =? SCIP_OKAY) then
        (s |> mark_abortround
           |> set_pending_pricer_stopearly true
           |> emit SCIPinterruptSolve, -1)
      else add_var_to_rows rets (S i) var rest s
  end.

Definition scip_pricer_add_var_to_rows_batch (varId : Z)
    (rowIds : option (list Z)) (vals : option (list float)) (nnz : Z)
    (rets : nat -> Z) (s : bridge) : bridge * Z :=
  match rowIds, vals with
  | Some rowIds, Some vals =>
      if (scip_instance s =? NULL) || (nnz <? 0) then (mark_abortround s, -1)
      else
        let var := getVarByHandle varId s in
        if var =? NULL then (mark_abortround s, -1)
        else
          let ids := array_read rowIds nnz 0 in
          if existsb (fun rowId => getRowByHandle rowId s =? NULL) ids
          then (mark_abortround s, -1)
          else
            add_var_to_rows rets 0 var
              (combine ids (array_read vals nnz 0%float)) s
  | _, _ => (mark_abortround s, -1)
  end.

(** Second loop of scip_pricer_add_var_to_conss_batch; [rets k] answers the
    [k]-th [SCIPaddCoefLinear]. *)
Fixpoint add_var_to_conss (rets : nat -> Z) (i : nat) (var : ptr)
    (entries : list (Z * float)) (s : bridge) : bridge * Z :=
  match entries with
  | [] => (s, 1)
  | (consId, val) :: rest =>
      let cons := getConsByHandle consId s in
      let s := emit (SCIPaddCoefLinear cons var val) s in
      if negb (rets i =? SCIP_OKAY) then
        (s |> mark_abortround
           |> set_pending_pricer_stopearly true
           |> emit SCIPinterruptSolve, -1)
      else add_var_to_conss rets (S i) var rest s
  end.

Definition scip_pricer_add_var_to_conss_batch (varId : Z)
    (consIds : option (list Z)) (vals : option (list float)) (nnz : Z)
    (rets : nat -> Z) (s : bridge) : bridge * Z :=
  match consIds, vals with
  | Some consIds, Some vals =>
      if (scip_instance s =? NULL) || (nnz <? 0) then (mark_abortround s, -1)
      else
        let var := getVarByHandle varId s in
        if var =? NULL then (mark_abortround s, -1)
        else
          let ids := array_read consIds nnz 0 in
          if existsb (fun consId => getConsByHandle consId s =? NULL) ids
          then (mark_abortround s, -1)
          else
            add_var_to_conss rets 0 var
              (combine ids (array_read vals nnz 0%float)) s
  | _, _ => (mark_abortround s, -1)
  end.

(** scip_pricer_add_priced_var: [ret], [var] answer [SCIPcreateVarBasic],
    [ret_add] answers [SCIPaddPricedVar]. *)
Definition scip_pricer_add_priced_var (name : option string)
    (ret : Z) (var : ptr) (ret_add : Z) (realloc_ok : bool) (s : bridge)
    : bridge * Z :=
  if (scip_instance s =? NULL) || is_null name then (mark_abortround s, -1)
  else if negb (ret =? SCIP_OKAY) || (var =? NULL)
  then (mark_abortround s, -1)
  else
    let s := emit (SCIPaddPricedVar var) s in
    if negb (ret_add =? SCIP_OKAY) then
      (s |> mark_abortround |> emit (SCIPreleaseVar var), -1)
    else
      let '(s, varId) := registerVarHandle realloc_ok var s in
      (s |> set_priced_vars_added (priced_vars_added s + 1)
         |> set_added_vars_this_call (added_vars_this_call s + 1)
         |> emit (SCIPreleaseVar var), varId).

Definition scip_pricer_abort_round (s : bridge) : bridge :=
  let s := s |> set_pending_pricer_abortround true
             |> set_pending_pricer_result SCIP_DIDNOTRUN
             |> set_pending_pricer_stopearly true in
  if negb (scip_instance s =? NULL) then emit SCIPinterruptSolve s else s.

Definition scip_pricer_enable_redcost_callback (enable : Z) (s : bridge)
    : bridge :=
  set_js_pricer_redcost_callback (if enable =? 0 then 0 else 1) s.

Definition scip_pricer_enable_farkas_callback (enable : Z) (s : bridge)
    : bridge :=
  set_js_pricer_farkas_callback (if enable =? 0 then 0 else 1) s.

Definition scip_pricer_set_result (resultcode : Z) (s : bridge) : bridge :=
  s |> set_pending_pricer_result resultcode
    |> set_last_pricing_result resultcode.

Definition scip_pricer_set_lowerbound (lowerbound : float) (s : bridge)
    : bridge :=
  set_pending_pricer_lowerbound lowerbound s.

Definition scip_pricer_set_stopearly (stopearly : Z) (s : bridge) : bridge :=
  set_pending_pricer_stopearly (negb (stopearly =? 0)) s.

Definition scip_enable_incumbent_callback (enable : Z) (s : bridge) : bridge :=
  set_js_incumbent_callback enable s.

Definition scip_enable_node_callback (enable : Z) (s : bridge) : bridge :=
  set_js_node_callback enable s.

(** ** The external routine

    While a hook is suspended in its call-out, the JavaScript side calls back
    into the bridge.  One run of a callback is the sequence of calls it makes,
    each with the answers the solver gave to it.  The calls are those the
    bridge offers for an active round or notification: column injection, the
    setters of the round's outputs, abort-round, handle translation, problem
    construction and the enable flags: the round operations.  (Getters leave
    the globals untouched.  The lifecycle functions and [scip_solve] tear
    down or re-enter the solver that is executing the hook; they belong to
    the top level, [api_call] below, and a callback that calls them all the
    same is what [pricerRedcostJs_reentrant] runs.) *)

Inductive js_call :=
| call_add_cons_linear (name : option string) (ret : Z) (cons : ptr)
    (ret_add : Z) (realloc_ok : bool)
| call_add_var (name : option string) (ret : Z) (var : ptr) (ret_add : Z)
    (realloc_ok : bool)
| call_var_find_id (name : option string) (var : ptr) (realloc_ok : bool)
| call_cons_find_id (name : option string) (cons : ptr) (realloc_ok : bool)
| call_var_get_transformed (varId : Z) (transformed var_transformed : bool)
    (ret : Z) (transvar : ptr) (realloc_ok : bool)
| call_cons_get_transformed (consId : Z) (transformed cons_transformed : bool)
    (ret : Z) (transcons : ptr) (realloc_ok : bool)
| call_cons_get_row (consId : Z) (row : ptr) (realloc_ok : bool)
| call_cons_is_in_lp (consId : Z) (row : ptr) (realloc_ok : bool)
    (in_lp : bool)
| call_ctx_get_lp_row_duals_batch (out : option (list float)) (n : Z)
    (stage : Z) (constructed : bool) (nlprows : Z) (rows : list lp_row)
| call_ctx_get_lp_row_farkas_batch (out : option (list float)) (n : Z)
    (stage : Z) (constructed : bool) (nlprows : Z) (rows : list lp_row)
| call_pricer_add_var_to_rows_batch (varId : Z) (rowIds : option (list Z))
    (vals : option (list float)) (nnz : Z) (rets : nat -> Z)
| call_pricer_add_var_to_conss_batch (varId : Z) (consIds : option (list Z))
    (vals : option (list float)) (nnz : Z) (rets : nat -> Z)
| call_pricer_add_priced_var (name : option string) (ret : Z) (var : ptr)
    (ret_add : Z) (realloc_ok : bool)
| call_pricer_abort_round
| call_pricer_enable_redcost_callback (enable : Z)
| call_pricer_enable_farkas_callback (enable : Z)
| call_pricer_set_result (resultcode : Z)
| call_pricer_set_lowerbound (lowerbound : float)
| call_pricer_set_stopearly (stopearly : Z)
| call_enable_incumbent_callback (enable : Z)
| call_enable_node_callback (enable : Z).

(** One call; the value returned to JavaScript is dropped. *)
Definition exec_call (c : js_call) (s : bridge) : bridge :=
  match c with
  | call_add_cons_linear name ret cns ret_add ok =>
      fst (scip_add_cons_linear name ret cns ret_add ok s)
  | call_add_var name ret var ret_add ok =>
      fst (scip_add_var name ret var ret_add ok s)
  | call_var_find_id name var ok => fst (scip_var_find_id name var ok s)
  | call_cons_find_id name cns ok => fst (scip_cons_find_id name cns ok s)
  | call_var_get_transformed varId tr vtr ret transvar ok =>
      fst (scip_var_get_transformed varId tr vtr ret transvar ok s)
  | call_cons_get_transformed consId tr ctr ret transcons ok =>
      fst (scip_cons_get_transformed consId tr ctr ret transcons ok s)
  | call_cons_get_row consId row ok => fst (scip_cons_get_row consId row ok s)
  | call_cons_is_in_lp consId row ok in_lp =>
      fst (scip_cons_is_in_lp consId row ok in_lp s)
  | call_ctx_get_lp_row_duals_batch out n stage constructed nlprows rows =>
      fst (fst (scip_ctx_get_lp_row_duals_batch out n stage constructed
                  nlprows rows s))
  | call_ctx_get_lp_row_farkas_batch out n stage constructed nlprows rows =>
      fst (fst (scip_ctx_get_lp_row_farkas_batch out n stage constructed
                  nlprows rows s))
  | call_pricer_add_var_to_rows_batch varId rowIds vals nnz rets =>
      fst (scip_pricer_add_var_to_rows_batch varId rowIds vals nnz rets s)
  | call_pricer_add_var_to_conss_batch varId consIds vals nnz rets =>
      fst (scip_pricer_add_var_to_conss_batch varId consIds vals nnz rets s)
  | call_pricer_add_priced_var name ret var ret_add ok =>
      fst (scip_pricer_add_priced_var name ret var ret_add ok s)
  | call_pricer_abort_round => scip_pricer_abort_round s
  | call_pricer_enable_redcost_callback enable =>
      scip_pricer_enable_redcost_callback enable s
  | call_pricer_enable_farkas_callback enable =>
      scip_pricer_enable_farkas_callback enable s
  | call_pricer_set_result resultcode => scip_pricer_set_result resultcode s
  | call_pricer_set_lowerbound lowerbound =>
      scip_pricer_set_lowerbound lowerbound s
  | call_pricer_set_stopearly stopearly =>
      scip_pricer_set_stopearly stopearly s
  | call_enable_incumbent_callback enable =>
      scip_enable_incumbent_callback enable s
  | call_enable_node_callback enable => scip_enable_node_callback enable s
  end.

(** A callback body runs to completion before the hook resumes. *)
Definition run_callback (body : list js_call) (s : bridge) : bridge :=
  fold_left (fun s c => exec_call c s) body s.

(** [if (flag != 0) EM_ASM({ if (Module.h) Module.h(...); })]: [handler] is
    [None] when the JavaScript [Module] defines no such function. *)
Definition callout (flag : Z) (e : event) (handler : option (list js_call))
    (s : bridge) : bridge :=
  if negb (flag =? 0) then
    match handler with
    | Some body => s |> emit e |> run_callback body
    | None => s
    end
  else s.

(** [if (p != NULL) *p = v;] on an output slot of the solver: [None] is a
    null pointer, [Some x] a slot that holds [x]. *)
Definition store {A : Type} (slot : option A) (v : A) : option A :=
  match slot with Some _ => Some v | None => None end.

(** ** Hooks the solver invokes (scip_api.c:275-431)

    All four return [SCIP_OKAY]; the embedding returns the globals and the
    output slots. *)

(** eventExecBestSol: [sol] answers [SCIPgetBestSol], [objval] answers
    [SCIPgetSolOrigObj]. *)
Definition eventExecBestSol (sol : ptr) (objval : float)
    (onIncumbent : option (float -> list js_call)) (s : bridge) : bridge :=
  if negb (sol =? NULL) then
    callout (js_incumbent_callback s) (Module_onIncumbent objval)
      (option_map (fun h => h objval) onIncumbent) s
  else s.

(** eventExecNode, with the answers of [SCIPgetDualbound],
    [SCIPgetPrimalbound] and [SCIPgetNNodes]. *)
Definition eventExecNode (dualbound primalbound nnodes : float)
    (onNode : option (float -> float -> float -> list js_call)) (s : bridge)
    : bridge :=
  callout (js_node_callback s) (Module_onNode dualbound primalbound nnodes)
    (option_map (fun h => h dualbound primalbound nnodes) onNode) s.

(** The output pointers of a reduced-cost pricing call. *)
Record redcost_slots := mkRedcostSlots {
  slot_lowerbound : option float;
  slot_stopearly : option bool;
  slot_result : option Z
}.

(** pricerRedcostJs, lines 346-354: entering the round. *)
Definition pricerRedcostJs_enter (s : bridge) : bridge :=
  s |> set_current_pricing_mode 1
    |> set_last_pricing_mode 1
    |> set_pricer_redcost_calls (int_wrap (pricer_redcost_calls s + 1))
    |> set_pricer_round (int_wrap (pricer_round s + 1))
    |> set_added_vars_this_call 0
    |> set_pending_pricer_result SCIP_SUCCESS
    |> set_pending_pricer_lowerbound SCIP_INVALID
    |> set_pending_pricer_stopearly false
    |> set_pending_pricer_abortround false.

(** pricerRedcostJs, lines 364-385: leaving the round. *)
Definition pricerRedcostJs_exit (out : redcost_slots) (s : bridge)
    : bridge * redcost_slots :=
  let s :=
    if pending_pricer_abortround s then
      s |> set_pending_pricer_result SCIP_DIDNOTRUN
        |> set_pending_pricer_stopearly true
        |> emit SCIPinterruptSolve
    else s in
  let lowerbound :=
    if real_neq (pending_pricer_lowerbound s) SCIP_INVALID
    then store (slot_lowerbound out) (pending_pricer_lowerbound s)
    else slot_lowerbound out in
  let stopearly := store (slot_stopearly out) (pending_pricer_stopearly s) in
  let result := store (slot_result out) (pending_pricer_result s) in
  (s |> set_last_pricing_result (pending_pricer_result s)
     |> set_current_pricing_mode 0,
   mkRedcostSlots lowerbound stopearly result).

Definition pricerRedcostJs (onPricerRedcost : option (list js_call))
    (out : redcost_slots) (s : bridge) : bridge * redcost_slots :=
  let s := pricerRedcostJs_enter s in
  let s :=
    callout (js_pricer_redcost_callback s) Module_onPricerRedcost
      onPricerRedcost s in
  pricerRedcostJs_exit out s.

(** pricerFarkasJs, lines 392-398: entering the round. *)
Definition pricerFarkasJs_enter (s : bridge) : bridge :=
  s |> set_current_pricing_mode 2
    |> set_last_pricing_mode 2
    |> set_pricer_farkas_calls (int_wrap (pricer_farkas_calls s + 1))
    |> set_pricer_round (int_wrap (pricer_round s + 1))
    |> set_added_vars_this_call 0
    |> set_pending_pricer_result SCIP_SUCCESS
    |> set_pending_pricer_abortround false.

(** pricerFarkasJs, lines 418-430: leaving a round that had an LP. *)
Definition pricerFarkasJs_exit (result : option Z) (s : bridge)
    : bridge * option Z :=
  let s :=
    if pending_pricer_abortround s then
      s |> set_pending_pricer_result SCIP_DIDNOTRUN
        |> emit SCIPinterruptSolve
    else s in
  (s |> set_last_pricing_result (pending_pricer_result s)
     |> set_current_pricing_mode 0,
   store result (pending_pricer_result s)).

(** pricerFarkasJs: [has_lp] answers [SCIPhasCurrentNodeLP], [result] is the
    only output pointer of a Farkas pricing call. *)
Definition pricerFarkasJs (has_lp : bool)
    (onPricerFarkas : option (list js_call)) (result : option Z) (s : bridge)
    : bridge * option Z :=
  let s := pricerFarkasJs_enter s in
  if negb has_lp then
    let s := set_pending_pricer_result SCIP_DIDNOTRUN s in
    let s := set_last_pricing_result (pending_pricer_result s) s in
    let s := set_current_pricing_mode 0 s in
    (s, store result (pending_pricer_result s))
  else
    let s :=
      callout (js_pricer_farkas_callback s) Module_onPricerFarkas
        onPricerFarkas s in
    pricerFarkasJs_exit result s.

(** ** Lifecycle and solve (scip_api.c:440-517, 797-826, 1530-1553, 1637-1645) *)

(** [SCIP_CALL(x)] returns the code of [x] from the enclosing function unless
    it is [SCIP_OKAY].  scip_create: [ret_create] and [inst] are what
    [SCIPcreate] returns and stores in [scip_instance]; the other codes answer
    [SCIPincludeDefaultPlugins], [includeEventHandlers] and [SCIPcatchEvent]. *)
Definition scip_create (ret_create : Z) (inst : ptr)
    (ret_plugins ret_handlers ret_catch : Z) (s : bridge) : bridge * Z :=
  if negb (scip_instance s =? NULL) then (s, 0)
  else
    let s := set_scip_instance inst s in
    if negb (ret_create =? SCIP_OKAY) then (s, ret_create)
    else if negb (ret_plugins =? SCIP_OKAY) then (s, ret_plugins)
    else if negb (ret_handlers =? SCIP_OKAY) then (s, ret_handlers)
    else if negb (ret_catch =? SCIP_OKAY) then (s, ret_catch)
    else (s, 1).

Definition scip_free (stage stage' : Z) (s : bridge) : bridge :=
  let s :=
    if negb (scip_instance s =? NULL) then
      s |> clearCurrentProblem stage stage'
        |> emit SCIPfree
        |> set_scip_instance NULL
    else s in
  s |> set_js_pricer NULL
    |> set_js_pricer_redcost_callback 0
    |> set_js_pricer_farkas_callback 0
    |> resetPricingState
    |> clearRegistries.

Definition scip_problem_clear (stage stage' : Z) (s : bridge) : bridge * Z :=
  if scip_instance s =? NULL then (s, 0)
  else
    (s |> clearCurrentProblem stage stage'
       |> resetPricingState
       |> clearRegistries
       |> set_js_pricer NULL
       |> set_js_pricer_redcost_callback 0
       |> set_js_pricer_farkas_callback 0, 1).

(** scip_problem_begin: [ret_create] answers [SCIPcreateProbBasic] and
    [ret_sense] answers [SCIPsetObjsense]. *)
Definition scip_problem_begin (name : option string) (maximize : Z)
    (stage stage' : Z) (ret_create ret_sense : Z) (s : bridge) : bridge * Z :=
  if scip_instance s =? NULL then (s, 0)
  else
    let s :=
      s |> clearCurrentProblem stage stage'
        |> resetPricingState
        |> clearRegistries
        |> set_js_pricer NULL
        |> set_js_pricer_redcost_callback 0
        |> set_js_pricer_farkas_callback 0 in
    let problemname :=
      match name with
      | Some (String c rest) => String c rest
      | _ => "js_problem"%string
      end in
    let s := emit (SCIPcreateProbBasic problemname) s in
    if negb (ret_create =? SCIP_OKAY) then (s, 0)
    else
      let s := emit (SCIPsetObjsense (negb (maximize =? 0))) s in
      if negb (ret_sense =? SCIP_OKAY) then (s, 0) else (s, 1).

Definition scip_reset (stage stage' : Z) (s : bridge) : bridge :=
  s |> clearCurrentProblem stage stage'
    |> resetPricingState
    |> clearRegistries
    |> set_js_pricer NULL
    |> set_js_pricer_redcost_callback 0
    |> set_js_pricer_farkas_callback 0.

(** scip_pricer_include: [ret] and [pricer] are what [SCIPincludePricerBasic]
    returns and stores in [js_pricer]. *)
Definition scip_pricer_include (name desc : option string) (ret : Z)
    (pricer : ptr) (s : bridge) : bridge * Z :=
  if (scip_instance s =? NULL) || is_null name || is_null desc then (s, 0)
  else if negb (js_pricer s =? NULL) then (s, 1)
  else (set_js_pricer pricer s, if ret =? SCIP_OKAY then 1 else 0).

(** What the solver does to the bridge while [SCIPsolve] runs: it invokes the
    hooks registered with it (eventExecNode is never registered). *)
Inductive solver_hook :=
| hook_bestsol (sol : ptr) (objval : float)
    (onIncumbent : option (float -> list js_call))
| hook_redcost (onPricerRedcost : option (list js_call)) (out : redcost_slots)
| hook_farkas (has_lp : bool) (onPricerFarkas : option (list js_call))
    (result : option Z).

Definition run_hook (h : solver_hook) (s : bridge) : bridge :=
  match h with
  | hook_bestsol sol objval onIncumbent =>
      eventExecBestSol sol objval onIncumbent s
  | hook_redcost onPricerRedcost out =>
      fst (pricerRedcostJs onPricerRedcost out s)
  | hook_farkas has_lp onPricerFarkas result =>
      fst (pricerFarkasJs has_lp onPricerFarkas result s)
  end.

(** scip_solve: [hooks] is the run of [SCIPsolve], [retcode] its return code
    and [status] the answer of [SCIPgetStatus]. *)
Definition scip_solve (hooks : list solver_hook) (retcode status : Z)
    (s : bridge) : bridge * Z :=
  if scip_instance s =? NULL then (s, -1)
  else
    let s := s |> set_current_pricing_mode 0 |> set_added_vars_this_call 0 in
    let s := fold_left (fun s h => run_hook h s) hooks s in
    if negb (retcode =? SCIP_OKAY) then (s, -1)
    else if status =? SCIP_STATUS_OPTIMAL then (s, 0)
    else if status =? SCIP_STATUS_INFEASIBLE then (s, 1)
    else if status =? SCIP_STATUS_UNBOUNDED then (s, 2)
    else if status =? SCIP_STATUS_TIMELIMIT then (s, 3)
    else (s, 4).

(** ** Runs of the bridge from the top level *)

Inductive api_call :=
| api_create (ret_create : Z) (inst : ptr)
    (ret_plugins ret_handlers ret_catch : Z)
| api_free (stage stage' : Z)
| api_problem_clear (stage stage' : Z)
| api_problem_begin (name : option string) (maximize : Z) (stage stage' : Z)
    (ret_create ret_sense : Z)
| api_reset (stage stage' : Z)
| api_pricer_include (name desc : option string) (ret : Z) (pricer : ptr)
| api_solve (hooks : list solver_hook) (retcode status : Z)
| api_js (c : js_call).

Definition exec_api (c : api_call) (s : bridge) : bridge :=
  match c with
  | api_create ret_create inst ret_plugins ret_handlers ret_catch =>
      fst (scip_create ret_create inst ret_plugins ret_handlers ret_catch s)
  | api_free stage stage' => scip_free stage stage' s
  | api_problem_clear stage stage' => fst (scip_problem_clear stage stage' s)
  | api_problem_begin name maximize stage stage' ret_create ret_sense =>
      fst (scip_problem_begin name maximize stage stage' ret_create ret_sense s)
  | api_reset stage stage' => scip_reset stage stage' s
  | api_pricer_include name desc ret pricer =>
      fst (scip_pricer_include name desc ret pricer s)
  | api_solve hooks retcode status => fst (scip_solve hooks retcode status s)
  | api_js c => exec_call c s
  end.

Definition run_api (calls : list api_call) (s : bridge) : bridge :=
  fold_left (fun s c => exec_api c s) calls s.

(** The states the bridge can be in: those a run from the initial globals
    ends in. *)
Definition reachable (s : bridge) : Prop :=
  exists calls, s = run_api calls initial_bridge.

(** A callback is JavaScript, and every exported function is within its
    reach: nothing in the bridge keeps it to the calls of [js_call].
    pricerRedcostJs with a handler installed that makes the calls [body],
    lifecycle functions and scip_solve included. *)
Definition pricerRedcostJs_reentrant (body : list api_call)
    (out : redcost_slots) (s : bridge) : bridge * redcost_slots :=
  let s := pricerRedcostJs_enter s in
  let s :=
    if negb (js_pricer_redcost_callback s =? 0)
    then s |> emit Module_onPricerRedcost |> run_api body
    else s in
  pricerRedcostJs_exit out s.

End Bridge.

(** ** The rest of the exported interface

    Functions that assign to no global: what they send to the solver goes to
    the trace, what they return is computed from the globals.  They are not
    part of [js_call]; the properties of callbacks above do not depend on
    them. *)

Section BridgeRest.
Context `{ScipDefs}.

(** scip_add_coef_linear (lines 624-638): [ret] answers
    [SCIPaddCoefLinear]. *)
Definition scip_add_coef_linear (consId varId : Z) (val : float) (ret : Z)
    (s : bridge) : bridge * Z :=
  if scip_instance s =? NULL then (s, 0)
  else
    let cons := getConsByHandle consId s in
    let var := getVarByHandle varId s in
    if (cons =? NULL) || (var =? NULL) then (s, 0)
    else
      (emit (SCIPaddCoefLinear cons var val) s,
       if ret =? SCIP_OKAY then 1 else 0).

(** The loop of scip_add_coef_linear_batch from index [i] on; [rets k]
    answers the [k]-th [SCIPaddCoefLinear]. *)
Fixpoint add_coefs_linear (rets : nat -> Z) (i : nat) (cons : ptr)
    (entries : list (Z * float)) (s : bridge) : bridge * Z :=
  match entries with
  | [] => (s, 1)
  | (varId, val) :: rest =>
      let var := getVarByHandle varId s in
      if var =? NULL then (s, 0)
      else
        let s := emit (SCIPaddCoefLinear cons var val) s in
        if negb (rets i =? SCIP_OKAY) then (s, 0)
        else add_coefs_linear rets (S i) cons rest s
  end.

(** scip_add_coef_linear_batch (lines 640-663). *)
Definition scip_add_coef_linear_batch (consId : Z)
    (varIds : option (list Z)) (vals : option (list float)) (nnz : Z)
    (rets : nat -> Z) (s : bridge) : bridge * Z :=
  match varIds, vals with
  | Some varIds, Some vals =>
      if (scip_instance s =? NULL) || (nnz <? 0) then (s, 0)
      else
        let cons := getConsByHandle consId s in
        if cons =? NULL then (s, 0)
        else
          add_coefs_linear rets 0 cons
            (combine (array_read varIds nnz 0) (array_read vals nnz 0%float))
            s
  | _, _ => (s, 0)
  end.

(** The loop of scip_get_var_names: [buffer] is [buffer[0 .. pos)], [i] the
    loop index, [names] the names of [vars[i ..]]. *)
Fixpoint var_names_loop (names : list string) (i : Z) (buffer : string)
    : string :=
  match names with
  | [] => buffer
  | name :: rest =>
      if Z.of_nat (String.length buffer) <? 65000 then
        let buffer := if 0 <? i then (buffer ++ ",")%string else buffer in
        var_names_loop rest (i + 1) (buffer ++ name)%string
      else buffer
  end.

(** scip_get_var_names (lines 884-910): [names] are the names of the
    variables [SCIPgetVars] lists.  The result is [None] when the loop or the
    final terminator writes past the end of [buffer[65536]], where C defines
    no behaviour. *)
Definition scip_get_var_names (names : list string) (s : bridge)
    : option string :=
  if scip_instance s =? NULL then Some ""%string
  else
    let buffer := var_names_loop names 0 "" in
    if Z.of_nat (String.length buffer) <? 65536 then Some buffer else None.

(** The counters and modes as JavaScript reads them (lines 1025-1029,
    1443-1483). *)
Definition scip_ctx_get_pricing_mode (s : bridge) : Z := current_pricing_mode s.
Definition scip_pricer_get_n_added_vars (s : bridge) : Z := priced_vars_added s.
Definition scip_pricer_get_n_added_vars_this_call (s : bridge) : Z :=
  added_vars_this_call s.
Definition scip_pricer_get_last_result (s : bridge) : Z := last_pricing_result s.
Definition scip_pricer_get_last_mode (s : bridge) : Z := last_pricing_mode s.
Definition scip_pricer_get_redcost_calls (s : bridge) : Z :=
  pricer_redcost_calls s.
Definition scip_pricer_get_farkas_calls (s : bridge) : Z :=
  pricer_farkas_calls s.
Definition scip_pricer_get_round (s : bridge) : Z := pricer_round s.

End BridgeRest.

(** ** Vocabulary of the statements *)

(** The three registries, and register / resolve on the one named. *)
Inductive registry_kind := reg_var | reg_cons | reg_row.

Definition registry_of (k : registry_kind) (s : bridge) : registry :=
  match k with
  | reg_var => var_registry s
  | reg_cons => cons_registry s
  | reg_row => row_registry s
  end.

Definition register (k : registry_kind) (realloc_ok : bool) (obj : ptr)
    (s : bridge) : bridge * Z :=
  match k with
  | reg_var => registerVarHandle realloc_ok obj s
  | reg_cons => registerConsHandle realloc_ok obj s
  | reg_row => registerRowHandle realloc_ok obj s
  end.

Definition resolve (k : registry_kind) (id : Z) (s : bridge) : ptr :=
  match k with
  | reg_var => getVarByHandle id s
  | reg_cons => getConsByHandle id s
  | reg_row => getRowByHandle id s
  end.

(** A sequence of register calls: which registry, what [realloc] would
    answer, and the object. *)
Definition register_call : Type := registry_kind * bool * ptr.

Definition run_registers (calls : list register_call) (s : bridge) : bridge :=
  fold_left (fun s '(k, ok, obj) => fst (register k ok obj s)) calls s.

(** A registry as the register function builds it: no null entry, no object
    twice. *)
Definition wf_registry (r : registry) : Prop :=
  NoDup (reg_slots r) /\ ~ In NULL (reg_slots r).

(** The storage of a registry: the entries fit, and the capacity is 0 or 64
    doubled some number of times. *)
Definition capacity_ok (r : registry) : Prop :=
  reg_size r <= reg_capacity r /\
  (reg_capacity r = 0 \/ exists k : nat, reg_capacity r = 64 * 2 ^ Z.of_nat k).

(** The same of the three registries of the bridge. *)
Definition registries_wf (s : bridge) : Prop :=
  forall k, wf_registry (registry_of k s).

(** Every registry of [s'] is the one of [s] with entries appended. *)
Definition registries_grow (s s' : bridge) : Prop :=
  forall k, exists more,
    reg_slots (registry_of k s') = reg_slots (registry_of k s) ++ more.

(** What every call of a callback body guarantees, from the globals [s]
    before it to the globals [s'] after it. *)
Record call_frame (s s' : bridge) : Prop := mkFrame {
  frame_instance : scip_instance s' = scip_instance s;
  frame_redcost_calls : pricer_redcost_calls s' = pricer_redcost_calls s;
  frame_farkas_calls : pricer_farkas_calls s' = pricer_farkas_calls s;
  frame_round : pricer_round s' = pricer_round s;
  frame_abortround :
    pending_pricer_abortround s = true -> pending_pricer_abortround s' = true;
  frame_trace :
    exists more, trace s' = trace s ++ more /\ count is_callout more = 0%nat;
  frame_wf : registries_wf s -> registries_wf s';
  frame_grow : registries_grow s s';
  frame_no_instance :
    scip_instance s = NULL -> forall k, registry_of k s' = registry_of k s
}.

(** The part of [call_frame] that concerns the handles: it also holds across
    a hook and across a solve. *)
Record handles_frame (s s' : bridge) : Prop := mkHandlesFrame {
  hf_instance : scip_instance s' = scip_instance s;
  hf_wf : registries_wf s -> registries_wf s';
  hf_grow : registries_grow s s';
  hf_no_instance :
    scip_instance s = NULL -> forall k, registry_of k s' = registry_of k s
}.

(** Without a solver instance no handle has been issued. *)
Definition no_instance_no_handles (s : bridge) : Prop :=
  scip_instance s = NULL -> forall k, registry_of k s = empty_registry.

(** The top-level calls that clear the registries. *)
Definition clears (c : api_call) : bool :=
  match c with
  | api_free _ _ | api_problem_clear _ _ | api_problem_begin _ _ _ _ _ _
  | api_reset _ _ => true
  | _ => false
  end.

(** Handle [id] names [obj] in [r]. *)
Definition names (r : registry) (id : Z) (obj : ptr) : Prop :=
  0 < id <= reg_size r /\ nth (Z.to_nat (id - 1)) (reg_slots r) NULL = obj.

(** The calls of a callback body that are abort-round, and the lower bound the
    body leaves pending: the argument of its last set-lowerbound call. *)
Definition is_abort_round (c : js_call) : bool :=
  match c with call_pricer_abort_round => true | _ => false end.

Definition aborts (body : list js_call) : nat :=
  length (filter is_abort_round body).

Fixpoint last_lowerbound (body : list js_call) : option float :=
  match body with
  | [] => None
  | c :: rest =>
      match last_lowerbound rest with
      | Some v => Some v
      | None =>
          match c with
          | call_pricer_set_lowerbound v => Some v
          | _ => None
          end
      end
  end.

(** One choice of header constants, for evaluating the definitions on
    concrete runs (the values of the SCIP 8 headers).  No theorem below
    depends on the choice. *)
Definition scip8 : ScipDefs := {|
  SCIP_OKAY := 1;
  SCIP_SUCCESS := 17;
  SCIP_DIDNOTRUN := 1;
  SCIP_INVALID := 0x1.d42aea2879f2ep+328%float;   (* (double)1e+99 *)
  SCIP_STAGE_PROBLEM := 1;
  SCIP_STAGE_SOLVING := 9;
  SCIP_STATUS_OPTIMAL := 11;
  SCIP_STATUS_INFEASIBLE := 12;
  SCIP_STATUS_UNBOUNDED := 13;
  SCIP_STATUS_TIMELIMIT := 5
|}.

(** A concrete run up to the point where a solve can start: instance
    created, problem begun, pricer included, both pricing callbacks enabled. *)
Definition ready_calls : list api_call :=
  [ api_create 1 1000 1 1 1;
    api_problem_begin (Some "p"%string) 0 0 0 1 1;
    api_pricer_include (Some "js"%string) (Some "pricer"%string) 1 2000;
    api_js (call_pricer_enable_redcost_callback 1);
    api_js (call_pricer_enable_farkas_callback 1) ].

Definition ready_bridge : bridge :=
  @run_api scip8 ready_calls (@initial_bridge scip8).

(** Output slots of a reduced-cost call as the solver hands them over. *)
Definition fresh_slots : redcost_slots :=
  mkRedcostSlots (Some 0%float) (Some false) (Some 0).

(** A callback body that injects two columns. *)
Definition two_columns : list js_call :=
  [ call_pricer_add_priced_var (Some "c1"%string) 1 501 1 true;
    call_pricer_add_priced_var (Some "c2"%string) 1 502 1 true ].

(** The run of [ready_calls] followed by the addition of one variable. *)
Definition one_variable_calls : list api_call :=
  ready_calls ++ [api_js (call_add_var (Some "x"%string) 1 500 1 true)].

(** ** Vocabulary of the further properties *)

(** Adding the variables [vars] one after the other, every answer of the
    solver and of [realloc] being favourable: the globals afterwards and the
    handles returned. *)
Fixpoint add_vars `{ScipDefs} (vars : list ptr) (s : bridge)
    : bridge * list Z :=
  match vars with
  | [] => (s, [])
  | var :: rest =>
      let '(s, id) :=
        scip_add_var (Some "x"%string) SCIP_OKAY var SCIP_OKAY true s in
      let '(s, ids) := add_vars rest s in
      (s, id :: ids)
  end.

(** The handles 1, 2, ..., n. *)
Definition first_handles (n : nat) : list Z := map Z.of_nat (seq 1 n).

(** The calls of the external routine by what they may assign to, besides
    the trace: only registries; the abort mark and the pending outputs
    (column-coefficient injection, abort-round); one output or flag. *)
Definition registers_only (c : js_call) : bool :=
  match c with
  | call_add_cons_linear _ _ _ _ _ | call_add_var _ _ _ _ _
  | call_var_find_id _ _ _ | call_cons_find_id _ _ _
  | call_var_get_transformed _ _ _ _ _ _
  | call_cons_get_transformed _ _ _ _ _ _
  | call_cons_get_row _ _ _ | call_cons_is_in_lp _ _ _ _
  | call_ctx_get_lp_row_duals_batch _ _ _ _ _ _
  | call_ctx_get_lp_row_farkas_batch _ _ _ _ _ _ => true
  | _ => false
  end.

Definition marks_round (c : js_call) : bool :=
  match c with
  | call_pricer_add_var_to_rows_batch _ _ _ _ _
  | call_pricer_add_var_to_conss_batch _ _ _ _ _
  | call_pricer_add_priced_var _ _ _ _ _
  | call_pricer_abort_round => true
  | _ => false
  end.

(** A call that injects a column, the solver accepting it. *)
Definition adds_column `{ScipDefs} (c : js_call) : bool :=
  match c with
  | call_pricer_add_priced_var name ret var ret_add _ =>
      negb (is_null name) && (ret =? SCIP_OKAY) && negb (var =? NULL)
      && (ret_add =? SCIP_OKAY)
  | _ => false
  end.

Definition columns_added `{ScipDefs} (body : list js_call) : Z :=
  Z.of_nat (length (filter adds_column body)).

(** The result and the stop-early flag a body of setter calls leaves
    pending: the argument of its last set-result (set-stopearly) call. *)
Fixpoint last_result (body : list js_call) : option Z :=
  match body with
  | [] => None
  | c :: rest =>
      match last_result rest with
      | Some r => Some r
      | None =>
          match c with
          | call_pricer_set_result r => Some r
          | _ => None
          end
      end
  end.

Fixpoint last_stopearly (body : list js_call) : option bool :=
  match body with
  | [] => None
  | c :: rest =>
      match last_stopearly rest with
      | Some b => Some b
      | None =>
          match c with
          | call_pricer_set_stopearly v => Some (negb (v =? 0))
          | _ => None
          end
      end
  end.

(** A call that does not mark the round as aborted, whatever the state of
    the registries: anything but column injection and abort-round, or a
    column the solver accepts. *)
Definition keeps_round `{ScipDefs} (c : js_call) : bool :=
  negb (marks_round c) || adds_column c.

(** A default for an optional setting. *)
Definition or_default {A : Type} (o : option A) (d : A) : A :=
  match o with Some v => v | None => d end.

(** From [s] to [s'] the bridge called out exactly once, with [e], before
    anything else crossed the boundary. *)
Definition calls_out_once (e : event) (s s' : bridge) : Prop :=
  exists more,
    trace s' = trace s ++ e :: more /\ count is_callout more = 0%nat.

(** The globals [s] once the requests [es] have been sent to the solver. *)
Definition sends (es : list event) (s : bridge) : bridge :=
  set_trace (trace s ++ es) s.

(** What a column-coefficient batch does when the solver refuses a
    coefficient. *)
Definition refused `{ScipDefs} (s : bridge) : bridge :=
  s |> mark_abortround
    |> set_pending_pricer_stopearly true
    |> emit SCIPinterruptSolve.

(** The request for one entry (handle, value) of a coefficient batch for the
    column [var]: to a row, to a constraint. *)
Definition row_request (var : ptr) (s : bridge) (e : Z * float) : event :=
  SCIPaddVarToRow (getRowByHandle (fst e) s) var (snd e).

Definition cons_request (var : ptr) (s : bridge) (e : Z * float) : event :=
  SCIPaddCoefLinear (getConsByHandle (fst e) s) var (snd e).

(** The request for one entry (variable handle, value) of a coefficient
    batch for the constraint [cons]. *)
Definition coef_request (cons : ptr) (s : bridge) (e : Z * float) : event :=
  SCIPaddCoefLinear cons (getVarByHandle (fst e) s) (snd e).

(** The entries of a batch passed to scip_add_coef_linear one after the
    other, up to the first call that returns 0; [rets k] answers the [k]-th
    request. *)
Fixpoint add_coefs_one_by_one `{ScipDefs} (consId : Z) (rets : nat -> Z)
    (i : nat) (entries : list (Z * float)) (s : bridge) : bridge * Z :=
  match entries with
  | [] => (s, 1)
  | (varId, val) :: rest =>
      let '(s1, r) := scip_add_coef_linear consId varId val (rets i) s in
      if r =? 0 then (s1, 0)
      else add_coefs_one_by_one consId rets (S i) rest s1
  end.

(** The globals [s'] are the static initialisers again, except for the
    solver instance, the two notification flags (which are those of [s]) and
    what has been sent to the solver. *)
Definition restarted `{ScipDefs} (s s' : bridge) : Prop :=
  s' = (initial_bridge
          |> set_scip_instance (scip_instance s')
          |> set_js_incumbent_callback (js_incumbent_callback s)
          |> set_js_node_callback (js_node_callback s)
          |> set_trace (trace s')).

(** The requests that tear a problem down. *)
Definition is_teardown (e : event) : bool :=
  match e with SCIPfreeTransform | SCIPfreeProb => true | _ => false end.

(** The name scip_problem_begin gives the problem. *)
Definition problem_name (name : option string) : string :=
  match name with
  | Some (String c rest) => String c rest
  | _ => "js_problem"%string
  end.

(** The pricing hooks of a run of the solver, by kind. *)
Definition is_redcost_hook (h : solver_hook) : bool :=
  match h with hook_redcost _ _ => true | _ => false end.

Definition is_farkas_hook (h : solver_hook) : bool :=
  match h with hook_farkas _ _ _ => true | _ => false end.

Definition redcost_hooks (hooks : list solver_hook) : Z :=
  Z.of_nat (length (filter is_redcost_hook hooks)).

Definition farkas_hooks (hooks : list solver_hook) : Z :=
  Z.of_nat (length (filter is_farkas_hook hooks)).



(** What a function that returns a handle for [obj] in registry [k] may
    yield: -1, or a positive handle that resolves to [obj] in the globals it
    leaves. *)
Definition issued (k : registry_kind) (obj : ptr) (run : bridge * Z) : Prop :=
  snd run = -1 \/
  (0 < snd run /\ obj <> NULL /\ resolve k (snd run) (fst run) = obj).

(** A run that builds a small model: one variable (handle 1), one
    constraint (handle 1) and the row of that constraint (handle 1). *)
Definition model_calls : list api_call :=
  ready_calls
  ++ [ api_js (call_add_var (Some "x"%string) 1 500 1 true);
       api_js (call_add_cons_linear (Some "c"%string) 1 600 1 true);
       api_js (call_cons_get_row 1 700 true) ].

Definition model_bridge : bridge :=
  @run_api scip8 model_calls (@initial_bridge scip8).

(** A run with one solve in which the solver prices twice. *)
Definition solved_calls : list api_call :=
  ready_calls
  ++ [ api_solve
         [ hook_redcost (Some two_columns) fresh_slots;
           hook_farkas true (Some []) (Some 0) ] 1 11 ].

Definition solved_bridge : bridge :=
  @run_api scip8 solved_calls (@initial_bridge scip8).

(** A callback body that sets its outputs around the injection of a
    column. *)
Definition setting_body : list js_call :=
  [ call_pricer_set_result 5;
    call_pricer_add_priced_var (Some "c1"%string) 1 501 1 true;
    call_pricer_set_stopearly 1;
    call_pricer_set_result 7 ].

(** [s] doubled [n] times: a text of [2 ^ n] times the length of [s]. *)
Fixpoint doubled (n : nat) (s : string) : string :=
  match n with
  | O => s
  | S n' => doubled n' (s ++ s)
  end.

(** A name of 65536 bytes. *)
Definition long_name : string := doubled 16 "a".


(** A value of C's [int]. *)
Definition is_int (z : Z) : Prop := int_min <= z <= int_max.

(** The top-level calls other than the four resets and scip_solve. *)
Definition is_solve (c : api_call) : bool :=
  match c with api_solve _ _ _ => true | _ => false end.

Definition no_reset_no_solve (c : api_call) : bool :=
  negb (clears c) && negb (is_solve c).

(** The state of the counters shortly before they wrap. *)
Definition at_int_max (s : bridge) : bridge :=
  s |> set_pricer_redcost_calls int_max |> set_pricer_round int_max.

(** The three round counters are C [int]s, and the round counter is the sum
    of the other two in 32-bit arithmetic. *)
Definition counters_agree (s : bridge) : Prop :=
  is_int (pricer_redcost_calls s) /\
  is_int (pricer_farkas_calls s) /\
  is_int (pricer_round s) /\
  pricer_round s = int_wrap (pricer_redcost_calls s + pricer_farkas_calls s).

(** * Properties *)

(** ** The handle registry *)

Lemma scan_registry_found slots obj i j :
  scan_registry slots obj i = Some j ->
  i <= j < i + Z.of_nat (length slots) /\
  nth (Z.to_nat (j - i)) slots NULL = obj.
Proof.
  revert i. induction slots as [|x rest IH]; simpl; intros i Hs; [discriminate|].
  destruct (x =? obj) eqn:E.
  - inversion Hs; subst. apply Z.eqb_eq in E. rewrite Z.sub_diag. simpl.
    split; [lia | exact E].
  - apply IH in Hs. destruct Hs as [Hb Hn]. split; [lia|].
    replace (Z.to_nat (j - i)) with (S (Z.to_nat (j - (i + 1)))) by lia.
    exact Hn.
Qed.

Lemma scan_registry_missing slots obj i :
  scan_registry slots obj i = None <-> ~ In obj slots.
Proof.
  revert i. induction slots as [|x rest IH]; simpl; intros i.
  - tauto.
  - destruct (x =? obj) eqn:E.
    + apply Z.eqb_eq in E. split; [discriminate | intros Hn; exfalso; auto].
    + apply Z.eqb_neq in E. rewrite IH. tauto.
Qed.

(** With no object twice, the scan stops exactly at the slot of the object. *)
Lemma scan_registry_slot slots i k :
  NoDup slots -> (k < length slots)%nat ->
  scan_registry slots (nth k slots NULL) i = Some (i + Z.of_nat k).
Proof.
  revert i k. induction slots as [|x rest IH]; simpl; intros i k Hnd Hk; [lia|].
  inversion Hnd as [|? ? Hx Hrest]; subst.
  destruct k as [|k].
  - rewrite Z.eqb_refl. f_equal. lia.
  - destruct (x =? nth k rest NULL) eqn:E.
    + apply Z.eqb_eq in E. exfalso. apply Hx. rewrite E. apply nth_In. lia.
    + rewrite IH by (auto; lia). f_equal. lia.
Qed.

(** The three ways a registration ends: refused (null object, or the registry
    is full and cannot grow), found by the scan, or appended. *)
Lemma registerHandle_cases ok obj r :
  let r' := fst (registerHandle ok obj r) in
  let id := snd (registerHandle ok obj r) in
  (id = -1 /\ r' = r /\
   (obj = NULL \/ (~ In obj (reg_slots r) /\ ok = false))) \/
  (obj <> NULL /\ r' = r /\ names r id obj) \/
  (obj <> NULL /\ ~ In obj (reg_slots r) /\ id = reg_size r + 1 /\
   reg_slots r' = reg_slots r ++ [obj]).
Proof.
  unfold registerHandle.
  destruct (obj =? NULL) eqn:En.
  { apply Z.eqb_eq in En. left. simpl. auto. }
  apply Z.eqb_neq in En.
  destruct (scan_registry (reg_slots r) obj 0) as [i|] eqn:Es.
  - right; left. apply scan_registry_found in Es. destruct Es as [Hb Hn].
    simpl. split; [exact En|]. split; [reflexivity|].
    unfold names, reg_size. split; [lia|].
    replace (i + 1 - 1) with (i - 0) by lia. exact Hn.
  - apply scan_registry_missing in Es.
    unfold ensureRegistryCapacity.
    destruct (reg_size r + 1 <=? reg_capacity r); simpl.
    + right; right. unfold reg_size; simpl. rewrite length_app; simpl.
      repeat split; auto; lia.
    + destruct ok; simpl.
      * right; right. unfold reg_size; simpl. rewrite length_app; simpl.
        repeat split; auto; lia.
      * left. auto.
Qed.

Lemma names_resolves r id obj : names r id obj -> getByHandle id r = obj.
Proof.
  intros [Hb Hn]. unfold getByHandle.
  destruct (id <=? 0) eqn:E1; [lia|].
  destruct (id >? reg_size r) eqn:E2; [lia|]. exact Hn.
Qed.

Lemma names_In r id obj : names r id obj -> In obj (reg_slots r).
Proof.
  intros [Hb Hn]. rewrite <- Hn. apply nth_In. unfold reg_size in Hb. lia.
Qed.

(** Appending to a registry keeps what its handles name. *)
Lemma names_grow r r' more id obj :
  reg_slots r' = reg_slots r ++ more -> names r id obj -> names r' id obj.
Proof.
  intros Hs [Hb Hn]. unfold names, reg_size in *. rewrite Hs, length_app.
  split; [lia|]. rewrite app_nth1 by lia. exact Hn.
Qed.

Lemma registerHandle_grows ok obj r :
  exists more,
    reg_slots (fst (registerHandle ok obj r)) = reg_slots r ++ more.
Proof.
  destruct (registerHandle_cases ok obj r) as [(_ & E & _)|[(_ & E & _)|(_ & _ & _ & E)]].
  - exists []. rewrite E, app_nil_r. reflexivity.
  - exists []. rewrite E, app_nil_r. reflexivity.
  - exists [obj]. exact E.
Qed.

Lemma registerHandle_wf ok obj r :
  wf_registry r -> wf_registry (fst (registerHandle ok obj r)).
Proof.
  intros [Hnd Hnull].
  destruct (registerHandle_cases ok obj r) as [(_ & E & _)|[(_ & E & _)|(Hn & Hin & _ & E)]].
  - rewrite E. split; assumption.
  - rewrite E. split; assumption.
  - unfold wf_registry. rewrite E. split.
    + apply NoDup_app; [assumption | repeat constructor; auto |].
      intros x Hx [Hy|[]]. subst. auto.
    + rewrite in_app_iff. simpl. intros [Hx|[Hx|[]]]; auto.
Qed.

(** A positive return value is a handle that names the object. *)
Lemma registerHandle_names ok obj r :
  0 < snd (registerHandle ok obj r) ->
  names (fst (registerHandle ok obj r)) (snd (registerHandle ok obj r)) obj.
Proof.
  intros Hpos.
  destruct (registerHandle_cases ok obj r) as [(E & _)|[(_ & E & Hn)|(_ & _ & Eid & E)]].
  - lia.
  - rewrite E. exact Hn.
  - unfold names, reg_size. rewrite Eid, E, length_app. simpl.
    unfold reg_size. split; [lia|].
    rewrite app_nth2 by lia.
    replace (Z.to_nat (Z.of_nat (length (reg_slots r)) + 1 - 1) - length (reg_slots r))%nat
      with 0%nat by lia.
    reflexivity.
Qed.

(** Registering again what a handle names: the scan returns that handle and
    the registry is left as it is, whatever [realloc] would do. *)
Lemma registerHandle_again ok obj r id :
  wf_registry r -> names r id obj -> registerHandle ok obj r = (r, id).
Proof.
  intros [Hnd Hnull] Hn. pose proof (names_In _ _ _ Hn) as Hin.
  destruct Hn as [Hb Hnth]. unfold registerHandle.
  destruct (obj =? NULL) eqn:En.
  { apply Z.eqb_eq in En. subst obj. rewrite En in Hin. contradiction. }
  unfold reg_size in Hb.
  rewrite <- Hnth at 1.
  rewrite scan_registry_slot by (auto; lia).
  f_equal. lia.
Qed.

(** Another object never gets that handle. *)
Lemma registerHandle_other ok obj obj' r id :
  names r id obj -> obj' <> obj -> snd (registerHandle ok obj' r) <> id.
Proof.
  intros [Hb Hnth] Hne.
  destruct (registerHandle_cases ok obj' r) as [(E & _)|[(_ & _ & Hn)|(_ & _ & Eid & _)]].
  - lia.
  - destruct Hn as [_ Hnth']. intros Heq. rewrite Heq in Hnth'. congruence.
  - lia.
Qed.


(** *** Storage

    The fuel of [grow_capacity] never runs out: the loop leaves with a
    capacity that holds the needed entries, reached by doubling. *)

Lemma grow_capacity_enough fuel c needed :
  0 < c -> needed - c <= Z.of_nat fuel ->
  needed <= grow_capacity fuel c needed.
Proof.
  revert c. induction fuel as [|fuel IH]; simpl grow_capacity; intros c Hc Hf.
  - lia.
  - destruct (c <? needed) eqn:E.
    + apply Z.ltb_lt in E. apply IH; lia.
    + apply Z.ltb_ge in E. exact E.
Qed.

Lemma grow_capacity_doubles fuel c needed :
  exists k : nat, grow_capacity fuel c needed = c * 2 ^ Z.of_nat k.
Proof.
  revert c. induction fuel as [|fuel IH]; simpl grow_capacity; intros c.
  - exists 0%nat. simpl. lia.
  - destruct (c <? needed).
    + destruct (IH (c * 2)) as [k E]. exists (S k). rewrite E.
      rewrite Nat2Z.inj_succ, Z.pow_succ_r by lia. lia.
    + exists 0%nat. simpl. lia.
Qed.

Lemma registerHandle_capacity ok obj r :
  capacity_ok r -> capacity_ok (fst (registerHandle ok obj r)).
Proof.
  intros [Hfit Hcap]. unfold registerHandle.
  destruct (obj =? NULL); [split; assumption|].
  destruct (scan_registry (reg_slots r) obj 0); [split; assumption|].
  unfold ensureRegistryCapacity.
  destruct (reg_size r + 1 <=? reg_capacity r) eqn:E; simpl.
  - apply Z.leb_le in E. unfold capacity_ok, reg_size in *. simpl.
    rewrite length_app. simpl. split; [lia | exact Hcap].
  - destruct ok; simpl; [|split; assumption].
    set (c := if reg_capacity r =? 0 then 64 else reg_capacity r).
    assert (Hc : 0 < c /\ exists k : nat, c = 64 * 2 ^ Z.of_nat k).
    { unfold c. destruct (reg_capacity r =? 0) eqn:E0.
      - split; [lia|]. exists 0%nat. reflexivity.
      - apply Z.eqb_neq in E0. destruct Hcap as [Hz|[k Hk]]; [contradiction|].
        split; [|exists k; exact Hk]. rewrite Hk.
        pose proof (Z.pow_pos_nonneg 2 (Z.of_nat k)). lia. }
    destruct Hc as [Hpos [k Hk]]. clearbody c.
    unfold capacity_ok, reg_size in *. cbn [fst reg_slots reg_capacity].
    rewrite length_app. cbn [length]. split.
    + assert (G : Z.of_nat (length (reg_slots r)) + 1
                  <= grow_capacity
                       (Z.to_nat (Z.of_nat (length (reg_slots r)) + 1)) c
                       (Z.of_nat (length (reg_slots r)) + 1))
        by (apply grow_capacity_enough; lia).
      rewrite Nat2Z.inj_add. exact G.
    + right.
      destruct (grow_capacity_doubles
                  (Z.to_nat (Z.of_nat (length (reg_slots r)) + 1)) c
                  (Z.of_nat (length (reg_slots r)) + 1)) as [j Ej].
      exists (k + j)%nat. rewrite Ej, Hk, Nat2Z.inj_add, Z.pow_add_r by lia.
      ring.
Qed.

(** *** The three registries of the bridge *)

Lemma registries_grow_refl s : registries_grow s s.
Proof. intros k. exists []. rewrite app_nil_r. reflexivity. Qed.

Lemma registries_grow_trans s1 s2 s3 :
  registries_grow s1 s2 -> registries_grow s2 s3 -> registries_grow s1 s3.
Proof.
  intros H12 H23 k. destruct (H12 k) as [m1 E1]. destruct (H23 k) as [m2 E2].
  exists (m1 ++ m2). rewrite E2, E1, app_assoc. reflexivity.
Qed.

Lemma resolve_registry_of k id s :
  resolve k id s = getByHandle id (registry_of k s).
Proof. destruct k; reflexivity. Qed.

Lemma register_snd k ok obj s :
  snd (register k ok obj s) = snd (registerHandle ok obj (registry_of k s)).
Proof.
  destruct k; simpl;
    [unfold registerVarHandle | unfold registerConsHandle
     | unfold registerRowHandle];
    destruct (registerHandle ok obj _); reflexivity.
Qed.

Lemma register_same k ok obj s :
  registry_of k (fst (register k ok obj s))
  = fst (registerHandle ok obj (registry_of k s)).
Proof.
  destruct k; simpl;
    [unfold registerVarHandle | unfold registerConsHandle
     | unfold registerRowHandle];
    destruct (registerHandle ok obj _); reflexivity.
Qed.

Lemma register_others k k' ok obj s :
  k <> k' -> registry_of k' (fst (register k ok obj s)) = registry_of k' s.
Proof.
  intros Hk.
  destruct k, k'; try congruence; simpl;
    [unfold registerVarHandle | unfold registerVarHandle
     | unfold registerConsHandle | unfold registerConsHandle
     | unfold registerRowHandle | unfold registerRowHandle];
    destruct (registerHandle ok obj _); reflexivity.
Qed.

Lemma registry_kind_eq_dec (k k' : registry_kind) : {k = k'} + {k <> k'}.
Proof. decide equality. Qed.

(** A registration that changes no registry changes no global. *)
Lemma register_unchanged k ok obj s :
  fst (registerHandle ok obj (registry_of k s)) = registry_of k s ->
  fst (register k ok obj s) = s.
Proof.
  destruct s; destruct k; simpl;
    [unfold registerVarHandle | unfold registerConsHandle
     | unfold registerRowHandle]; simpl;
    destruct (registerHandle ok obj _); simpl; intros ->; reflexivity.
Qed.

Lemma register_wf k ok obj s :
  registries_wf s -> registries_wf (fst (register k ok obj s)).
Proof.
  intros Hwf k'. destruct (registry_kind_eq_dec k k') as [<-|Hk].
  - rewrite register_same. apply registerHandle_wf, Hwf.
  - rewrite register_others by assumption. apply Hwf.
Qed.

Lemma register_grows k ok obj s :
  registries_grow s (fst (register k ok obj s)).
Proof.
  intros k'. destruct (registry_kind_eq_dec k k') as [<-|Hk].
  - rewrite register_same. apply registerHandle_grows.
  - rewrite register_others by assumption. exists [].
    rewrite app_nil_r. reflexivity.
Qed.

Lemma run_registers_wf calls s :
  registries_wf s -> registries_wf (run_registers calls s).
Proof.
  revert s. induction calls as [|[[k ok] obj] rest IH]; simpl; intros s Hwf.
  - exact Hwf.
  - apply IH, register_wf, Hwf.
Qed.

Lemma run_registers_grows calls s :
  registries_grow s (run_registers calls s).
Proof.
  revert s. induction calls as [|[[k ok] obj] rest IH]; simpl; intros s.
  - apply registries_grow_refl.
  - eapply registries_grow_trans; [apply register_grows | apply IH].
Qed.

Lemma clearRegistries_wf s : registries_wf (clearRegistries s).
Proof.
  intros k; destruct k; simpl; split; simpl; (constructor || tauto).
Qed.

(** C1.  Start from cleared registries and make any sequence of register
    calls (on any of the three registries, repeats and failed growth
    included), then register [obj].  The call returns a handle [h], a
    positive number, or else -1 with nothing changed, and -1 only for a null
    object or when [realloc] refuses.  When it returns a handle: resolving
    [h] yields [obj]; after any further sequence of register calls [h] still
    resolves to [obj]; registering [obj] again returns [h] and changes
    nothing; and no other object is ever given [h]. *)
Theorem register_then_resolve (s : bridge) (before after : list register_call)
    (k : registry_kind) (ok : bool) (obj : ptr) :
  let s0 := run_registers before (clearRegistries s) in
  let s1 := fst (register k ok obj s0) in
  let h := snd (register k ok obj s0) in
  let s2 := run_registers after s1 in
  (0 < h \/ (h = -1 /\ s1 = s0 /\ (obj = NULL \/ ok = false))) /\
  (0 < h ->
   resolve k h s1 = obj /\
   resolve k h s2 = obj /\
   (forall ok', register k ok' obj s2 = (s2, h)) /\
   (forall ok' obj', obj' <> obj -> snd (register k ok' obj' s2) <> h)).
Proof.
  intros s0 s1 h s2. split.
  { unfold s1, h. rewrite register_snd.
    destruct (registerHandle_cases ok obj (registry_of k s0))
      as [(E & Er & Hwhy)|[(_ & _ & Hb & _)|(_ & _ & Eid & _)]].
    - right. split; [exact E|]. split; [apply register_unchanged, Er|].
      destruct Hwhy as [Hn|[_ Hok]]; auto.
    - left. lia.
    - left. unfold reg_size in Eid. lia. }
  intros Hpos.
  assert (Hwf0 : registries_wf s0)
    by apply run_registers_wf, clearRegistries_wf.
  assert (Hwf2 : registries_wf s2)
    by apply run_registers_wf, register_wf, Hwf0.
  assert (Hn1 : names (registry_of k s1) h obj).
  { unfold s1, h in *. rewrite register_same. rewrite register_snd in *.
    apply registerHandle_names. exact Hpos. }
  assert (Hn2 : names (registry_of k s2) h obj).
  { destruct (run_registers_grows after s1 k) as [more E].
    eapply names_grow; eauto. }
  split; [rewrite resolve_registry_of; apply names_resolves; exact Hn1|].
  split; [rewrite resolve_registry_of; apply names_resolves; exact Hn2|].
  split.
  - intros ok'.
    pose proof (registerHandle_again ok' obj _ h (Hwf2 k) Hn2) as E.
    rewrite (surjective_pairing (register k ok' obj s2)).
    rewrite register_snd, E. simpl. f_equal.
    apply register_unchanged. rewrite E. reflexivity.
  - intros ok' obj' Hne. rewrite register_snd.
    eapply registerHandle_other; eauto.
Qed.

Lemma register_then_resolve_witness :
  let calls := [(reg_var, true, 100); (reg_row, false, 7); (reg_var, true, 200)] in
  let s0 := run_registers calls (clearRegistries (@initial_bridge scip8)) in
  snd (register reg_var true 300 s0) = 3 /\
  resolve reg_var 3
    (run_registers [(reg_var, false, 400); (reg_var, true, 100)]
       (fst (register reg_var true 300 s0))) = 300.
Proof.
  split; [reflexivity|].
  apply (proj2 (register_then_resolve (@initial_bridge scip8)
           [(reg_var, true, 100); (reg_row, false, 7); (reg_var, true, 200)]
           [(reg_var, false, 400); (reg_var, true, 100)]
           reg_var true 300)).
  reflexivity.
Defined.

(** ** Calls made by the external routine *)

Lemma count_app p (t u : list event) :
  count p (t ++ u) = (count p t + count p u)%nat.
Proof. unfold count. rewrite filter_app, length_app. reflexivity. Qed.

Lemma call_frame_refl s : call_frame s s.
Proof.
  constructor; auto.
  - exists []. rewrite app_nil_r. split; reflexivity.
  - apply registries_grow_refl.
Qed.

Lemma call_frame_trans s1 s2 s3 :
  call_frame s1 s2 -> call_frame s2 s3 -> call_frame s1 s3.
Proof.
  intros [i1 a1 b1 c1 d1 (m1 & t1 & n1) w1 g1 z1]
         [i2 a2 b2 c2 d2 (m2 & t2 & n2) w2 g2 z2].
  constructor; try congruence; auto.
  - exists (m1 ++ m2). rewrite t2, t1, app_assoc, count_app, n1, n2.
    split; reflexivity.
  - eapply registries_grow_trans; eauto.
  - intros Hn k. rewrite z2 by congruence. apply z1, Hn.
Qed.

(** Assignments to globals other than the registries, and requests to the
    solver. *)
Ltac frame_goal :=
  lazymatch goal with
  | |- registries_wf _ -> registries_wf _ =>
      let k := fresh "k" in let W := fresh "W" in
      intros W k; specialize (W k); destruct k; exact W
  | |- registries_grow _ _ =>
      let k := fresh "k" in
      intros k; exists []; rewrite app_nil_r; destruct k; reflexivity
  | |- _ -> forall k, registry_of k _ = registry_of k _ =>
      let k := fresh "k" in intros _ k; destruct k; reflexivity
  | |- exists more, _ =>
      simpl;
      first [ exists []; rewrite app_nil_r; split; reflexivity
            | eexists; split;
              [rewrite <- ?app_assoc; reflexivity | reflexivity] ]
  | |- _ = true -> _ = true => simpl; solve [auto]
  | |- _ = _ => reflexivity
  end.

Ltac frame_simple := constructor; frame_goal.

Lemma call_frame_register k ok obj s :
  scip_instance s <> NULL -> call_frame s (fst (register k ok obj s)).
Proof.
  intros Hi.
  constructor;
    try (destruct k; simpl;
         [unfold registerVarHandle | unfold registerConsHandle
         | unfold registerRowHandle];
         destruct (registerHandle ok obj _); simpl; solve [auto]).
  - exists []. rewrite app_nil_r. split; [|reflexivity].
    destruct k; simpl;
      [unfold registerVarHandle | unfold registerConsHandle
      | unfold registerRowHandle];
      destruct (registerHandle ok obj _); reflexivity.
  - apply register_wf.
  - apply register_grows.
  - contradiction.
Qed.

Lemma call_frame_emit e s : is_callout e = false -> call_frame s (emit e s).
Proof.
  intros He. constructor; try frame_goal.
  exists [e]. split; [reflexivity|]. unfold count. simpl. rewrite He.
  reflexivity.
Qed.

Lemma mark_abortround_frame `{ScipDefs} s : call_frame s (mark_abortround s).
Proof. unfold mark_abortround. frame_simple. Qed.

(** Splits on the condition of the first conditional of the goal. *)
Ltac split_if :=
  match goal with
  | |- context [if ?b then _ else _] =>
      let E := fresh "E" in destruct b eqn:E
  end.

Ltac instance_not_null :=
  repeat match goal with
  | E : _ || _ = false |- _ =>
      let E1 := fresh E in let E2 := fresh E in
      apply orb_false_elim in E; destruct E as [E1 E2]
  end;
  match goal with
  | E : (scip_instance ?s =? NULL) = false |- _ => apply Z.eqb_neq in E
  end.

Lemma registerVarHandle_frame ok var s :
  scip_instance s <> NULL -> call_frame s (fst (registerVarHandle ok var s)).
Proof. apply (call_frame_register reg_var). Qed.

Lemma registerConsHandle_frame ok cns s :
  scip_instance s <> NULL -> call_frame s (fst (registerConsHandle ok cns s)).
Proof. apply (call_frame_register reg_cons). Qed.

Lemma registerRowHandle_frame ok row s :
  scip_instance s <> NULL -> call_frame s (fst (registerRowHandle ok row s)).
Proof. apply (call_frame_register reg_row). Qed.

Section CallFrames.
Context `{ScipDefs}.

Lemma scip_add_cons_linear_frame name ret cns ret_add ok s :
  call_frame s (fst (scip_add_cons_linear name ret cns ret_add ok s)).
Proof.
  unfold scip_add_cons_linear.
  split_if; [apply call_frame_refl|]. instance_not_null.
  split_if; [apply call_frame_refl|].
  split_if; simpl; [frame_simple|].
  destruct (registerConsHandle ok cns (emit (SCIPaddCons cns) s)) as [s1 id] eqn:R.
  simpl. apply call_frame_trans with (emit (SCIPaddCons cns) s);
    [frame_simple|].
  apply call_frame_trans with s1; [|frame_simple].
  replace s1 with (fst (registerConsHandle ok cns (emit (SCIPaddCons cns) s)))
    by (rewrite R; reflexivity).
  apply registerConsHandle_frame. assumption.
Qed.

Lemma scip_add_var_frame name ret var ret_add ok s :
  call_frame s (fst (scip_add_var name ret var ret_add ok s)).
Proof.
  unfold scip_add_var.
  split_if; [apply call_frame_refl|]. instance_not_null.
  split_if; [apply call_frame_refl|].
  split_if; simpl; [frame_simple|].
  destruct (registerVarHandle ok var (emit (SCIPaddVar var) s)) as [s1 id] eqn:R.
  simpl. apply call_frame_trans with (emit (SCIPaddVar var) s);
    [frame_simple|].
  apply call_frame_trans with s1; [|frame_simple].
  replace s1 with (fst (registerVarHandle ok var (emit (SCIPaddVar var) s)))
    by (rewrite R; reflexivity).
  apply registerVarHandle_frame. assumption.
Qed.

Lemma scip_var_find_id_frame name var ok s :
  call_frame s (fst (scip_var_find_id name var ok s)).
Proof.
  unfold scip_var_find_id.
  split_if; [apply call_frame_refl|]. instance_not_null.
  apply registerVarHandle_frame. assumption.
Qed.

Lemma scip_cons_find_id_frame name cns ok s :
  call_frame s (fst (scip_cons_find_id name cns ok s)).
Proof.
  unfold scip_cons_find_id.
  split_if; [apply call_frame_refl|]. instance_not_null.
  apply registerConsHandle_frame. assumption.
Qed.

Lemma scip_var_get_transformed_frame varId tr vtr ret transvar ok s :
  call_frame s
    (fst (scip_var_get_transformed varId tr vtr ret transvar ok s)).
Proof.
  unfold scip_var_get_transformed.
  split_if; [apply call_frame_refl|]. instance_not_null.
  repeat (split_if; [apply call_frame_refl|]).
  apply registerVarHandle_frame. assumption.
Qed.

Lemma scip_cons_get_transformed_frame consId tr ctr ret transcons ok s :
  call_frame s
    (fst (scip_cons_get_transformed consId tr ctr ret transcons ok s)).
Proof.
  unfold scip_cons_get_transformed.
  split_if; [apply call_frame_refl|]. instance_not_null.
  repeat (split_if; [apply call_frame_refl|]).
  apply registerConsHandle_frame. assumption.
Qed.

Lemma scip_cons_get_row_frame consId row ok s :
  call_frame s (fst (scip_cons_get_row consId row ok s)).
Proof.
  unfold scip_cons_get_row.
  split_if; [apply call_frame_refl|]. instance_not_null.
  repeat (split_if; [apply call_frame_refl|]).
  apply registerRowHandle_frame. assumption.
Qed.

Lemma scip_cons_is_in_lp_frame consId row ok in_lp s :
  call_frame s (fst (scip_cons_is_in_lp consId row ok in_lp s)).
Proof.
  unfold scip_cons_is_in_lp.
  pose proof (scip_cons_get_row_frame consId row ok s) as F.
  destruct (scip_cons_get_row consId row ok s) as [s1 rowId].
  repeat split_if; exact F.
Qed.

Lemma register_lp_rows_frame rows s :
  scip_instance s <> NULL -> call_frame s (fst (register_lp_rows rows s)).
Proof.
  revert s. induction rows as [|[[row value] ok] rest IH]; simpl; intros s Hi.
  - apply call_frame_refl.
  - pose proof (registerRowHandle_frame ok row s Hi) as F.
    assert (Hi1 : scip_instance (fst (registerRowHandle ok row s)) <> NULL)
      by (rewrite (frame_instance _ _ F); exact Hi).
    specialize (IH _ Hi1).
    destruct (register_lp_rows rest (fst (registerRowHandle ok row s))).
    simpl in *. eapply call_frame_trans; eauto.
Qed.

Lemma lp_row_values_batch_frame out n stage constructed nlprows rows s :
  call_frame s
    (fst (fst (lp_row_values_batch out n stage constructed nlprows rows s))).
Proof.
  unfold lp_row_values_batch.
  split_if; [apply call_frame_refl|]. instance_not_null.
  split_if; [apply call_frame_refl|].
  match goal with
  | |- context [register_lp_rows ?l s] =>
      pose proof (register_lp_rows_frame l s ltac:(assumption)) as F;
      destruct (register_lp_rows l s)
  end.
  exact F.
Qed.

Lemma add_var_to_rows_frame rets i var entries s :
  call_frame s (fst (add_var_to_rows rets i var entries s)).
Proof.
  revert i s. induction entries as [|[rowId val] rest IH]; simpl; intros i s.
  - apply call_frame_refl.
  - split_if; simpl.
    + unfold mark_abortround. frame_simple.
    + eapply call_frame_trans; [|apply IH]. frame_simple.
Qed.

Lemma add_var_to_conss_frame rets i var entries s :
  call_frame s (fst (add_var_to_conss rets i var entries s)).
Proof.
  revert i s. induction entries as [|[consId val] rest IH]; simpl; intros i s.
  - apply call_frame_refl.
  - split_if; simpl.
    + unfold mark_abortround. frame_simple.
    + eapply call_frame_trans; [|apply IH]. frame_simple.
Qed.

Lemma scip_pricer_add_var_to_rows_batch_frame varId rowIds vals nnz rets s :
  call_frame s
    (fst (scip_pricer_add_var_to_rows_batch varId rowIds vals nnz rets s)).
Proof.
  unfold scip_pricer_add_var_to_rows_batch.
  destruct rowIds, vals; simpl; try apply mark_abortround_frame.
  repeat (split_if; simpl; [apply mark_abortround_frame|]).
  apply add_var_to_rows_frame.
Qed.

Lemma scip_pricer_add_var_to_conss_batch_frame varId consIds vals nnz rets s :
  call_frame s
    (fst (scip_pricer_add_var_to_conss_batch varId consIds vals nnz rets s)).
Proof.
  unfold scip_pricer_add_var_to_conss_batch.
  destruct consIds, vals; simpl; try apply mark_abortround_frame.
  repeat (split_if; simpl; [apply mark_abortround_frame|]).
  apply add_var_to_conss_frame.
Qed.

Lemma scip_pricer_add_priced_var_frame name ret var ret_add ok s :
  call_frame s (fst (scip_pricer_add_priced_var name ret var ret_add ok s)).
Proof.
  unfold scip_pricer_add_priced_var.
  split_if; simpl; [apply mark_abortround_frame|]. instance_not_null.
  split_if; simpl; [apply mark_abortround_frame|].
  split_if; simpl; [unfold mark_abortround; frame_simple|].
  destruct (registerVarHandle ok var (emit (SCIPaddPricedVar var) s))
    as [s1 id] eqn:R.
  simpl. apply call_frame_trans with (emit (SCIPaddPricedVar var) s);
    [frame_simple|].
  apply call_frame_trans with s1; [|frame_simple].
  replace s1
    with (fst (registerVarHandle ok var (emit (SCIPaddPricedVar var) s)))
    by (rewrite R; reflexivity).
  apply registerVarHandle_frame. assumption.
Qed.

Lemma scip_pricer_abort_round_frame s :
  call_frame s (scip_pricer_abort_round s).
Proof. unfold scip_pricer_abort_round. simpl. split_if; frame_simple. Qed.

(** Every call of the external routine keeps the frame. *)
Lemma exec_call_frame c s : call_frame s (exec_call c s).
Proof.
  destruct c; simpl.
  - apply scip_add_cons_linear_frame.
  - apply scip_add_var_frame.
  - apply scip_var_find_id_frame.
  - apply scip_cons_find_id_frame.
  - apply scip_var_get_transformed_frame.
  - apply scip_cons_get_transformed_frame.
  - apply scip_cons_get_row_frame.
  - apply scip_cons_is_in_lp_frame.
  - apply lp_row_values_batch_frame.
  - apply lp_row_values_batch_frame.
  - apply scip_pricer_add_var_to_rows_batch_frame.
  - apply scip_pricer_add_var_to_conss_batch_frame.
  - apply scip_pricer_add_priced_var_frame.
  - apply scip_pricer_abort_round_frame.
  - unfold scip_pricer_enable_redcost_callback. frame_simple.
  - unfold scip_pricer_enable_farkas_callback. frame_simple.
  - unfold scip_pricer_set_result. frame_simple.
  - unfold scip_pricer_set_lowerbound. frame_simple.
  - unfold scip_pricer_set_stopearly. frame_simple.
  - unfold scip_enable_incumbent_callback. frame_simple.
  - unfold scip_enable_node_callback. frame_simple.
Qed.

Lemma run_callback_frame body s : call_frame s (run_callback body s).
Proof.
  revert s. induction body as [|c rest IH]; simpl; intros s.
  - apply call_frame_refl.
  - eapply call_frame_trans; [apply exec_call_frame | apply IH].
Qed.

End CallFrames.

(** ** Pricing rounds *)

Lemma interrupts_emit e s :
  interrupts (emit e s)
  = (interrupts s + if is_interrupt e then 1 else 0)%nat.
Proof.
  unfold interrupts, emit. simpl. rewrite count_app. unfold count. simpl.
  destruct (is_interrupt e); reflexivity.
Qed.

Lemma call_frame_interrupts s s' :
  call_frame s s' -> (interrupts s <= interrupts s')%nat.
Proof.
  intros F. destruct (frame_trace _ _ F) as (more & E & _).
  unfold interrupts. rewrite E, count_app. lia.
Qed.

Lemma call_frame_callouts s s' : call_frame s s' -> callouts s' = callouts s.
Proof.
  intros F. destruct (frame_trace _ _ F) as (more & E & Hc).
  unfold callouts. rewrite E, count_app, Hc. lia.
Qed.

Section Rounds.
Context `{ScipDefs}.

Lemma scip_pricer_abort_round_effect s :
  scip_instance s <> NULL ->
  pending_pricer_abortround (scip_pricer_abort_round s) = true /\
  interrupts (scip_pricer_abort_round s) = S (interrupts s).
Proof.
  intros Hi. unfold scip_pricer_abort_round. simpl.
  apply Z.eqb_neq in Hi. rewrite Hi. simpl. split; [reflexivity|].
  rewrite interrupts_emit. simpl. unfold interrupts. simpl. lia.
Qed.

(** Every abort-round call of a callback body sends one interrupt request. *)
Lemma run_callback_aborts body s :
  scip_instance s <> NULL ->
  (interrupts s + aborts body <= interrupts (run_callback body s))%nat.
Proof.
  revert s. induction body as [|c rest IH]; simpl; intros s Hi.
  - unfold aborts. simpl. lia.
  - pose proof (exec_call_frame c s) as F.
    assert (Hi' : scip_instance (exec_call c s) <> NULL)
      by (rewrite (frame_instance _ _ F); exact Hi).
    specialize (IH _ Hi'). unfold aborts in *. simpl.
    destruct c; simpl in *;
      try (apply call_frame_interrupts in F; simpl in F; lia).
    destruct (scip_pricer_abort_round_effect s Hi) as [_ E]. lia.
Qed.

(** Once a body has called abort-round, the round stays marked. *)
Lemma run_callback_marked body s :
  In call_pricer_abort_round body ->
  pending_pricer_abortround (run_callback body s) = true.
Proof.
  revert s. induction body as [|c rest IH]; simpl; intros s Hin; [contradiction|].
  destruct Hin as [->|Hin]; [|apply IH, Hin].
  apply (frame_abortround _ _ (run_callback_frame rest _)).
  simpl. unfold scip_pricer_abort_round. simpl. split_if; reflexivity.
Qed.

Lemma callout_enabled flag e body s :
  flag <> 0 -> callout flag e (Some body) s = run_callback body (emit e s).
Proof.
  intros Hf. unfold callout. apply Z.eqb_neq in Hf. rewrite Hf. reflexivity.
Qed.

Lemma callout_disabled e handler s : callout 0 e handler s = s.
Proof. reflexivity. Qed.

(** C2 (amended).  Let the callback of a pricing round call abort-round, with
    a solver instance in place.  A reduced-cost round then reports
    [SCIP_DIDNOTRUN] and stop-early to the solver; a Farkas round reports
    [SCIP_DIDNOTRUN] (it has no stop-early output).  In both, the solver is
    sent one interrupt request by every abort-round call and one more by the
    exit of the round: at least two, never exactly one. *)
Theorem abort_round_on_exit (body : list js_call) (out : redcost_slots)
    (result : option Z) (s : bridge) :
  scip_instance s <> NULL ->
  In call_pricer_abort_round body ->
  (js_pricer_redcost_callback s <> 0 ->
   let s' := fst (pricerRedcostJs (Some body) out s) in
   let out' := snd (pricerRedcostJs (Some body) out s) in
   slot_result out' = store (slot_result out) SCIP_DIDNOTRUN /\
   slot_stopearly out' = store (slot_stopearly out) true /\
   last_pricing_result s' = SCIP_DIDNOTRUN /\
   (interrupts s + aborts body + 1 <= interrupts s')%nat /\
   (interrupts s + 2 <= interrupts s')%nat) /\
  (js_pricer_farkas_callback s <> 0 ->
   let s' := fst (pricerFarkasJs true (Some body) result s) in
   let result' := snd (pricerFarkasJs true (Some body) result s) in
   result' = store result SCIP_DIDNOTRUN /\
   last_pricing_result s' = SCIP_DIDNOTRUN /\
   (interrupts s + aborts body + 1 <= interrupts s')%nat /\
   (interrupts s + 2 <= interrupts s')%nat).
Proof.
  intros Hi Hin.
  assert (Ha : (1 <= aborts body)%nat).
  { clear -Hin. unfold aborts. induction body as [|c rest IH]; [contradiction|].
    destruct Hin as [->|Hin]; simpl; [lia|].
    specialize (IH Hin). destruct (is_abort_round c); simpl; lia. }
  split; intros Hf; cbv zeta.
  - unfold pricerRedcostJs.
    replace (js_pricer_redcost_callback (pricerRedcostJs_enter s))
      with (js_pricer_redcost_callback s) by reflexivity.
    rewrite callout_enabled by assumption.
    set (s1 := emit Module_onPricerRedcost (pricerRedcostJs_enter s)).
    assert (Hi1 : scip_instance s1 <> NULL) by exact Hi.
    pose proof (run_callback_aborts body s1 Hi1) as Hc.
    pose proof (run_callback_marked body s1 Hin) as Hm.
    replace (interrupts s1) with (interrupts s) in Hc
      by (unfold s1; rewrite interrupts_emit; simpl;
          unfold interrupts; simpl; lia).
    unfold pricerRedcostJs_exit. rewrite Hm. simpl.
    split; [reflexivity|]. split; [reflexivity|]. split; [reflexivity|].
    unfold interrupts in *. simpl trace. rewrite count_app.
    change (count is_interrupt [SCIPinterruptSolve]) with 1%nat.
    split; lia.
  - unfold pricerFarkasJs. simpl negb. cbv iota.
    replace (js_pricer_farkas_callback (pricerFarkasJs_enter s))
      with (js_pricer_farkas_callback s) by reflexivity.
    rewrite callout_enabled by assumption.
    set (s1 := emit Module_onPricerFarkas (pricerFarkasJs_enter s)).
    assert (Hi1 : scip_instance s1 <> NULL) by exact Hi.
    pose proof (run_callback_aborts body s1 Hi1) as Hc.
    pose proof (run_callback_marked body s1 Hin) as Hm.
    replace (interrupts s1) with (interrupts s) in Hc
      by (unfold s1; rewrite interrupts_emit; simpl;
          unfold interrupts; simpl; lia).
    unfold pricerFarkasJs_exit. rewrite Hm. simpl.
    split; [reflexivity|]. split; [reflexivity|].
    unfold interrupts in *. simpl trace. rewrite count_app.
    change (count is_interrupt [SCIPinterruptSolve]) with 1%nat.
    split; lia.
Qed.

Lemma callout_cases flag e handler s :
  callout flag e handler s = s \/
  (flag <> 0 /\ exists body,
     handler = Some body /\
     callout flag e handler s = run_callback body (emit e s)).
Proof.
  unfold callout. destruct (flag =? 0) eqn:E; simpl; [left; reflexivity|].
  apply Z.eqb_neq in E.
  destruct handler as [body|]; [right | left; reflexivity].
  split; [exact E|]. exists body. split; reflexivity.
Qed.

(** *** 32-bit arithmetic of the round counters *)

Lemma int_wrap_is_int z : int_min <= int_wrap z <= int_max.
Proof.
  unfold int_wrap, int_min, int_max.
  pose proof (Z.mod_pos_bound (z + 2147483648) 4294967296 ltac:(lia)). lia.
Qed.

Lemma int_wrap_id z : int_min <= z <= int_max -> int_wrap z = z.
Proof.
  unfold int_wrap, int_min, int_max. intros Hz.
  rewrite Z.mod_small by lia. lia.
Qed.

Lemma int_wrap_add_l a b : int_wrap (int_wrap a + b) = int_wrap (a + b).
Proof.
  unfold int_wrap.
  replace ((a + 2147483648) mod 4294967296 - 2147483648 + b + 2147483648)
    with ((a + 2147483648) mod 4294967296 + b) by lia.
  rewrite Zplus_mod_idemp_l. f_equal. f_equal. lia.
Qed.

Lemma int_wrap_add_r a b : int_wrap (a + int_wrap b) = int_wrap (a + b).
Proof. rewrite (Z.add_comm a), int_wrap_add_l. f_equal. lia. Qed.

Lemma int_wrap_succ_max : int_wrap (int_max + 1) = int_min.
Proof. reflexivity. Qed.

Lemma pricerRedcostJs_exit_counters out s :
  pricer_redcost_calls (fst (pricerRedcostJs_exit out s))
  = pricer_redcost_calls s /\
  pricer_farkas_calls (fst (pricerRedcostJs_exit out s))
  = pricer_farkas_calls s /\
  pricer_round (fst (pricerRedcostJs_exit out s)) = pricer_round s.
Proof.
  unfold pricerRedcostJs_exit. destruct s. simpl.
  destruct pending_pricer_abortround0; simpl;
    (split; [reflexivity|]; split; reflexivity).
Qed.

Lemma pricerRedcostJs_enter_counters s :
  pricer_redcost_calls (pricerRedcostJs_enter s)
  = int_wrap (pricer_redcost_calls s + 1) /\
  pricer_farkas_calls (pricerRedcostJs_enter s) = pricer_farkas_calls s /\
  pricer_round (pricerRedcostJs_enter s) = int_wrap (pricer_round s + 1).
Proof. destruct s. split; [reflexivity|]. split; reflexivity. Qed.

Lemma emit_counters e s :
  pricer_redcost_calls (emit e s) = pricer_redcost_calls s /\
  pricer_farkas_calls (emit e s) = pricer_farkas_calls s /\
  pricer_round (emit e s) = pricer_round s.
Proof. destruct s. split; [reflexivity|]. split; reflexivity. Qed.

Lemma callout_keeps_counters flag e handler s :
  pricer_redcost_calls (callout flag e handler s) = pricer_redcost_calls s /\
  pricer_farkas_calls (callout flag e handler s) = pricer_farkas_calls s /\
  pricer_round (callout flag e handler s) = pricer_round s.
Proof.
  destruct (callout_cases flag e handler s) as [->|(_ & body & _ & ->)];
    [split; [reflexivity|]; split; reflexivity|].
  pose proof (run_callback_frame body (emit e s)) as F.
  rewrite (frame_redcost_calls _ _ F), (frame_farkas_calls _ _ F),
    (frame_round _ _ F).
  apply emit_counters.
Qed.

Lemma exec_api_keeps_counters c s :
  no_reset_no_solve c = true ->
  pricer_redcost_calls (exec_api c s) = pricer_redcost_calls s /\
  pricer_farkas_calls (exec_api c s) = pricer_farkas_calls s /\
  pricer_round (exec_api c s) = pricer_round s.
Proof.
  destruct c; try discriminate; intros _; unfold exec_api.
  - unfold scip_create. destruct (negb (scip_instance s =? NULL));
      [split; [reflexivity|]; split; reflexivity|].
    repeat match goal with
           | |- context [if ?b then (?x, _) else _] => destruct b; cbn [fst]
           end; destruct s; (split; [reflexivity|]; split; reflexivity).
  - unfold scip_pricer_include.
    destruct ((scip_instance s =? NULL) || is_null name || is_null desc);
      [split; [reflexivity|]; split; reflexivity|].
    destruct (negb (js_pricer s =? NULL));
      [split; [reflexivity|]; split; reflexivity|].
    destruct s; (split; [reflexivity|]; split; reflexivity).
  - pose proof (exec_call_frame c s) as F.
    rewrite (frame_redcost_calls _ _ F), (frame_farkas_calls _ _ F),
      (frame_round _ _ F).
    split; [reflexivity|]; split; reflexivity.
Qed.

Lemma run_api_keeps_counters body s :
  forallb no_reset_no_solve body = true ->
  pricer_redcost_calls (run_api body s) = pricer_redcost_calls s /\
  pricer_farkas_calls (run_api body s) = pricer_farkas_calls s /\
  pricer_round (run_api body s) = pricer_round s.
Proof.
  unfold run_api. revert s.
  induction body as [|c rest IH]; intros s Hb;
    [split; [reflexivity|]; split; reflexivity|].
  cbn [forallb] in Hb. apply andb_prop in Hb. destruct Hb as [Hc Hrest].
  cbn [fold_left].
  destruct (IH (exec_api c s) Hrest) as (-> & -> & ->).
  apply exec_api_keeps_counters, Hc.
Qed.

Lemma scip_reset_counters stage stage' s :
  pricer_redcost_calls (scip_reset stage stage' s) = 0 /\
  pricer_farkas_calls (scip_reset stage stage' s) = 0 /\
  pricer_round (scip_reset stage stage' s) = 0.
Proof.
  unfold scip_reset. generalize (clearCurrentProblem stage stage' s).
  intros s1. destruct s1. split; [reflexivity|]. split; reflexivity.
Qed.

(** C6 (amended).  One reduced-cost invocation adds one to redcostCalls and
    to round in 32-bit arithmetic, whatever handler is installed, whatever
    round operations it calls and whatever the round reports: (n, r) goes to
    (n + 1, r + 1) as long as the counter is below [int_max], and a counter
    at [int_max] goes to [int_min].  The same holds when the callback also
    calls scip_create or scip_pricer_include, that is anything but the four
    resets and scip_solve; a callback whose last call is scip_reset leaves
    both counters at 0. *)
Theorem redcost_round_counters (handler : option (list js_call))
    (out : redcost_slots) (s : bridge) :
  let s' := fst (pricerRedcostJs handler out s) in
  let n := pricer_redcost_calls s in
  let r := pricer_round s in
  (pricer_redcost_calls s' = int_wrap (n + 1) /\
   pricer_round s' = int_wrap (r + 1)) /\
  (int_min <= n < int_max -> pricer_redcost_calls s' = n + 1) /\
  (int_min <= r < int_max -> pricer_round s' = r + 1) /\
  (n = int_max -> pricer_redcost_calls s' = int_min) /\
  (r = int_max -> pricer_round s' = int_min) /\
  (forall body,
     forallb no_reset_no_solve body = true ->
     let s'' := fst (pricerRedcostJs_reentrant body out s) in
     pricer_redcost_calls s'' = int_wrap (n + 1) /\
     pricer_round s'' = int_wrap (r + 1)) /\
  (forall body stage stage',
     js_pricer_redcost_callback s <> 0 ->
     let s'' :=
       fst (pricerRedcostJs_reentrant (body ++ [api_reset stage stage']) out
              s) in
     pricer_redcost_calls s'' = 0 /\ pricer_round s'' = 0).
Proof.
  cbv zeta.
  assert (G : pricer_redcost_calls (fst (pricerRedcostJs handler out s))
              = int_wrap (pricer_redcost_calls s + 1) /\
              pricer_round (fst (pricerRedcostJs handler out s))
              = int_wrap (pricer_round s + 1)).
  { unfold pricerRedcostJs.
    destruct (pricerRedcostJs_exit_counters out
                (callout (js_pricer_redcost_callback (pricerRedcostJs_enter s))
                   Module_onPricerRedcost handler (pricerRedcostJs_enter s)))
      as (-> & _ & ->).
    destruct (callout_keeps_counters
                (js_pricer_redcost_callback (pricerRedcostJs_enter s))
                Module_onPricerRedcost handler (pricerRedcostJs_enter s))
      as (-> & _ & ->).
    destruct (pricerRedcostJs_enter_counters s) as (-> & _ & ->).
    split; reflexivity. }
  destruct G as [G1 G2].
  split; [split; [exact G1 | exact G2]|].
  split; [intros Hn; rewrite G1; apply int_wrap_id;
          unfold int_min, int_max in *; lia|].
  split; [intros Hr; rewrite G2; apply int_wrap_id;
          unfold int_min, int_max in *; lia|].
  split; [intros Hn; rewrite G1, Hn; apply int_wrap_succ_max|].
  split; [intros Hr; rewrite G2, Hr; apply int_wrap_succ_max|].
  split.
  - intros body Hb. unfold pricerRedcostJs_reentrant.
    match goal with
    | |- context [pricerRedcostJs_exit out ?x] =>
        destruct (pricerRedcostJs_exit_counters out x) as (-> & _ & ->)
    end.
    destruct (negb (js_pricer_redcost_callback (pricerRedcostJs_enter s)
                    =? 0)).
    + destruct (run_api_keeps_counters body
                  (emit Module_onPricerRedcost (pricerRedcostJs_enter s)) Hb)
        as (-> & _ & ->).
      destruct (emit_counters Module_onPricerRedcost (pricerRedcostJs_enter s))
        as (-> & _ & ->).
      destruct (pricerRedcostJs_enter_counters s) as (-> & _ & ->).
      split; reflexivity.
    + destruct (pricerRedcostJs_enter_counters s) as (-> & _ & ->).
      split; reflexivity.
  - intros body stage stage' Hf. unfold pricerRedcostJs_reentrant.
    match goal with
    | |- context [pricerRedcostJs_exit out ?x] =>
        destruct (pricerRedcostJs_exit_counters out x) as (-> & _ & ->)
    end.
    replace (js_pricer_redcost_callback (pricerRedcostJs_enter s))
      with (js_pricer_redcost_callback s) by (destruct s; reflexivity).
    apply Z.eqb_neq in Hf. rewrite Hf. cbn [negb].
    unfold run_api. rewrite fold_left_app. cbn [fold_left exec_api].
    destruct (scip_reset_counters stage stage'
                (fold_left (fun s0 c => exec_api c s0) body
                   (emit Module_onPricerRedcost (pricerRedcostJs_enter s))))
      as (-> & _ & ->).
    split; reflexivity.
Qed.

(** C9.  A hook whose enable flag is 0 does not call out: the trace gains no
    call-out, and the hook does exactly what it does when the JavaScript side
    has no handler at all. *)
Theorem disabled_hook_is_silent (s : bridge) :
  (js_incumbent_callback s = 0 ->
   forall sol objval onIncumbent,
     eventExecBestSol sol objval onIncumbent s = s) /\
  (js_node_callback s = 0 ->
   forall dualbound primalbound nnodes onNode,
     eventExecNode dualbound primalbound nnodes onNode s = s) /\
  (js_pricer_redcost_callback s = 0 ->
   forall handler out,
     pricerRedcostJs handler out s = pricerRedcostJs None out s /\
     callouts (fst (pricerRedcostJs handler out s)) = callouts s) /\
  (js_pricer_farkas_callback s = 0 ->
   forall has_lp handler result,
     pricerFarkasJs has_lp handler result s
     = pricerFarkasJs has_lp None result s /\
     callouts (fst (pricerFarkasJs has_lp handler result s)) = callouts s).
Proof.
  split; [|split; [|split]].
  - intros Hf sol objval onIncumbent. unfold eventExecBestSol. rewrite Hf.
    destruct (negb (sol =? NULL)); reflexivity.
  - intros Hf dualbound primalbound nnodes onNode. unfold eventExecNode.
    rewrite Hf. reflexivity.
  - intros Hf handler out. destruct s; simpl in Hf; subst.
    unfold pricerRedcostJs, pricerRedcostJs_exit, callout, callouts. simpl.
    split; reflexivity.
  - intros Hf has_lp handler result. destruct s; simpl in Hf; subst.
    unfold pricerFarkasJs, pricerFarkasJs_exit, callout, callouts. simpl.
    destruct has_lp; simpl; split; reflexivity.
Qed.

(** C3 (amended).  A Farkas invocation with no current-node LP reports
    [SCIP_DIDNOTRUN], sends nothing across the boundary (no call-out, no
    request: the trace is unchanged, and the installed handler is
    irrelevant), and leaves addedVarsThisCall at 0: the counter is reset on
    entry, so it keeps its value only if that value was 0. *)
Theorem farkas_without_lp (handler : option (list js_call))
    (result : option Z) (s : bridge) :
  let s' := fst (pricerFarkasJs false handler result s) in
  let result' := snd (pricerFarkasJs false handler result s) in
  result' = store result SCIP_DIDNOTRUN /\
  pending_pricer_result s' = SCIP_DIDNOTRUN /\
  last_pricing_result s' = SCIP_DIDNOTRUN /\
  added_vars_this_call s' = 0 /\
  trace s' = trace s /\
  pricerFarkasJs false handler result s = pricerFarkasJs false None result s.
Proof.
  destruct s. unfold pricerFarkasJs. simpl. repeat split; reflexivity.
Qed.

(** C4 (amended).  Entering a reduced-cost round resets all five per-round
    outputs, so nothing of an earlier round reaches the callback or the exit:
    the entry state does not depend on what the outputs were.  Entering a
    Farkas round resets result, abortRound and addedVarsThisCall, and leaves
    lowerBound and stopEarly as the previous round left them (a Farkas call
    has no output for either).  In both hooks the callback, if any, starts
    from the entry state. *)
Theorem pricing_round_entry (s : bridge) :
  (let e := pricerRedcostJs_enter s in
   pending_pricer_result e = SCIP_SUCCESS /\
   pending_pricer_lowerbound e = SCIP_INVALID /\
   pending_pricer_stopearly e = false /\
   pending_pricer_abortround e = false /\
   added_vars_this_call e = 0) /\
  (forall r l e a n,
     pricerRedcostJs_enter
       (s |> set_pending_pricer_result r |> set_pending_pricer_lowerbound l
          |> set_pending_pricer_stopearly e |> set_pending_pricer_abortround a
          |> set_added_vars_this_call n)
     = pricerRedcostJs_enter s) /\
  (let e := pricerFarkasJs_enter s in
   pending_pricer_result e = SCIP_SUCCESS /\
   pending_pricer_abortround e = false /\
   added_vars_this_call e = 0 /\
   pending_pricer_lowerbound e = pending_pricer_lowerbound s /\
   pending_pricer_stopearly e = pending_pricer_stopearly s) /\
  (forall handler out,
     pricerRedcostJs handler out s
     = pricerRedcostJs_exit out
         (callout (js_pricer_redcost_callback s) Module_onPricerRedcost
            handler (pricerRedcostJs_enter s))) /\
  (forall handler result,
     pricerFarkasJs true handler result s
     = pricerFarkasJs_exit result
         (callout (js_pricer_farkas_callback s) Module_onPricerFarkas
            handler (pricerFarkasJs_enter s))).
Proof.
  destruct s. unfold pricerRedcostJs_enter, pricerFarkasJs_enter. simpl.
  split; [repeat split|]. split; [reflexivity|]. split; [repeat split|].
  split; reflexivity.
Qed.

(** *** The pending lower bound *)

Lemma register_lowerbound k ok obj s :
  pending_pricer_lowerbound (fst (register k ok obj s))
  = pending_pricer_lowerbound s.
Proof.
  destruct k; simpl;
    [unfold registerVarHandle | unfold registerConsHandle
    | unfold registerRowHandle];
    destruct (registerHandle ok obj _); reflexivity.
Qed.

Ltac lowerbound_of_register :=
  match goal with
  | |- context [registerVarHandle ?ok ?v ?s] =>
      let L := fresh "L" in
      pose proof (register_lowerbound reg_var ok v s) as L;
      simpl in L; destruct (registerVarHandle ok v s); simpl in L |- *;
      try rewrite L
  | |- context [registerConsHandle ?ok ?v ?s] =>
      let L := fresh "L" in
      pose proof (register_lowerbound reg_cons ok v s) as L;
      simpl in L; destruct (registerConsHandle ok v s); simpl in L |- *;
      try rewrite L
  | |- context [registerRowHandle ?ok ?v ?s] =>
      let L := fresh "L" in
      pose proof (register_lowerbound reg_row ok v s) as L;
      simpl in L; destruct (registerRowHandle ok v s); simpl in L |- *;
      try rewrite L
  end.

Lemma add_var_to_rows_lowerbound rets i var entries s :
  pending_pricer_lowerbound (fst (add_var_to_rows rets i var entries s))
  = pending_pricer_lowerbound s.
Proof.
  revert i s. induction entries as [|[rowId val] rest IH]; simpl; intros i s.
  - reflexivity.
  - split_if; simpl; [reflexivity|]. rewrite IH. reflexivity.
Qed.

Lemma add_var_to_conss_lowerbound rets i var entries s :
  pending_pricer_lowerbound (fst (add_var_to_conss rets i var entries s))
  = pending_pricer_lowerbound s.
Proof.
  revert i s. induction entries as [|[consId val] rest IH]; simpl; intros i s.
  - reflexivity.
  - split_if; simpl; [reflexivity|]. rewrite IH. reflexivity.
Qed.

Lemma register_lp_rows_lowerbound rows s :
  pending_pricer_lowerbound (fst (register_lp_rows rows s))
  = pending_pricer_lowerbound s.
Proof.
  revert s. induction rows as [|[[row value] ok] rest IH]; simpl; intros s.
  - reflexivity.
  - specialize (IH (fst (registerRowHandle ok row s))).
    destruct (register_lp_rows rest (fst (registerRowHandle ok row s))).
    simpl in *. rewrite IH. apply (register_lowerbound reg_row).
Qed.

Lemma lp_row_values_batch_lowerbound out n stage constructed nlprows rows s :
  pending_pricer_lowerbound
    (fst (fst (lp_row_values_batch out n stage constructed nlprows rows s)))
  = pending_pricer_lowerbound s.
Proof.
  unfold lp_row_values_batch.
  repeat (split_if; simpl; try reflexivity);
    match goal with
    | |- context [register_lp_rows ?l s] =>
        pose proof (register_lp_rows_lowerbound l s) as L;
        destruct (register_lp_rows l s)
    end;
    exact L.
Qed.

(** Only set-lowerbound touches the pending lower bound. *)
Lemma exec_call_lowerbound c s :
  pending_pricer_lowerbound (exec_call c s)
  = match c with
    | call_pricer_set_lowerbound v => v
    | _ => pending_pricer_lowerbound s
    end.
Proof.
  destruct c; simpl; try reflexivity.
  - unfold scip_add_cons_linear. repeat (split_if; simpl; try reflexivity).
    lowerbound_of_register. reflexivity.
  - unfold scip_add_var. repeat (split_if; simpl; try reflexivity).
    lowerbound_of_register. reflexivity.
  - unfold scip_var_find_id. split_if; [reflexivity|].
    apply (register_lowerbound reg_var).
  - unfold scip_cons_find_id. split_if; [reflexivity|].
    apply (register_lowerbound reg_cons).
  - unfold scip_var_get_transformed.
    repeat (split_if; simpl; try reflexivity).
    apply (register_lowerbound reg_var).
  - unfold scip_cons_get_transformed.
    repeat (split_if; simpl; try reflexivity).
    apply (register_lowerbound reg_cons).
  - unfold scip_cons_get_row. repeat (split_if; simpl; try reflexivity).
    apply (register_lowerbound reg_row).
  - unfold scip_cons_is_in_lp, scip_cons_get_row.
    repeat (split_if; simpl; try reflexivity);
      lowerbound_of_register; repeat split_if; simpl; assumption.
  - apply lp_row_values_batch_lowerbound.
  - apply lp_row_values_batch_lowerbound.
  - unfold scip_pricer_add_var_to_rows_batch.
    destruct rowIds, vals; simpl; try reflexivity.
    repeat (split_if; simpl; try reflexivity).
    apply add_var_to_rows_lowerbound.
  - unfold scip_pricer_add_var_to_conss_batch.
    destruct consIds, vals; simpl; try reflexivity.
    repeat (split_if; simpl; try reflexivity).
    apply add_var_to_conss_lowerbound.
  - unfold scip_pricer_add_priced_var.
    repeat (split_if; simpl; try reflexivity).
    lowerbound_of_register. reflexivity.
  - unfold scip_pricer_abort_round. simpl. split_if; reflexivity.
Qed.

Lemma run_callback_lowerbound body s :
  pending_pricer_lowerbound (run_callback body s)
  = match last_lowerbound body with
    | Some v => v
    | None => pending_pricer_lowerbound s
    end.
Proof.
  revert s. induction body as [|c rest IH]; simpl; intros s; [reflexivity|].
  rewrite IH. destruct (last_lowerbound rest); [reflexivity|].
  rewrite exec_call_lowerbound. destruct c; reflexivity.
Qed.

Lemma pricerRedcostJs_exit_lowerbound out s :
  slot_lowerbound (snd (pricerRedcostJs_exit out s))
  = if real_neq (pending_pricer_lowerbound s) SCIP_INVALID
    then store (slot_lowerbound out) (pending_pricer_lowerbound s)
    else slot_lowerbound out.
Proof.
  destruct s. unfold pricerRedcostJs_exit. simpl.
  destruct pending_pricer_abortround0; reflexivity.
Qed.

Lemma pricerRedcostJs_enter_flag s :
  js_pricer_redcost_callback (pricerRedcostJs_enter s)
  = js_pricer_redcost_callback s.
Proof. destruct s. reflexivity. Qed.

Lemma pricerRedcostJs_enter_lowerbound s :
  pending_pricer_lowerbound (pricerRedcostJs_enter s) = SCIP_INVALID.
Proof. destruct s. reflexivity. Qed.

Lemma emit_lowerbound e s :
  pending_pricer_lowerbound (emit e s) = pending_pricer_lowerbound s.
Proof. destruct s. reflexivity. Qed.

(** C8 (amended).  On exit of a reduced-cost round the solver's lower-bound
    slot receives the pending lower bound exactly when that value differs
    from [SCIP_INVALID].  So: if the callback never called set-lowerbound (or
    no callback ran), the slot keeps its prior value; if it did, the slot
    receives the argument [v] of the last such call, unless [v] is
    [SCIP_INVALID] itself, in which case the slot again keeps its prior
    value.  ([SCIP_INVALID] is assumed to be a number, i.e. equal to itself.) *)
Theorem redcost_lowerbound_slot (handler : option (list js_call))
    (out : redcost_slots) (s : bridge) :
  PrimFloat.eqb SCIP_INVALID SCIP_INVALID = true ->
  let out' := snd (pricerRedcostJs handler out s) in
  (forall body,
     js_pricer_redcost_callback s <> 0 -> handler = Some body ->
     slot_lowerbound out'
     = match last_lowerbound body with
       | Some v =>
           if real_neq v SCIP_INVALID then store (slot_lowerbound out) v
           else slot_lowerbound out
       | None => slot_lowerbound out
       end) /\
  (js_pricer_redcost_callback s = 0 \/ handler = None ->
   slot_lowerbound out' = slot_lowerbound out).
Proof.
  intros Hnum. cbv zeta. unfold pricerRedcostJs.
  rewrite pricerRedcostJs_enter_flag, pricerRedcostJs_exit_lowerbound.
  assert (Hinv : real_neq SCIP_INVALID SCIP_INVALID = false)
    by (unfold real_neq; rewrite Hnum; reflexivity).
  split.
  - intros body Hf ->. rewrite callout_enabled by assumption.
    rewrite run_callback_lowerbound.
    destruct (last_lowerbound body) as [v|]; [reflexivity|].
    rewrite emit_lowerbound, pricerRedcostJs_enter_lowerbound, Hinv.
    reflexivity.
  - intros Hoff.
    assert (E : callout (js_pricer_redcost_callback s) Module_onPricerRedcost
                  handler (pricerRedcostJs_enter s)
                = pricerRedcostJs_enter s).
    { unfold callout. destruct Hoff as [-> | ->]; [reflexivity|].
      destruct (negb (js_pricer_redcost_callback s =? 0)); reflexivity. }
    rewrite E, pricerRedcostJs_enter_lowerbound, Hinv. reflexivity.
Qed.

End Rounds.

(** ** Handles across hooks, solves and resets *)

Lemma handles_frame_refl s : handles_frame s s.
Proof. constructor; auto. apply registries_grow_refl. Qed.

Lemma handles_frame_trans s1 s2 s3 :
  handles_frame s1 s2 -> handles_frame s2 s3 -> handles_frame s1 s3.
Proof.
  intros [i1 w1 g1 z1] [i2 w2 g2 z2].
  constructor; try congruence; auto.
  - eapply registries_grow_trans; eauto.
  - intros Hn k. rewrite z2 by congruence. apply z1, Hn.
Qed.

Lemma call_frame_handles s s' : call_frame s s' -> handles_frame s s'.
Proof. intros F. constructor; apply F. Qed.

(** A step that touches neither the instance nor a registry. *)
Lemma handles_frame_same s s' :
  scip_instance s' = scip_instance s ->
  (forall k, registry_of k s' = registry_of k s) ->
  handles_frame s s'.
Proof.
  intros Hi Hr. constructor; auto.
  - intros W k. rewrite Hr. apply W.
  - intros k. exists []. rewrite Hr, app_nil_r. reflexivity.
Qed.

Ltac same_handles :=
  apply handles_frame_same;
  [ reflexivity | let k := fresh "k" in intros k; destruct k; reflexivity ].

Section Handles.
Context `{ScipDefs}.

Lemma callout_handles flag e handler s :
  handles_frame s (callout flag e handler s).
Proof.
  destruct (callout_cases flag e handler s) as [->|(_ & body & _ & ->)].
  - apply handles_frame_refl.
  - apply handles_frame_trans with (emit e s).
    + destruct s. same_handles.
    + apply call_frame_handles, run_callback_frame.
Qed.

Lemma pricerRedcostJs_handles handler out s :
  handles_frame s (fst (pricerRedcostJs handler out s)).
Proof.
  unfold pricerRedcostJs.
  assert (F1 : handles_frame s (pricerRedcostJs_enter s))
    by (destruct s; same_handles).
  set (s1 := pricerRedcostJs_enter s) in *.
  assert (F2 : handles_frame s1
            (callout (js_pricer_redcost_callback s1) Module_onPricerRedcost
               handler s1)) by apply callout_handles.
  set (s2 := callout (js_pricer_redcost_callback s1) Module_onPricerRedcost
               handler s1) in *.
  assert (F3 : handles_frame s2 (fst (pricerRedcostJs_exit out s2))).
  { clearbody s2. destruct s2. unfold pricerRedcostJs_exit. simpl.
    destruct pending_pricer_abortround0; same_handles. }
  eapply handles_frame_trans; [exact F1|].
  eapply handles_frame_trans; [exact F2 | exact F3].
Qed.

Lemma pricerFarkasJs_handles has_lp handler result s :
  handles_frame s (fst (pricerFarkasJs has_lp handler result s)).
Proof.
  unfold pricerFarkasJs.
  destruct has_lp; simpl negb; cbv iota.
  - assert (F1 : handles_frame s (pricerFarkasJs_enter s))
      by (destruct s; same_handles).
    set (s1 := pricerFarkasJs_enter s) in *.
    assert (F2 : handles_frame s1
              (callout (js_pricer_farkas_callback s1) Module_onPricerFarkas
                 handler s1)) by apply callout_handles.
    set (s2 := callout (js_pricer_farkas_callback s1) Module_onPricerFarkas
                 handler s1) in *.
    assert (F3 : handles_frame s2 (fst (pricerFarkasJs_exit result s2))).
    { clearbody s2. destruct s2. unfold pricerFarkasJs_exit. simpl.
      destruct pending_pricer_abortround0; same_handles. }
    eapply handles_frame_trans; [exact F1|].
    eapply handles_frame_trans; [exact F2 | exact F3].
  - destruct s. same_handles.
Qed.

Lemma run_hook_handles h s : handles_frame s (run_hook h s).
Proof.
  destruct h; unfold run_hook.
  - unfold eventExecBestSol. destruct (negb (sol =? NULL));
      [apply callout_handles | apply handles_frame_refl].
  - apply pricerRedcostJs_handles.
  - apply pricerFarkasJs_handles.
Qed.

Lemma run_hooks_handles hooks s :
  handles_frame s (fold_left (fun s h => run_hook h s) hooks s).
Proof.
  revert s. induction hooks as [|h rest IH]; simpl; intros s.
  - apply handles_frame_refl.
  - eapply handles_frame_trans; [apply run_hook_handles | apply IH].
Qed.

Lemma scip_solve_handles hooks retcode status s :
  handles_frame s (fst (scip_solve hooks retcode status s)).
Proof.
  unfold scip_solve.
  destruct (scip_instance s =? NULL); [apply handles_frame_refl|].
  assert (F : handles_frame s
            (fold_left (fun s h => run_hook h s) hooks
               (s |> set_current_pricing_mode 0 |> set_added_vars_this_call 0))).
  { eapply handles_frame_trans; [|apply run_hooks_handles].
    destruct s. same_handles. }
  repeat match goal with
         | |- context [if ?b then (?x, _) else _] => destruct b; simpl fst
         end; try exact F.
Qed.

Lemma clearCurrentProblem_same stage stage' s :
  scip_instance (clearCurrentProblem stage stage' s) = scip_instance s /\
  forall k,
    registry_of k (clearCurrentProblem stage stage' s) = registry_of k s.
Proof.
  destruct s. unfold clearCurrentProblem. simpl.
  destruct (scip_instance0 =? NULL); [split; reflexivity|].
  destruct (stage >=? SCIP_STAGE_SOLVING);
    [destruct (stage' >=? SCIP_STAGE_PROBLEM)
    | destruct (stage >=? SCIP_STAGE_PROBLEM)];
    (split; [reflexivity | intros k; destruct k; reflexivity]).
Qed.

(** After each of the four lifecycle functions that reset, all three
    registries are empty, provided the function got past its guard. *)
Lemma scip_reset_registries stage stage' s k :
  registry_of k (scip_reset stage stage' s) = empty_registry.
Proof.
  unfold scip_reset. generalize (clearCurrentProblem stage stage' s).
  intros s1. destruct s1, k; reflexivity.
Qed.

Lemma scip_free_registries stage stage' s k :
  registry_of k (scip_free stage stage' s) = empty_registry.
Proof.
  unfold scip_free.
  destruct (negb (scip_instance s =? NULL)).
  - generalize (clearCurrentProblem stage stage' s).
    intros s1. destruct s1, k; reflexivity.
  - destruct s, k; reflexivity.
Qed.

Lemma scip_problem_clear_registries stage stage' s k :
  scip_instance s <> NULL ->
  registry_of k (fst (scip_problem_clear stage stage' s)) = empty_registry.
Proof.
  intros Hi. unfold scip_problem_clear. apply Z.eqb_neq in Hi. rewrite Hi.
  generalize (clearCurrentProblem stage stage' s).
  intros s1. destruct s1, k; reflexivity.
Qed.

Lemma scip_problem_begin_registries name maximize stage stage' rc rs s k :
  scip_instance s <> NULL ->
  registry_of k
    (fst (scip_problem_begin name maximize stage stage' rc rs s))
  = empty_registry.
Proof.
  intros Hi. unfold scip_problem_begin. apply Z.eqb_neq in Hi. rewrite Hi.
  generalize (clearCurrentProblem stage stage' s).
  intros s1. destruct s1. simpl.
  destruct (negb (rc =? SCIP_OKAY)); [destruct k; reflexivity|].
  destruct (negb (rs =? SCIP_OKAY)); destruct k; reflexivity.
Qed.

Lemma getByHandle_empty id : getByHandle id empty_registry = NULL.
Proof.
  unfold getByHandle, reg_size. simpl.
  destruct (id <=? 0) eqn:E1; [reflexivity|].
  destruct (id >? 0) eqn:E2; [reflexivity|]. lia.
Qed.

(** The invariant of the lifecycle: every register call sits behind a test
    for the instance, and the instance is only released together with the
    registries. *)
Lemma exec_api_no_instance c s :
  no_instance_no_handles s -> no_instance_no_handles (exec_api c s).
Proof.
  intros Inv. destruct c; unfold exec_api.
  - unfold scip_create. destruct (scip_instance s =? NULL) eqn:Ei; simpl.
    + apply Z.eqb_eq in Ei. specialize (Inv Ei).
      assert (R : forall k x,
                 registry_of k (set_scip_instance x s) = empty_registry)
        by (intros k x; rewrite <- (Inv k); destruct s, k; reflexivity).
      repeat match goal with
             | |- context [if ?b then (?x, _) else _] => destruct b; simpl fst
             end; intros _ k; apply R.
    + exact Inv.
  - intros _ k. apply scip_free_registries.
  - destruct (Z.eq_dec (scip_instance s) NULL) as [E|E].
    + unfold scip_problem_clear. rewrite (proj2 (Z.eqb_eq _ _) E). exact Inv.
    + intros _ k. apply scip_problem_clear_registries, E.
  - destruct (Z.eq_dec (scip_instance s) NULL) as [E|E].
    + unfold scip_problem_begin. rewrite (proj2 (Z.eqb_eq _ _) E). exact Inv.
    + intros _ k. apply scip_problem_begin_registries, E.
  - intros _ k. apply scip_reset_registries.
  - unfold scip_pricer_include.
    destruct ((scip_instance s =? NULL) || is_null name || is_null desc);
      [exact Inv|].
    destruct (negb (js_pricer s =? NULL)); [exact Inv|].
    simpl. intros Hi k. rewrite <- (Inv Hi k). destruct s, k; reflexivity.
  - pose proof (scip_solve_handles hooks retcode status s) as F.
    intros Hi k. rewrite (hf_instance _ _ F) in Hi.
    rewrite (hf_no_instance _ _ F Hi). apply Inv, Hi.
  - pose proof (exec_call_frame c s) as F.
    intros Hi k. rewrite (frame_instance _ _ F) in Hi.
    rewrite (frame_no_instance _ _ F Hi). apply Inv, Hi.
Qed.

Lemma reachable_no_instance s : reachable s -> no_instance_no_handles s.
Proof.
  intros [calls ->]. unfold run_api.
  assert (G : forall s0, no_instance_no_handles s0 ->
              no_instance_no_handles
                (fold_left (fun s c => exec_api c s) calls s0)).
  { induction calls as [|c rest IH]; simpl; intros s0 I0; [exact I0|].
    apply IH, exec_api_no_instance, I0. }
  apply G. intros _ k. destruct k; reflexivity.
Qed.

Lemma empty_registries_wf s :
  (forall k, registry_of k s = empty_registry) -> registries_wf s.
Proof.
  intros E k. rewrite E. split; simpl; [constructor | tauto].
Qed.

Lemma same_registries_wf s s' :
  (forall k, registry_of k s' = registry_of k s) ->
  registries_wf s -> registries_wf s'.
Proof. intros E W k. rewrite E. apply W. Qed.

Lemma same_registries_grow s s' :
  (forall k, registry_of k s' = registry_of k s) -> registries_grow s s'.
Proof. intros E k. exists []. rewrite E, app_nil_r. reflexivity. Qed.

Lemma scip_create_registries rc inst rp rh rcatch s k :
  registry_of k (fst (scip_create rc inst rp rh rcatch s)) = registry_of k s.
Proof.
  unfold scip_create. destruct (negb (scip_instance s =? NULL));
    [reflexivity|].
  repeat match goal with
         | |- context [if ?b then (?x, _) else _] => destruct b; simpl fst
         end; destruct s, k; reflexivity.
Qed.

Lemma scip_pricer_include_registries name desc ret pricer s k :
  registry_of k (fst (scip_pricer_include name desc ret pricer s))
  = registry_of k s.
Proof.
  unfold scip_pricer_include.
  destruct ((scip_instance s =? NULL) || is_null name || is_null desc);
    [reflexivity|].
  destruct (negb (js_pricer s =? NULL)); [reflexivity|].
  destruct s, k; reflexivity.
Qed.

(** Whatever is called from the top level, the registries stay well
    formed. *)
Lemma exec_api_wf c s : registries_wf s -> registries_wf (exec_api c s).
Proof.
  intros W. destruct c; unfold exec_api.
  - eapply same_registries_wf; [|exact W].
    intros k. apply scip_create_registries.
  - apply empty_registries_wf. intros k. apply scip_free_registries.
  - destruct (Z.eq_dec (scip_instance s) NULL) as [E|E].
    + unfold scip_problem_clear. rewrite (proj2 (Z.eqb_eq _ _) E). exact W.
    + apply empty_registries_wf. intros k.
      apply scip_problem_clear_registries, E.
  - destruct (Z.eq_dec (scip_instance s) NULL) as [E|E].
    + unfold scip_problem_begin. rewrite (proj2 (Z.eqb_eq _ _) E). exact W.
    + apply empty_registries_wf. intros k.
      apply scip_problem_begin_registries, E.
  - apply empty_registries_wf. intros k. apply scip_reset_registries.
  - eapply same_registries_wf; [|exact W].
    intros k. apply scip_pricer_include_registries.
  - apply (hf_wf _ _ (scip_solve_handles hooks retcode status s)), W.
  - apply (frame_wf _ _ (exec_call_frame c s)), W.
Qed.

(** A call that is not a reset only appends to the registries. *)
Lemma exec_api_grows c s :
  clears c = false -> registries_grow s (exec_api c s).
Proof.
  intros Hc. destruct c; try discriminate; unfold exec_api.
  - apply same_registries_grow. intros k. apply scip_create_registries.
  - apply same_registries_grow. intros k.
    apply scip_pricer_include_registries.
  - apply (hf_grow _ _ (scip_solve_handles hooks retcode status s)).
  - apply (frame_grow _ _ (exec_call_frame c s)).
Qed.

Lemma reachable_wf s : reachable s -> registries_wf s.
Proof.
  intros [calls ->]. unfold run_api.
  assert (G : forall s0, registries_wf s0 ->
              registries_wf (fold_left (fun s c => exec_api c s) calls s0)).
  { induction calls as [|c rest IH]; simpl; intros s0 W0; [exact W0|].
    apply IH, exec_api_wf, W0. }
  apply G. apply empty_registries_wf. intros k. destruct k; reflexivity.
Qed.

(** Handles at the level of the API: in a reachable state a handle that
    names an object keeps naming it across every run of calls that contains
    no reset (solves with their hooks and callbacks included), and
    registering the object again returns that handle. *)
Lemma handles_survive_calls s calls k id obj :
  reachable s ->
  names (registry_of k s) id obj ->
  forallb (fun c => negb (clears c)) calls = true ->
  let s' := run_api calls s in
  resolve k id s' = obj /\
  (forall ok, register k ok obj s' = (s', id)).
Proof.
  intros Hr Hn Hcalls. cbv zeta.
  assert (G : forall s0,
            registries_wf s0 -> names (registry_of k s0) id obj ->
            registries_wf (run_api calls s0) /\
            names (registry_of k (run_api calls s0)) id obj).
  { clear Hr Hn. unfold run_api.
    induction calls as [|c rest IH]; simpl; intros s0 W0 N0; [auto|].
    simpl in Hcalls. apply andb_prop in Hcalls. destruct Hcalls as [Hc Hrest].
    apply negb_true_iff in Hc.
    apply IH; [exact Hrest | apply exec_api_wf, W0 |].
    destruct (exec_api_grows c s0 Hc k) as [more E].
    eapply names_grow; eauto. }
  destruct (G s (reachable_wf s Hr) Hn) as [W N].
  split; [rewrite resolve_registry_of; apply names_resolves, N|].
  intros ok.
  pose proof (registerHandle_again ok obj _ id (W k) N) as E.
  rewrite (surjective_pairing (register k ok obj (run_api calls s))).
  rewrite register_snd, E. simpl. f_equal.
  apply register_unchanged. rewrite E. reflexivity.
Qed.

(** C5.  In any state the bridge can reach, after scip_reset,
    scip_problem_clear, scip_problem_begin or scip_free no handle resolves,
    in any of the three registries: whatever handle was issued before is
    not-found afterwards. *)
Theorem reset_invalidates_handles (s : bridge) (k : registry_kind) (id : Z)
    (stage stage' : Z) (name : option string) (maximize rc rs : Z) :
  reachable s ->
  resolve k id (scip_reset stage stage' s) = NULL /\
  resolve k id (fst (scip_problem_clear stage stage' s)) = NULL /\
  resolve k id (fst (scip_problem_begin name maximize stage stage' rc rs s))
  = NULL /\
  resolve k id (scip_free stage stage' s) = NULL.
Proof.
  intros Hr. pose proof (reachable_no_instance s Hr) as Inv.
  rewrite !resolve_registry_of.
  rewrite scip_reset_registries, scip_free_registries.
  split; [apply getByHandle_empty|].
  destruct (Z.eq_dec (scip_instance s) NULL) as [E|E].
  - unfold scip_problem_clear, scip_problem_begin.
    rewrite (proj2 (Z.eqb_eq _ _) E). simpl fst. rewrite (Inv E k).
    repeat split; apply getByHandle_empty.
  - rewrite scip_problem_clear_registries, scip_problem_begin_registries
      by exact E.
    repeat split; apply getByHandle_empty.
Qed.

(** C10.  scip_solve returns -1 exactly when there is no solver instance or
    [SCIPsolve] does not return [SCIP_OKAY]; every other return value is one
    of 0, 1, 2, 3, 4.  It does return -1: from the initial globals, where no
    instance exists, whatever the solver would answer. *)
Theorem scip_solve_return (hooks : list solver_hook) (retcode status : Z)
    (s : bridge) :
  let r := snd (scip_solve hooks retcode status s) in
  (r = -1 <-> scip_instance s = NULL \/ retcode <> SCIP_OKAY) /\
  (r = -1 \/ r = 0 \/ r = 1 \/ r = 2 \/ r = 3 \/ r = 4) /\
  snd (scip_solve hooks retcode status initial_bridge) = -1.
Proof.
  cbv zeta.
  cut ((snd (scip_solve hooks retcode status s) = -1
        <-> scip_instance s = NULL \/ retcode <> SCIP_OKAY) /\
       (snd (scip_solve hooks retcode status s) = -1 \/
        snd (scip_solve hooks retcode status s) = 0 \/
        snd (scip_solve hooks retcode status s) = 1 \/
        snd (scip_solve hooks retcode status s) = 2 \/
        snd (scip_solve hooks retcode status s) = 3 \/
        snd (scip_solve hooks retcode status s) = 4)).
  { intros [a b]. split; [exact a|]. split; [exact b | reflexivity]. }
  unfold scip_solve.
  destruct (scip_instance s =? NULL) eqn:Ei.
  { apply Z.eqb_eq in Ei. simpl. split; [tauto | auto]. }
  apply Z.eqb_neq in Ei.
  destruct (retcode =? SCIP_OKAY) eqn:Er; simpl negb; cbv iota.
  - apply Z.eqb_eq in Er.
    destruct (status =? SCIP_STATUS_OPTIMAL);
      [|destruct (status =? SCIP_STATUS_INFEASIBLE);
        [|destruct (status =? SCIP_STATUS_UNBOUNDED);
          [|destruct (status =? SCIP_STATUS_TIMELIMIT)]]];
      simpl snd; (split; [split; [discriminate | tauto] | auto 7]).
  - apply Z.eqb_neq in Er. simpl snd. split; [tauto | auto].
Qed.

End Handles.

(** ** Column injection *)

Lemma array_read_In {A : Type} (a : list A) (n i : Z) (d : A) :
  0 <= i < n -> In (nth (Z.to_nat i) a d) (array_read a n d).
Proof.
  intros Hi. unfold array_read.
  apply (in_map (fun k => nth k a d)). apply in_seq. lia.
Qed.

Section Injection.
Context `{ScipDefs}.

Lemma mark_abortround_effect s :
  pending_pricer_abortround (mark_abortround s) = true /\
  pending_pricer_result (mark_abortround s) = SCIP_DIDNOTRUN /\
  trace (mark_abortround s) = trace s.
Proof. destruct s. repeat split. Qed.

Lemma pricerRedcostJs_exit_marked out s :
  pending_pricer_abortround s = true ->
  slot_result (snd (pricerRedcostJs_exit out s))
  = store (slot_result out) SCIP_DIDNOTRUN /\
  slot_stopearly (snd (pricerRedcostJs_exit out s))
  = store (slot_stopearly out) true /\
  interrupts (fst (pricerRedcostJs_exit out s)) = S (interrupts s).
Proof.
  destruct s. simpl. intros ->. unfold pricerRedcostJs_exit, interrupts.
  simpl. rewrite count_app. split; [reflexivity|]. split; [reflexivity|].
  change (count is_interrupt [SCIPinterruptSolve]) with 1%nat. lia.
Qed.

Lemma pricerFarkasJs_exit_marked result s :
  pending_pricer_abortround s = true ->
  snd (pricerFarkasJs_exit result s) = store result SCIP_DIDNOTRUN /\
  interrupts (fst (pricerFarkasJs_exit result s)) = S (interrupts s).
Proof.
  destruct s. simpl. intros ->. unfold pricerFarkasJs_exit, interrupts.
  simpl. rewrite count_app. split; [reflexivity|].
  change (count is_interrupt [SCIPinterruptSolve]) with 1%nat. lia.
Qed.

(** C7 (amended).  A column-injection call that meets a null argument or an
    invalid handle returns -1 and marks the round (abortRound set,
    result = DIDNOTRUN); it changes nothing else and sends nothing to the
    solver, so it requests no interrupt itself.  The mark survives whatever
    the callback calls afterwards, and the exit of the round (reduced-cost or
    Farkas) then requests the interrupt and reports DIDNOTRUN. *)
Theorem injection_handle_error (s : bridge) :
  (forall varId rowIds vals nnz rets,
     scip_instance s = NULL \/ rowIds = None \/ vals = None \/ nnz < 0 \/
     getVarByHandle varId s = NULL \/
     (exists ids i, rowIds = Some ids /\ 0 <= i < nnz /\
                    getRowByHandle (nth (Z.to_nat i) ids 0) s = NULL) ->
     scip_pricer_add_var_to_rows_batch varId rowIds vals nnz rets s
     = (mark_abortround s, -1)) /\
  (forall varId consIds vals nnz rets,
     scip_instance s = NULL \/ consIds = None \/ vals = None \/ nnz < 0 \/
     getVarByHandle varId s = NULL \/
     (exists ids i, consIds = Some ids /\ 0 <= i < nnz /\
                    getConsByHandle (nth (Z.to_nat i) ids 0) s = NULL) ->
     scip_pricer_add_var_to_conss_batch varId consIds vals nnz rets s
     = (mark_abortround s, -1)) /\
  (forall name ret var ret_add ok,
     scip_instance s = NULL \/ name = None ->
     scip_pricer_add_priced_var name ret var ret_add ok s
     = (mark_abortround s, -1)) /\
  (pending_pricer_abortround (mark_abortround s) = true /\
   pending_pricer_result (mark_abortround s) = SCIP_DIDNOTRUN /\
   trace (mark_abortround s) = trace s /\
   interrupts (mark_abortround s) = interrupts s) /\
  (forall rest out result,
     let s' := run_callback rest (mark_abortround s) in
     pending_pricer_abortround s' = true /\
     slot_result (snd (pricerRedcostJs_exit out s'))
     = store (slot_result out) SCIP_DIDNOTRUN /\
     interrupts (fst (pricerRedcostJs_exit out s')) = S (interrupts s') /\
     snd (pricerFarkasJs_exit result s') = store result SCIP_DIDNOTRUN /\
     interrupts (fst (pricerFarkasJs_exit result s')) = S (interrupts s')).
Proof.
  split; [|split; [|split; [|split]]].
  - intros varId rowIds vals nnz rets Herr.
    unfold scip_pricer_add_var_to_rows_batch.
    destruct rowIds as [ids|]; [|reflexivity].
    destruct vals as [vs|]; [|reflexivity].
    destruct ((scip_instance s =? NULL) || (nnz <? 0)) eqn:E1; [reflexivity|].
    apply orb_false_elim in E1. destruct E1 as [Ei En].
    apply Z.eqb_neq in Ei. apply Z.ltb_ge in En.
    destruct (getVarByHandle varId s =? NULL) eqn:Ev; [reflexivity|].
    apply Z.eqb_neq in Ev.
    destruct (existsb (fun rowId => getRowByHandle rowId s =? NULL)
                (array_read ids nnz 0)) eqn:Ex; [reflexivity|].
    exfalso.
    destruct Herr as [E|[E|[E|[E|[E|(ids' & i & E & Hi & Hrow)]]]]];
      try congruence; try lia.
    inversion E; subst ids'.
    assert (Ht : existsb (fun rowId => getRowByHandle rowId s =? NULL)
                   (array_read ids nnz 0) = true).
    { apply existsb_exists. exists (nth (Z.to_nat i) ids 0). split.
      - apply array_read_In, Hi.
      - apply Z.eqb_eq, Hrow. }
    congruence.
  - intros varId consIds vals nnz rets Herr.
    unfold scip_pricer_add_var_to_conss_batch.
    destruct consIds as [ids|]; [|reflexivity].
    destruct vals as [vs|]; [|reflexivity].
    destruct ((scip_instance s =? NULL) || (nnz <? 0)) eqn:E1; [reflexivity|].
    apply orb_false_elim in E1. destruct E1 as [Ei En].
    apply Z.eqb_neq in Ei. apply Z.ltb_ge in En.
    destruct (getVarByHandle varId s =? NULL) eqn:Ev; [reflexivity|].
    apply Z.eqb_neq in Ev.
    destruct (existsb (fun consId => getConsByHandle consId s =? NULL)
                (array_read ids nnz 0)) eqn:Ex; [reflexivity|].
    exfalso.
    destruct Herr as [E|[E|[E|[E|[E|(ids' & i & E & Hi & Hcons)]]]]];
      try congruence; try lia.
    inversion E; subst ids'.
    assert (Ht : existsb (fun consId => getConsByHandle consId s =? NULL)
                   (array_read ids nnz 0) = true).
    { apply existsb_exists. exists (nth (Z.to_nat i) ids 0). split.
      - apply array_read_In, Hi.
      - apply Z.eqb_eq, Hcons. }
    congruence.
  - intros name ret var ret_add ok Herr.
    unfold scip_pricer_add_priced_var.
    destruct Herr as [E | ->].
    + rewrite (proj2 (Z.eqb_eq _ _) E). reflexivity.
    + rewrite orb_true_r. reflexivity.
  - destruct (mark_abortround_effect s) as (Ea & Er & Et).
    split; [exact Ea|]. split; [exact Er|]. split; [exact Et|].
    unfold interrupts. rewrite Et. reflexivity.
  - intros rest out result. cbv zeta.
    assert (Hm : pending_pricer_abortround
                   (run_callback rest (mark_abortround s)) = true).
    { apply (frame_abortround _ _ (run_callback_frame rest _)).
      apply mark_abortround_effect. }
    destruct (pricerRedcostJs_exit_marked out _ Hm) as (R1 & _ & R3).
    destruct (pricerFarkasJs_exit_marked result _ Hm) as (F1 & F2).
    split; [exact Hm|]. split; [exact R1|]. split; [exact R3|].
    split; [exact F1 | exact F2].
Qed.

End Injection.

(** * Further properties of the bridge *)

(** ** Handles *)

Lemma getByHandle_out_of_range id r :
  id <= 0 \/ reg_size r < id -> getByHandle id r = NULL.
Proof.
  intros Hr. unfold getByHandle.
  destruct (id <=? 0) eqn:E1; [reflexivity|].
  destruct (id >? reg_size r) eqn:E2; [reflexivity|]. lia.
Qed.

Lemma getByHandle_in_range id r :
  wf_registry r -> 0 < id <= reg_size r -> getByHandle id r <> NULL.
Proof.
  intros [_ Hnull] Hr.
  assert (Hn : names r id (nth (Z.to_nat (id - 1)) (reg_slots r) NULL))
    by (split; [exact Hr | reflexivity]).
  rewrite (names_resolves _ _ _ Hn). intros E.
  apply Hnull. rewrite <- E. apply (names_In _ _ _ Hn).
Qed.

Section MoreHandles.
Context `{ScipDefs}.

(** X1.  In every reachable state the handles that resolve are exactly
    1, ..., size: a zero, negative or too large handle is not-found, and
    every handle in range resolves to a non-null object.  Without a solver
    instance no handle resolves at all. *)
Theorem resolve_in_range (s : bridge) (k : registry_kind) (id : Z) :
  reachable s ->
  (resolve k id s <> NULL <-> 0 < id <= reg_size (registry_of k s)) /\
  (scip_instance s = NULL -> resolve k id s = NULL).
Proof.
  intros Hr. rewrite resolve_registry_of. split; [split|].
  - intros Hres.
    destruct (Z_le_gt_dec id 0) as [L|G];
      [exfalso; apply Hres, getByHandle_out_of_range; lia|].
    destruct (Z_lt_le_dec (reg_size (registry_of k s)) id) as [L|G'];
      [exfalso; apply Hres, getByHandle_out_of_range; lia|].
    lia.
  - apply getByHandle_in_range, (reachable_wf s Hr).
  - intros Hi. rewrite (reachable_no_instance s Hr Hi k).
    apply getByHandle_empty.
Qed.

(** X2.  The storage of the registries after any sequence of register calls
    from cleared registries: the entries always fit the capacity (the write
    [registry[size] = obj] stays inside the block), and the capacity is 0 or
    64 doubled some number of times, whether or not [realloc] ever
    refused. *)
Theorem registries_capacity (calls : list register_call) (s : bridge)
    (k : registry_kind) :
  capacity_ok (registry_of k (run_registers calls (clearRegistries s))).
Proof.
  assert (G : forall s0,
            (forall k, capacity_ok (registry_of k s0)) ->
            forall k, capacity_ok (registry_of k (run_registers calls s0))).
  { induction calls as [|[[k1 ok] obj] rest IH]; simpl; intros s0 C0;
      [exact C0|].
    apply IH. intros k2.
    destruct (registry_kind_eq_dec k1 k2) as [<-|Hk].
    - rewrite register_same. apply registerHandle_capacity, C0.
    - rewrite register_others by assumption. apply C0. }
  apply G. intros k2. destruct k2; simpl; (split; [cbv; discriminate | left; reflexivity]).
Qed.

Lemma scip_add_var_fresh name var s :
  scip_instance s <> NULL -> var <> NULL ->
  ~ In var (reg_slots (var_registry s)) ->
  let r := scip_add_var (Some name) SCIP_OKAY var SCIP_OKAY true s in
  snd r = reg_size (var_registry s) + 1 /\
  reg_slots (var_registry (fst r)) = reg_slots (var_registry s) ++ [var] /\
  scip_instance (fst r) = scip_instance s.
Proof.
  intros Hi Hv Hfresh. cbv zeta. unfold scip_add_var.
  apply Z.eqb_neq in Hi. apply Z.eqb_neq in Hv.
  rewrite Hi, Hv, Z.eqb_refl. simpl.
  unfold registerVarHandle.
  change (var_registry (emit (SCIPaddVar var) s)) with (var_registry s).
  pose proof (registerHandle_cases true var (var_registry s)) as Hc.
  destruct (registerHandle true var (var_registry s)) as [r id].
  simpl in Hc. simpl.
  destruct Hc as [(_ & _ & [E|[_ E]])|[(_ & _ & Hn)|(_ & _ & Eid & Es)]].
  - apply Z.eqb_neq in Hv. contradiction.
  - discriminate.
  - exfalso. apply Hfresh. apply (names_In _ _ _ Hn).
  - split; [exact Eid|]. split; [exact Es | reflexivity].
Qed.

Lemma add_vars_handles vars s :
  scip_instance s <> NULL ->
  NoDup (reg_slots (var_registry s) ++ vars) -> ~ In NULL vars ->
  snd (add_vars vars s)
  = map Z.of_nat (seq (S (length (reg_slots (var_registry s)))) (length vars)).
Proof.
  revert s. induction vars as [|var rest IH]; intros s Hi Hnd Hnull;
    [reflexivity|].
  simpl add_vars.
  assert (Hv : var <> NULL) by (intros E; apply Hnull; left; exact E).
  assert (Hfresh : ~ In var (reg_slots (var_registry s))).
  { intros Hin. apply NoDup_remove_2 in Hnd. apply Hnd.
    apply in_or_app. left. exact Hin. }
  destruct (scip_add_var_fresh "x" var s Hi Hv Hfresh) as (Eid & Es & Ei).
  destruct (scip_add_var (Some "x"%string) SCIP_OKAY var SCIP_OKAY true s)
    as [s1 id].
  simpl in Eid, Es, Ei.
  assert (IH1 := IH s1).
  rewrite Es in IH1. rewrite <- app_assoc in IH1. simpl in IH1.
  specialize (IH1 ltac:(congruence) Hnd
                  ltac:(intros Hin; apply Hnull; right; exact Hin)).
  destruct (add_vars rest s1) as [s2 ids]. simpl in IH1. simpl.
  rewrite IH1, length_app. simpl. f_equal.
  - rewrite Eid. unfold reg_size. lia.
  - f_equal. f_equal. lia.
Qed.

(** X3.  Handles are issued in order from 1: after scip_problem_begin, the
    variables added one after the other (distinct objects, the solver and
    [realloc] succeeding) receive the handles 1, 2, ..., n. *)
Theorem first_variables_handles (vars : list ptr) (s : bridge)
    (name : option string) (maximize stage stage' rc rs : Z) :
  scip_instance s <> NULL -> NoDup vars -> ~ In NULL vars ->
  snd (add_vars vars
         (fst (scip_problem_begin name maximize stage stage' rc rs s)))
  = first_handles (length vars).
Proof.
  intros Hi Hnd Hnull.
  set (s0 := fst (scip_problem_begin name maximize stage stage' rc rs s)).
  assert (E0 : var_registry s0 = empty_registry)
    by apply (scip_problem_begin_registries name maximize stage stage' rc rs
                s reg_var Hi).
  assert (Hi0 : scip_instance s0 <> NULL).
  { unfold s0, scip_problem_begin.
    rewrite (proj2 (Z.eqb_neq _ _) Hi).
    destruct (clearCurrentProblem_same stage stage' s) as [Ei _].
    revert Ei. generalize (clearCurrentProblem stage stage' s).
    intros s1 Ei. destruct s1. simpl in Ei. simpl.
    destruct (negb (rc =? SCIP_OKAY)); [simpl; congruence|].
    destruct (negb (rs =? SCIP_OKAY)); simpl; congruence. }
  rewrite add_vars_handles; [rewrite E0; reflexivity | exact Hi0 | | exact Hnull].
  rewrite E0. exact Hnd.
Qed.

Lemma exec_api_keeps_instance c s :
  clears c = false -> scip_instance s <> NULL ->
  scip_instance (exec_api c s) <> NULL.
Proof.
  intros Hc Hi. destruct c; try discriminate; unfold exec_api.
  - unfold scip_create. rewrite (proj2 (Z.eqb_neq _ _) Hi). exact Hi.
  - unfold scip_pricer_include.
    destruct ((scip_instance s =? NULL) || is_null name || is_null desc);
      [exact Hi|].
    destruct (negb (js_pricer s =? NULL)); [exact Hi|].
    destruct s; exact Hi.
  - rewrite (hf_instance _ _ (scip_solve_handles hooks retcode status s)).
    exact Hi.
  - rewrite (frame_instance _ _ (exec_call_frame c s)). exact Hi.
Qed.

Lemma run_api_keeps_instance calls s :
  forallb (fun c => negb (clears c)) calls = true ->
  scip_instance s <> NULL -> scip_instance (run_api calls s) <> NULL.
Proof.
  unfold run_api. revert s.
  induction calls as [|c rest IH]; simpl; intros s Hc Hi; [exact Hi|].
  apply andb_prop in Hc. destruct Hc as [Hc Hrest].
  apply negb_true_iff in Hc.
  apply IH; [exact Hrest | apply exec_api_keeps_instance; assumption].
Qed.

(** X4.  Looking a variable or a constraint up by name twice gives the same
    handle: once scip_var_find_id (scip_cons_find_id) has returned a handle
    for the object the solver found, every later lookup that finds the same
    object returns that handle and changes nothing, whatever was called in
    between short of a reset. *)
Theorem find_id_stable (s : bridge) (name name' : string) (obj : ptr)
    (ok ok' : bool) (calls : list api_call) :
  reachable s ->
  forallb (fun c => negb (clears c)) calls = true ->
  (let id := snd (scip_var_find_id (Some name) obj ok s) in
   let s' := run_api calls (fst (scip_var_find_id (Some name) obj ok s)) in
   0 < id -> scip_var_find_id (Some name') obj ok' s' = (s', id)) /\
  (let id := snd (scip_cons_find_id (Some name) obj ok s) in
   let s' := run_api calls (fst (scip_cons_find_id (Some name) obj ok s)) in
   0 < id -> scip_cons_find_id (Some name') obj ok' s' = (s', id)).
Proof.
  intros Hr Hcalls. split; cbv zeta; intros Hpos.
  - assert (Hi : scip_instance s <> NULL).
    { intros E. unfold scip_var_find_id in Hpos.
      rewrite (proj2 (Z.eqb_eq _ _) E) in Hpos. simpl in Hpos. lia. }
    assert (Ef : scip_var_find_id (Some name) obj ok s
                 = register reg_var ok obj s).
    { unfold scip_var_find_id. rewrite (proj2 (Z.eqb_neq _ _) Hi).
      reflexivity. }
    rewrite Ef in *.
    assert (Hr1 : reachable (fst (register reg_var ok obj s))).
    { destruct Hr as [pre ->].
      exists (pre ++ [api_js (call_var_find_id (Some name) obj ok)]).
      unfold run_api. rewrite fold_left_app. cbn [fold_left].
      fold (run_api pre initial_bridge). rewrite <- Ef. reflexivity. }
    assert (Hn : names (registry_of reg_var (fst (register reg_var ok obj s)))
                   (snd (register reg_var ok obj s)) obj).
    { rewrite register_same. rewrite register_snd in *.
      apply registerHandle_names, Hpos. }
    destruct (handles_survive_calls _ calls reg_var _ obj Hr1 Hn Hcalls)
      as [_ Hagain].
    assert (Hi1 : scip_instance (fst (register reg_var ok obj s)) <> NULL)
      by (rewrite (frame_instance _ _ (call_frame_register reg_var ok obj s Hi));
          exact Hi).
    pose proof (run_api_keeps_instance calls _ Hcalls Hi1) as Hi2.
    unfold scip_var_find_id at 1. rewrite (proj2 (Z.eqb_neq _ _) Hi2).
    apply (Hagain ok').
  - assert (Hi : scip_instance s <> NULL).
    { intros E. unfold scip_cons_find_id in Hpos.
      rewrite (proj2 (Z.eqb_eq _ _) E) in Hpos. simpl in Hpos. lia. }
    assert (Ef : scip_cons_find_id (Some name) obj ok s
                 = register reg_cons ok obj s).
    { unfold scip_cons_find_id. rewrite (proj2 (Z.eqb_neq _ _) Hi).
      reflexivity. }
    rewrite Ef in *.
    assert (Hr1 : reachable (fst (register reg_cons ok obj s))).
    { destruct Hr as [pre ->].
      exists (pre ++ [api_js (call_cons_find_id (Some name) obj ok)]).
      unfold run_api. rewrite fold_left_app. cbn [fold_left].
      fold (run_api pre initial_bridge). rewrite <- Ef. reflexivity. }
    assert (Hn : names (registry_of reg_cons (fst (register reg_cons ok obj s)))
                   (snd (register reg_cons ok obj s)) obj).
    { rewrite register_same. rewrite register_snd in *.
      apply registerHandle_names, Hpos. }
    destruct (handles_survive_calls _ calls reg_cons _ obj Hr1 Hn Hcalls)
      as [_ Hagain].
    assert (Hi1 : scip_instance (fst (register reg_cons ok obj s)) <> NULL)
      by (rewrite (frame_instance _ _ (call_frame_register reg_cons ok obj s Hi));
          exact Hi).
    pose proof (run_api_keeps_instance calls _ Hcalls Hi1) as Hi2.
    unfold scip_cons_find_id at 1. rewrite (proj2 (Z.eqb_neq _ _) Hi2).
    apply (Hagain ok').
Qed.

End MoreHandles.

(** ** What a call leaves alone

    A field of the globals that the setters of the registries and of the
    trace do not touch is left alone by every call that only registers; one
    that the setters of the abort mark and of the pending result and
    stop-early do not touch either is left alone by coefficient injection and
    abort-round; and so on for the two column counters. *)

Section FieldFrame.
Context `{ScipDefs} {A : Type} (f : bridge -> A).

Hypothesis f_var : forall r s, f (set_var_registry r s) = f s.
Hypothesis f_cons : forall r s, f (set_cons_registry r s) = f s.
Hypothesis f_row : forall r s, f (set_row_registry r s) = f s.
Hypothesis f_trace : forall t s, f (set_trace t s) = f s.

Lemma field_emit e s : f (emit e s) = f s.
Proof. unfold emit. apply f_trace. Qed.

Lemma field_registerVar ok obj s : f (fst (registerVarHandle ok obj s)) = f s.
Proof.
  unfold registerVarHandle. destruct (registerHandle ok obj _). apply f_var.
Qed.

Lemma field_registerCons ok obj s :
  f (fst (registerConsHandle ok obj s)) = f s.
Proof.
  unfold registerConsHandle. destruct (registerHandle ok obj _). apply f_cons.
Qed.

Lemma field_registerRow ok obj s : f (fst (registerRowHandle ok obj s)) = f s.
Proof.
  unfold registerRowHandle. destruct (registerHandle ok obj _). apply f_row.
Qed.

Lemma field_register_lp_rows rows s : f (fst (register_lp_rows rows s)) = f s.
Proof.
  revert s. induction rows as [|[[row value] ok] rest IH]; intros s;
    [reflexivity|].
  cbn [register_lp_rows].
  specialize (IH (fst (registerRowHandle ok row s))).
  destruct (register_lp_rows rest (fst (registerRowHandle ok row s))).
  cbn [fst] in *. rewrite IH. apply field_registerRow.
Qed.

Lemma field_lp_row_values_batch out n stage constructed nlprows rows s :
  f (fst (fst (lp_row_values_batch out n stage constructed nlprows rows s)))
  = f s.
Proof.
  unfold lp_row_values_batch.
  destruct ((scip_instance s =? NULL) || is_null out || (n <=? 0));
    [reflexivity|].
  destruct (scip_ctx_get_n_lp_rows stage constructed nlprows s <=? 0);
    [reflexivity|].
  match goal with
  | |- context [register_lp_rows ?l s] =>
      pose proof (field_register_lp_rows l s) as L;
      destruct (register_lp_rows l s)
  end.
  exact L.
Qed.

Lemma field_scip_cons_get_row consId row ok s :
  f (fst (scip_cons_get_row consId row ok s)) = f s.
Proof.
  unfold scip_cons_get_row.
  repeat (split_if; [reflexivity|]). apply field_registerRow.
Qed.

Lemma field_registers_only c s :
  registers_only c = true -> f (exec_call c s) = f s.
Proof.
  destruct c; try discriminate; intros _; cbn [exec_call].
  - unfold scip_add_cons_linear.
    repeat (split_if; cbn [fst]; [rewrite ?field_emit; reflexivity|]).
    pose proof (field_registerCons realloc_ok cons (emit (SCIPaddCons cons) s))
      as L.
    destruct (registerConsHandle realloc_ok cons (emit (SCIPaddCons cons) s)).
    cbn [fst] in *. rewrite field_emit, L, field_emit. reflexivity.
  - unfold scip_add_var.
    repeat (split_if; cbn [fst]; [rewrite ?field_emit; reflexivity|]).
    pose proof (field_registerVar realloc_ok var (emit (SCIPaddVar var) s))
      as L.
    destruct (registerVarHandle realloc_ok var (emit (SCIPaddVar var) s)).
    cbn [fst] in *. rewrite field_emit, L, field_emit. reflexivity.
  - unfold scip_var_find_id. split_if; [reflexivity|].
    apply field_registerVar.
  - unfold scip_cons_find_id. split_if; [reflexivity|].
    apply field_registerCons.
  - unfold scip_var_get_transformed.
    repeat (split_if; [reflexivity|]). apply field_registerVar.
  - unfold scip_cons_get_transformed.
    repeat (split_if; [reflexivity|]). apply field_registerCons.
  - apply field_scip_cons_get_row.
  - unfold scip_cons_is_in_lp.
    pose proof (field_scip_cons_get_row consId row realloc_ok s) as L.
    destruct (scip_cons_get_row consId row realloc_ok s).
    cbn [fst] in L. repeat split_if; exact L.
  - apply field_lp_row_values_batch.
  - apply field_lp_row_values_batch.
Qed.

Hypothesis f_abortround :
  forall b s, f (set_pending_pricer_abortround b s) = f s.
Hypothesis f_result : forall r s, f (set_pending_pricer_result r s) = f s.
Hypothesis f_stopearly :
  forall b s, f (set_pending_pricer_stopearly b s) = f s.

Lemma field_mark_abortround s : f (mark_abortround s) = f s.
Proof. unfold mark_abortround. rewrite f_result, f_abortround. reflexivity. Qed.

Lemma field_add_var_to_rows rets i var entries s :
  f (fst (add_var_to_rows rets i var entries s)) = f s.
Proof.
  revert i s. induction entries as [|[rowId val] rest IH]; intros i s;
    [reflexivity|].
  cbn [add_var_to_rows]. split_if; cbn [fst].
  - rewrite field_emit, f_stopearly, field_mark_abortround, field_emit.
    reflexivity.
  - rewrite IH. apply field_emit.
Qed.

Lemma field_add_var_to_conss rets i var entries s :
  f (fst (add_var_to_conss rets i var entries s)) = f s.
Proof.
  revert i s. induction entries as [|[consId val] rest IH]; intros i s;
    [reflexivity|].
  cbn [add_var_to_conss]. split_if; cbn [fst].
  - rewrite field_emit, f_stopearly, field_mark_abortround, field_emit.
    reflexivity.
  - rewrite IH. apply field_emit.
Qed.

Lemma field_coefficient_injection c s :
  marks_round c = true ->
  (forall name ret var ret_add ok,
     c <> call_pricer_add_priced_var name ret var ret_add ok) ->
  f (exec_call c s) = f s.
Proof.
  destruct c; try discriminate; intros _ Hc; cbn [exec_call].
  - unfold scip_pricer_add_var_to_rows_batch.
    destruct rowIds, vals; cbn [fst]; try apply field_mark_abortround.
    repeat (split_if; cbn [fst]; [apply field_mark_abortround|]).
    apply field_add_var_to_rows.
  - unfold scip_pricer_add_var_to_conss_batch.
    destruct consIds, vals; cbn [fst]; try apply field_mark_abortround.
    repeat (split_if; cbn [fst]; [apply field_mark_abortround|]).
    apply field_add_var_to_conss.
  - exfalso. eapply Hc. reflexivity.
  - unfold scip_pricer_abort_round.
    split_if; rewrite ?field_emit, f_stopearly, f_result, f_abortround;
      reflexivity.
Qed.

Hypothesis f_priced : forall n s, f (set_priced_vars_added n s) = f s.
Hypothesis f_added : forall n s, f (set_added_vars_this_call n s) = f s.

Lemma field_add_priced_var name ret var ret_add ok s :
  f (fst (scip_pricer_add_priced_var name ret var ret_add ok s)) = f s.
Proof.
  unfold scip_pricer_add_priced_var.
  repeat (split_if; cbn [fst];
          [rewrite ?field_emit, ?field_mark_abortround, ?field_emit;
           reflexivity|]).
  pose proof (field_registerVar ok var (emit (SCIPaddPricedVar var) s)) as L.
  destruct (registerVarHandle ok var (emit (SCIPaddPricedVar var) s)).
  cbn [fst] in *.
  rewrite field_emit, f_added, f_priced, L, field_emit. reflexivity.
Qed.

(** Every call that is not one of the plain setters. *)
Lemma field_not_setter c s :
  registers_only c || marks_round c = true -> f (exec_call c s) = f s.
Proof.
  intros Hc. apply orb_prop in Hc. destruct Hc as [Hc|Hc].
  - apply field_registers_only, Hc.
  - destruct c; try discriminate.
    + apply field_coefficient_injection; [reflexivity | discriminate].
    + apply field_coefficient_injection; [reflexivity | discriminate].
    + apply field_add_priced_var.
    + apply field_coefficient_injection; [reflexivity | discriminate].
Qed.

End FieldFrame.

(** ** Pricing rounds, continued *)

(** The hypotheses of [FieldFrame] for a projection of the globals. *)
Ltac field_hyps :=
  try (let s := fresh "s" in intros ? s; destruct s; reflexivity).

Section MoreRounds.
Context `{ScipDefs}.

Lemma exec_call_mode c s :
  current_pricing_mode (exec_call c s) = current_pricing_mode s.
Proof.
  destruct (registers_only c || marks_round c) eqn:E.
  - apply field_not_setter; [field_hyps .. | exact E].
  - destruct c; try discriminate; destruct s; reflexivity.
Qed.

Lemma run_callback_mode body s :
  current_pricing_mode (run_callback body s) = current_pricing_mode s.
Proof.
  revert s. induction body as [|c rest IH]; simpl; intros s; [reflexivity|].
  rewrite IH. apply exec_call_mode.
Qed.

Lemma callout_mode flag e handler s :
  current_pricing_mode (callout flag e handler s) = current_pricing_mode s.
Proof.
  destruct (callout_cases flag e handler s) as [->|(_ & body & _ & ->)];
    [reflexivity|].
  rewrite run_callback_mode. destruct s; reflexivity.
Qed.

Lemma callout_counters flag e handler s :
  pricer_redcost_calls (callout flag e handler s) = pricer_redcost_calls s /\
  pricer_farkas_calls (callout flag e handler s) = pricer_farkas_calls s /\
  pricer_round (callout flag e handler s) = pricer_round s.
Proof.
  destruct (callout_cases flag e handler s) as [->|(_ & body & _ & ->)];
    [repeat split|].
  pose proof (run_callback_frame body (emit e s)) as F.
  rewrite (frame_redcost_calls _ _ F), (frame_farkas_calls _ _ F),
    (frame_round _ _ F).
  destruct s. repeat split.
Qed.

Lemma pricerRedcostJs_counters handler out s :
  let s' := fst (pricerRedcostJs handler out s) in
  pricer_redcost_calls s' = int_wrap (pricer_redcost_calls s + 1) /\
  pricer_farkas_calls s' = pricer_farkas_calls s /\
  pricer_round s' = int_wrap (pricer_round s + 1).
Proof.
  cbv zeta. unfold pricerRedcostJs.
  destruct (pricerRedcostJs_exit_counters out
              (callout (js_pricer_redcost_callback (pricerRedcostJs_enter s))
                 Module_onPricerRedcost handler (pricerRedcostJs_enter s)))
    as (-> & -> & ->).
  destruct (callout_counters
              (js_pricer_redcost_callback (pricerRedcostJs_enter s))
              Module_onPricerRedcost handler (pricerRedcostJs_enter s))
    as (-> & -> & ->).
  apply pricerRedcostJs_enter_counters.
Qed.

Lemma pricerFarkasJs_enter_counters s :
  pricer_redcost_calls (pricerFarkasJs_enter s) = pricer_redcost_calls s /\
  pricer_farkas_calls (pricerFarkasJs_enter s)
  = int_wrap (pricer_farkas_calls s + 1) /\
  pricer_round (pricerFarkasJs_enter s) = int_wrap (pricer_round s + 1).
Proof. destruct s. split; [reflexivity|]. split; reflexivity. Qed.

Lemma pricerFarkasJs_exit_counters result s :
  pricer_redcost_calls (fst (pricerFarkasJs_exit result s))
  = pricer_redcost_calls s /\
  pricer_farkas_calls (fst (pricerFarkasJs_exit result s))
  = pricer_farkas_calls s /\
  pricer_round (fst (pricerFarkasJs_exit result s)) = pricer_round s.
Proof.
  unfold pricerFarkasJs_exit. destruct s. simpl.
  destruct pending_pricer_abortround0; simpl;
    (split; [reflexivity|]; split; reflexivity).
Qed.

Lemma pricerFarkasJs_counters has_lp handler result s :
  let s' := fst (pricerFarkasJs has_lp handler result s) in
  pricer_redcost_calls s' = pricer_redcost_calls s /\
  pricer_farkas_calls s' = int_wrap (pricer_farkas_calls s + 1) /\
  pricer_round s' = int_wrap (pricer_round s + 1).
Proof.
  cbv zeta. unfold pricerFarkasJs.
  destruct has_lp; simpl negb; cbv iota.
  - destruct (pricerFarkasJs_exit_counters result
                (callout (js_pricer_farkas_callback (pricerFarkasJs_enter s))
                   Module_onPricerFarkas handler (pricerFarkasJs_enter s)))
      as (-> & -> & ->).
    destruct (callout_counters
                (js_pricer_farkas_callback (pricerFarkasJs_enter s))
                Module_onPricerFarkas handler (pricerFarkasJs_enter s))
      as (-> & -> & ->).
    apply pricerFarkasJs_enter_counters.
  - destruct (pricerFarkasJs_enter_counters s) as (E1 & E2 & E3).
    revert E1 E2 E3. generalize (pricerFarkasJs_enter s).
    intros s1 E1 E2 E3. destruct s1. simpl in *.
    split; [exact E1|]. split; [exact E2 | exact E3].
Qed.

(** X6.  One Farkas invocation, with or without LP, whatever handler is
    installed and whatever round operations it calls, adds one to the
    Farkas-call counter and to the round counter in 32-bit arithmetic (a
    counter below [int_max] grows by one, a counter at [int_max] goes to
    [int_min]) and leaves the redcost-call counter alone; a reduced-cost
    invocation leaves the Farkas-call counter alone. *)
Theorem farkas_round_counters (has_lp : bool)
    (handler : option (list js_call)) (result : option Z)
    (out : redcost_slots) (s : bridge) :
  let s' := fst (pricerFarkasJs has_lp handler result s) in
  let f := scip_pricer_get_farkas_calls s in
  let r := scip_pricer_get_round s in
  (scip_pricer_get_farkas_calls s' = int_wrap (f + 1) /\
   scip_pricer_get_round s' = int_wrap (r + 1)) /\
  (int_min <= f < int_max -> scip_pricer_get_farkas_calls s' = f + 1) /\
  (int_min <= r < int_max -> scip_pricer_get_round s' = r + 1) /\
  (f = int_max -> scip_pricer_get_farkas_calls s' = int_min) /\
  (r = int_max -> scip_pricer_get_round s' = int_min) /\
  scip_pricer_get_redcost_calls s' = scip_pricer_get_redcost_calls s /\
  scip_pricer_get_farkas_calls (fst (pricerRedcostJs handler out s))
  = scip_pricer_get_farkas_calls s.
Proof.
  cbv zeta.
  unfold scip_pricer_get_farkas_calls, scip_pricer_get_round,
    scip_pricer_get_redcost_calls.
  destruct (pricerFarkasJs_counters has_lp handler result s) as (A1 & A2 & A3).
  destruct (pricerRedcostJs_counters handler out s) as (_ & B2 & _).
  split; [split; [exact A2 | exact A3]|].
  split; [intros Hf; rewrite A2; apply int_wrap_id;
          unfold int_min, int_max in *; lia|].
  split; [intros Hr; rewrite A3; apply int_wrap_id;
          unfold int_min, int_max in *; lia|].
  split; [intros Hf; rewrite A2, Hf; apply int_wrap_succ_max|].
  split; [intros Hr; rewrite A3, Hr; apply int_wrap_succ_max|].
  split; [exact A1 | exact B2].
Qed.

Lemma counters_agree_same s s' :
  pricer_redcost_calls s' = pricer_redcost_calls s ->
  pricer_farkas_calls s' = pricer_farkas_calls s ->
  pricer_round s' = pricer_round s ->
  counters_agree s -> counters_agree s'.
Proof. unfold counters_agree. intros -> -> ->. exact (fun A => A). Qed.

Lemma counters_agree_zero s :
  pricer_redcost_calls s = 0 -> pricer_farkas_calls s = 0 ->
  pricer_round s = 0 -> counters_agree s.
Proof.
  unfold counters_agree, is_int, int_min, int_max. intros -> -> ->.
  split; [lia|]. split; [lia|]. split; [lia | reflexivity].
Qed.

Lemma run_hook_counters h s : counters_agree s -> counters_agree (run_hook h s).
Proof.
  intros Inv. destruct h; unfold run_hook.
  - unfold eventExecBestSol. destruct (negb (sol =? NULL)); [|exact Inv].
    destruct (callout_counters (js_incumbent_callback s)
                (Module_onIncumbent objval)
                (option_map (fun h => h objval) onIncumbent) s)
      as (E1 & E2 & E3).
    exact (counters_agree_same _ _ E1 E2 E3 Inv).
  - destruct (pricerRedcostJs_counters onPricerRedcost out s)
      as (E1 & E2 & E3).
    destruct Inv as (I1 & I2 & I3 & I4). unfold counters_agree.
    rewrite E1, E2, E3.
    split; [apply int_wrap_is_int|]. split; [exact I2|].
    split; [apply int_wrap_is_int|].
    rewrite I4, !int_wrap_add_l. f_equal. lia.
  - destruct (pricerFarkasJs_counters has_lp onPricerFarkas result s)
      as (E1 & E2 & E3).
    destruct Inv as (I1 & I2 & I3 & I4). unfold counters_agree.
    rewrite E1, E2, E3.
    split; [exact I1|]. split; [apply int_wrap_is_int|].
    split; [apply int_wrap_is_int|].
    rewrite I4, int_wrap_add_l, int_wrap_add_r. f_equal. lia.
Qed.

Lemma run_hooks_counters hooks s :
  counters_agree s ->
  counters_agree (fold_left (fun s h => run_hook h s) hooks s).
Proof.
  revert s. induction hooks as [|h rest IH]; simpl; intros s I0; [exact I0|].
  apply IH, run_hook_counters, I0.
Qed.

Lemma reset_counters_agree s : counters_agree (resetPricingState s).
Proof. apply counters_agree_zero; destruct s; reflexivity. Qed.

Lemma exec_api_counters c s : counters_agree s -> counters_agree (exec_api c s).
Proof.
  intros Inv.
  destruct (no_reset_no_solve c) eqn:Q.
  { destruct (exec_api_keeps_counters c s Q) as (E1 & E2 & E3).
    exact (counters_agree_same _ _ E1 E2 E3 Inv). }
  destruct c; try discriminate; unfold exec_api.
  - unfold scip_free. destruct (negb (scip_instance s =? NULL)).
    + generalize (clearCurrentProblem stage stage' s). intros s1.
      apply counters_agree_zero; destruct s1; reflexivity.
    + apply counters_agree_zero; destruct s; reflexivity.
  - unfold scip_problem_clear. destruct (scip_instance s =? NULL);
      [exact Inv|].
    generalize (clearCurrentProblem stage stage' s). intros s1.
    apply counters_agree_zero; destruct s1; reflexivity.
  - unfold scip_problem_begin. destruct (scip_instance s =? NULL);
      [exact Inv|].
    generalize (clearCurrentProblem stage stage' s). intros s1.
    destruct (negb (ret_create =? SCIP_OKAY));
      [apply counters_agree_zero; destruct s1; reflexivity|].
    destruct (negb (ret_sense =? SCIP_OKAY));
      apply counters_agree_zero; destruct s1; reflexivity.
  - destruct (scip_reset_counters stage stage' s) as (E1 & E2 & E3).
    apply counters_agree_zero; assumption.
  - unfold scip_solve. destruct (scip_instance s =? NULL); [exact Inv|].
    assert (I1 := run_hooks_counters hooks
                    (s |> set_current_pricing_mode 0
                       |> set_added_vars_this_call 0)
                    ltac:(apply (counters_agree_same s);
                          [destruct s; reflexivity .. | exact Inv])).
    repeat match goal with
           | |- context [if ?b then (?x, _) else _] => destruct b; cbn [fst]
           end; exact I1.
Qed.

Lemma reachable_counters_agree s : reachable s -> counters_agree s.
Proof.
  intros [calls ->]. unfold run_api.
  assert (G : forall s0, counters_agree s0 ->
              counters_agree (fold_left (fun s c => exec_api c s) calls s0)).
  { induction calls as [|c rest IH]; simpl; intros s0 I0; [exact I0|].
    apply IH, exec_api_counters, I0. }
  apply G. apply counters_agree_zero; reflexivity.
Qed.

(** X7.  In every state reached by top-level calls, solves with their hooks
    and callbacks of round operations included, the three round counters
    are C ints and the round counter is the sum of the two call counters in
    32-bit arithmetic; it is their sum exactly whenever that sum is an int.
    Every pricing invocation counts once as a round and once under its kind,
    and the resets clear all three together. *)
Theorem round_counter_is_sum (s : bridge) :
  reachable s ->
  let n := scip_pricer_get_redcost_calls s in
  let f := scip_pricer_get_farkas_calls s in
  (is_int n /\ is_int f /\ is_int (scip_pricer_get_round s)) /\
  scip_pricer_get_round s = int_wrap (n + f) /\
  (is_int (n + f) -> scip_pricer_get_round s = n + f).
Proof.
  intros Hr. cbv zeta.
  unfold scip_pricer_get_round, scip_pricer_get_redcost_calls,
    scip_pricer_get_farkas_calls.
  destruct (reachable_counters_agree s Hr) as (I1 & I2 & I3 & I4).
  split; [split; [exact I1|]; split; [exact I2 | exact I3]|].
  split; [exact I4|].
  intros Hs. rewrite I4. apply int_wrap_id, Hs.
Qed.

Lemma exec_call_columns c s :
  scip_instance s <> NULL ->
  added_vars_this_call (exec_call c s)
  = added_vars_this_call s + (if adds_column c then 1 else 0) /\
  priced_vars_added (exec_call c s)
  = priced_vars_added s + (if adds_column c then 1 else 0).
Proof.
  intros Hi.
  destruct (registers_only c) eqn:R.
  { rewrite (field_registers_only added_vars_this_call), 
      (field_registers_only priced_vars_added); [|field_hyps .. | exact R];
      [|field_hyps .. | exact R].
    destruct c; try discriminate; simpl; lia. }
  destruct (marks_round c) eqn:M.
  - destruct c; try discriminate.
    + rewrite (field_coefficient_injection added_vars_this_call),
        (field_coefficient_injection priced_vars_added);
        [|field_hyps .. | reflexivity | discriminate];
        [|field_hyps .. | reflexivity | discriminate].
      simpl; lia.
    + rewrite (field_coefficient_injection added_vars_this_call),
        (field_coefficient_injection priced_vars_added);
        [|field_hyps .. | reflexivity | discriminate];
        [|field_hyps .. | reflexivity | discriminate].
      simpl; lia.
    + cbn [exec_call adds_column]. unfold scip_pricer_add_priced_var.
      apply Z.eqb_neq in Hi. rewrite Hi. cbn [orb].
      destruct name as [name|]; cbn [is_null negb andb fst];
        [|destruct s; simpl; lia].
      destruct (ret =? SCIP_OKAY); cbn [negb andb orb fst];
        [|destruct s; simpl; lia].
      destruct (var =? NULL); cbn [negb andb orb fst];
        [destruct s; simpl; lia|].
      destruct (ret_add =? SCIP_OKAY); cbn [negb andb orb fst];
        [|destruct s; simpl; lia].
      pose proof (field_registerVar added_vars_this_call
                    ltac:(field_hyps)
                    realloc_ok var (emit (SCIPaddPricedVar var) s)) as L1.
      pose proof (field_registerVar priced_vars_added
                    ltac:(field_hyps)
                    realloc_ok var (emit (SCIPaddPricedVar var) s)) as L2.
      destruct (registerVarHandle realloc_ok var
                  (emit (SCIPaddPricedVar var) s)) as [s1 id].
      cbn [fst] in *. destruct s1, s. simpl in *. subst. split; reflexivity.
    + rewrite (field_coefficient_injection added_vars_this_call),
        (field_coefficient_injection priced_vars_added);
        [|field_hyps .. | reflexivity | discriminate];
        [|field_hyps .. | reflexivity | discriminate].
      simpl; lia.
  - destruct c; try discriminate; destruct s; simpl; lia.
Qed.

Lemma run_callback_columns body s :
  scip_instance s <> NULL ->
  added_vars_this_call (run_callback body s)
  = added_vars_this_call s + columns_added body /\
  priced_vars_added (run_callback body s)
  = priced_vars_added s + columns_added body.
Proof.
  revert s. unfold columns_added.
  induction body as [|c rest IH]; intros s Hi.
  - simpl. lia.
  - change (run_callback (c :: rest) s) with (run_callback rest (exec_call c s)).
    assert (Hi' : scip_instance (exec_call c s) <> NULL).
    { rewrite (frame_instance _ _ (exec_call_frame c s)). exact Hi. }
    destruct (IH _ Hi') as [-> ->].
    destruct (exec_call_columns c s Hi) as [-> ->].
    cbn [filter]. destruct (adds_column c); cbn [length]; lia.
Qed.

(** X8.  The columns of a round are counted: with a solver instance in
    place, after a pricing round whose callback ran, addedVarsThisCall is the
    number of add-priced-var calls of that callback which the solver accepted
    (whether or not a handle could be issued for the column), and the running
    total has grown by the same number.  Columns of earlier rounds do not
    count: the per-round counter restarts at every round. *)
Theorem priced_columns_counted (body : list js_call) (out : redcost_slots)
    (result : option Z) (s : bridge) :
  scip_instance s <> NULL ->
  (js_pricer_redcost_callback s <> 0 ->
   let s' := fst (pricerRedcostJs (Some body) out s) in
   scip_pricer_get_n_added_vars_this_call s' = columns_added body /\
   scip_pricer_get_n_added_vars s'
   = scip_pricer_get_n_added_vars s + columns_added body) /\
  (js_pricer_farkas_callback s <> 0 ->
   let s' := fst (pricerFarkasJs true (Some body) result s) in
   scip_pricer_get_n_added_vars_this_call s' = columns_added body /\
   scip_pricer_get_n_added_vars s'
   = scip_pricer_get_n_added_vars s + columns_added body).
Proof.
  intros Hi.
  unfold scip_pricer_get_n_added_vars_this_call, scip_pricer_get_n_added_vars.
  split; intros Hf; cbv zeta.
  - unfold pricerRedcostJs.
    replace (js_pricer_redcost_callback (pricerRedcostJs_enter s))
      with (js_pricer_redcost_callback s) by (destruct s; reflexivity).
    rewrite callout_enabled by exact Hf.
    destruct (run_callback_columns body
                (emit Module_onPricerRedcost (pricerRedcostJs_enter s)))
      as [E1 E2]; [destruct s; exact Hi|].
    replace (added_vars_this_call
               (emit Module_onPricerRedcost (pricerRedcostJs_enter s)))
      with 0 in E1 by (destruct s; reflexivity).
    replace (priced_vars_added
               (emit Module_onPricerRedcost (pricerRedcostJs_enter s)))
      with (priced_vars_added s) in E2 by (destruct s; reflexivity).
    revert E1 E2.
    generalize (run_callback body
                  (emit Module_onPricerRedcost (pricerRedcostJs_enter s))).
    intros s2 E1 E2. destruct s2. simpl in E1, E2. subst.
    unfold pricerRedcostJs_exit. simpl.
    destruct pending_pricer_abortround0; simpl; split; reflexivity.
  - unfold pricerFarkasJs. simpl negb. cbv iota.
    replace (js_pricer_farkas_callback (pricerFarkasJs_enter s))
      with (js_pricer_farkas_callback s) by (destruct s; reflexivity).
    rewrite callout_enabled by exact Hf.
    destruct (run_callback_columns body
                (emit Module_onPricerFarkas (pricerFarkasJs_enter s)))
      as [E1 E2]; [destruct s; exact Hi|].
    replace (added_vars_this_call
               (emit Module_onPricerFarkas (pricerFarkasJs_enter s)))
      with 0 in E1 by (destruct s; reflexivity).
    replace (priced_vars_added
               (emit Module_onPricerFarkas (pricerFarkasJs_enter s)))
      with (priced_vars_added s) in E2 by (destruct s; reflexivity).
    revert E1 E2.
    generalize (run_callback body
                  (emit Module_onPricerFarkas (pricerFarkasJs_enter s))).
    intros s2 E1 E2. destruct s2. simpl in E1, E2. subst.
    unfold pricerFarkasJs_exit. simpl.
    destruct pending_pricer_abortround0; simpl; split; reflexivity.
Qed.

Lemma interrupts_registers_only c s :
  registers_only c = true -> interrupts (exec_call c s) = interrupts s.
Proof.
  pose proof (field_registerVar interrupts ltac:(field_hyps)) as RV.
  pose proof (field_registerCons interrupts ltac:(field_hyps)) as RC.
  pose proof (field_registerRow interrupts ltac:(field_hyps)) as RR.
  pose proof (field_scip_cons_get_row interrupts ltac:(field_hyps)) as GR.
  pose proof (field_lp_row_values_batch interrupts ltac:(field_hyps)) as LP.
  destruct c; try discriminate; intros _; cbn [exec_call].
  - unfold scip_add_cons_linear.
    repeat (split_if; cbn [fst];
            [rewrite ?interrupts_emit; simpl; lia|]).
    specialize (RC realloc_ok cons (emit (SCIPaddCons cons) s)).
    destruct (registerConsHandle realloc_ok cons (emit (SCIPaddCons cons) s)).
    cbn [fst] in *. rewrite interrupts_emit, RC, interrupts_emit. simpl. lia.
  - unfold scip_add_var.
    repeat (split_if; cbn [fst];
            [rewrite ?interrupts_emit; simpl; lia|]).
    specialize (RV realloc_ok var (emit (SCIPaddVar var) s)).
    destruct (registerVarHandle realloc_ok var (emit (SCIPaddVar var) s)).
    cbn [fst] in *. rewrite interrupts_emit, RV, interrupts_emit. simpl. lia.
  - unfold scip_var_find_id. split_if; [reflexivity|]. apply RV.
  - unfold scip_cons_find_id. split_if; [reflexivity|]. apply RC.
  - unfold scip_var_get_transformed.
    repeat (split_if; [reflexivity|]). apply RV.
  - unfold scip_cons_get_transformed.
    repeat (split_if; [reflexivity|]). apply RC.
  - apply GR.
  - unfold scip_cons_is_in_lp.
    specialize (GR consId row realloc_ok s).
    destruct (scip_cons_get_row consId row realloc_ok s).
    cbn [fst] in GR. repeat split_if; exact GR.
  - apply LP.
  - apply LP.
Qed.

Lemma exec_call_clean c s :
  scip_instance s <> NULL -> keeps_round c = true ->
  pending_pricer_abortround (exec_call c s) = pending_pricer_abortround s /\
  interrupts (exec_call c s) = interrupts s /\
  pending_pricer_result (exec_call c s)
  = match c with
    | call_pricer_set_result r => r
    | _ => pending_pricer_result s
    end /\
  pending_pricer_stopearly (exec_call c s)
  = match c with
    | call_pricer_set_stopearly v => negb (v =? 0)
    | _ => pending_pricer_stopearly s
    end.
Proof.
  intros Hi Hc. unfold keeps_round in Hc.
  destruct (registers_only c) eqn:R.
  { rewrite (field_registers_only pending_pricer_abortround),
      (field_registers_only pending_pricer_result),
      (field_registers_only pending_pricer_stopearly),
      (interrupts_registers_only c s R);
      [|field_hyps .. | exact R]; [|field_hyps .. | exact R];
      [|field_hyps .. | exact R].
    destruct c; try discriminate; repeat split. }
  destruct (marks_round c) eqn:M.
  - cbn [negb orb] in Hc.
    destruct c; try discriminate.
    cbn [adds_column] in Hc.
    apply andb_prop in Hc. destruct Hc as [Hc Ha].
    apply andb_prop in Hc. destruct Hc as [Hc Hv].
    apply andb_prop in Hc. destruct Hc as [Hn Hr].
    cbn [exec_call]. unfold scip_pricer_add_priced_var.
    apply Z.eqb_neq in Hi. rewrite Hi, Hr, Ha.
    apply negb_true_iff in Hn, Hv. rewrite Hn, Hv.
    cbn [orb negb].
    pose proof (field_registerVar pending_pricer_abortround ltac:(field_hyps)
                  realloc_ok var (emit (SCIPaddPricedVar var) s)) as L1.
    pose proof (field_registerVar pending_pricer_result ltac:(field_hyps)
                  realloc_ok var (emit (SCIPaddPricedVar var) s)) as L2.
    pose proof (field_registerVar pending_pricer_stopearly ltac:(field_hyps)
                  realloc_ok var (emit (SCIPaddPricedVar var) s)) as L3.
    pose proof (field_registerVar interrupts ltac:(field_hyps)
                  realloc_ok var (emit (SCIPaddPricedVar var) s)) as L4.
    rewrite interrupts_emit in L4.
    destruct (registerVarHandle realloc_ok var
                (emit (SCIPaddPricedVar var) s)) as [s1 id].
    cbn [fst] in *. rewrite interrupts_emit.
    split; [destruct s1, s; exact L1|].
    split; [|split; [destruct s1, s; exact L2 | destruct s1, s; exact L3]].
    replace (interrupts
               (set_added_vars_this_call (added_vars_this_call s1 + 1)
                  (set_priced_vars_added (priced_vars_added s1 + 1) s1)))
      with (interrupts s1) by (destruct s1; reflexivity).
    rewrite L4. simpl. lia.
  - destruct c; try discriminate; destruct s; repeat split.
Qed.

Lemma run_callback_clean body s :
  scip_instance s <> NULL -> forallb keeps_round body = true ->
  pending_pricer_abortround (run_callback body s)
  = pending_pricer_abortround s /\
  interrupts (run_callback body s) = interrupts s /\
  pending_pricer_result (run_callback body s)
  = or_default (last_result body) (pending_pricer_result s) /\
  pending_pricer_stopearly (run_callback body s)
  = or_default (last_stopearly body) (pending_pricer_stopearly s).
Proof.
  revert s. induction body as [|c rest IH]; intros s Hi Hb.
  - repeat split.
  - change (run_callback (c :: rest) s) with (run_callback rest (exec_call c s)).
    cbn [forallb] in Hb. apply andb_prop in Hb. destruct Hb as [Hc Hb].
    assert (Hi' : scip_instance (exec_call c s) <> NULL).
    { rewrite (frame_instance _ _ (exec_call_frame c s)). exact Hi. }
    destruct (IH _ Hi' Hb) as (-> & -> & -> & ->).
    destruct (exec_call_clean c s Hi Hc) as (-> & -> & -> & ->).
    split; [reflexivity|]. split; [reflexivity|].
    cbn [last_result last_stopearly].
    split.
    + destruct (last_result rest); [reflexivity|]. destruct c; reflexivity.
    + destruct (last_stopearly rest); [reflexivity|]. destruct c; reflexivity.
Qed.

(** X9.  A round that nothing aborts reports what the callback set last.
    With a solver instance in place, let the callback make no abort-round
    call and no column injection other than add-priced-var calls the solver
    accepts.  Then the solver is handed the argument of the last set-result
    call (SCIP_SUCCESS if there is none) and, in a reduced-cost round, that of
    the last set-stopearly call (false if there is none); the same result is
    the one get-last-result reports; and no interrupt is requested. *)
Theorem clean_round_reports_settings (body : list js_call)
    (out : redcost_slots) (result : option Z) (s : bridge) :
  scip_instance s <> NULL ->
  forallb keeps_round body = true ->
  (js_pricer_redcost_callback s <> 0 ->
   let s' := fst (pricerRedcostJs (Some body) out s) in
   let out' := snd (pricerRedcostJs (Some body) out s) in
   slot_result out'
   = store (slot_result out) (or_default (last_result body) SCIP_SUCCESS) /\
   slot_stopearly out'
   = store (slot_stopearly out) (or_default (last_stopearly body) false) /\
   scip_pricer_get_last_result s'
   = or_default (last_result body) SCIP_SUCCESS /\
   interrupts s' = interrupts s) /\
  (js_pricer_farkas_callback s <> 0 ->
   let s' := fst (pricerFarkasJs true (Some body) result s) in
   let result' := snd (pricerFarkasJs true (Some body) result s) in
   result' = store result (or_default (last_result body) SCIP_SUCCESS) /\
   scip_pricer_get_last_result s'
   = or_default (last_result body) SCIP_SUCCESS /\
   interrupts s' = interrupts s).
Proof.
  intros Hi Hb. unfold scip_pricer_get_last_result.
  split; intros Hf; cbv zeta.
  - unfold pricerRedcostJs.
    replace (js_pricer_redcost_callback (pricerRedcostJs_enter s))
      with (js_pricer_redcost_callback s) by (destruct s; reflexivity).
    rewrite callout_enabled by exact Hf.
    destruct (run_callback_clean body
                (emit Module_onPricerRedcost (pricerRedcostJs_enter s)))
      as (E1 & E2 & E3 & E4); [destruct s; exact Hi | exact Hb |].
    replace (pending_pricer_abortround
               (emit Module_onPricerRedcost (pricerRedcostJs_enter s)))
      with false in E1 by (destruct s; reflexivity).
    replace (pending_pricer_result
               (emit Module_onPricerRedcost (pricerRedcostJs_enter s)))
      with SCIP_SUCCESS in E3 by (destruct s; reflexivity).
    replace (pending_pricer_stopearly
               (emit Module_onPricerRedcost (pricerRedcostJs_enter s)))
      with false in E4 by (destruct s; reflexivity).
    rewrite interrupts_emit in E2.
    replace (interrupts (pricerRedcostJs_enter s)) with (interrupts s) in E2
      by (destruct s; reflexivity).
    cbn [is_interrupt] in E2. rewrite Nat.add_0_r in E2.
    revert E1 E2 E3 E4.
    generalize (or_default (last_result body) SCIP_SUCCESS).
    generalize (or_default (last_stopearly body) false).
    generalize (interrupts s).
    generalize (run_callback body
                  (emit Module_onPricerRedcost (pricerRedcostJs_enter s))).
    intros s2 n b r E1 E2 E3 E4. destruct s2. unfold interrupts in *.
    simpl in E1, E2, E3, E4. subst.
    unfold pricerRedcostJs_exit. simpl.
    split; [reflexivity|]. split; [reflexivity|]. split; reflexivity.
  - unfold pricerFarkasJs. simpl negb. cbv iota.
    replace (js_pricer_farkas_callback (pricerFarkasJs_enter s))
      with (js_pricer_farkas_callback s) by (destruct s; reflexivity).
    rewrite callout_enabled by exact Hf.
    destruct (run_callback_clean body
                (emit Module_onPricerFarkas (pricerFarkasJs_enter s)))
      as (E1 & E2 & E3 & _); [destruct s; exact Hi | exact Hb |].
    replace (pending_pricer_abortround
               (emit Module_onPricerFarkas (pricerFarkasJs_enter s)))
      with false in E1 by (destruct s; reflexivity).
    replace (pending_pricer_result
               (emit Module_onPricerFarkas (pricerFarkasJs_enter s)))
      with SCIP_SUCCESS in E3 by (destruct s; reflexivity).
    rewrite interrupts_emit in E2.
    replace (interrupts (pricerFarkasJs_enter s)) with (interrupts s) in E2
      by (destruct s; reflexivity).
    cbn [is_interrupt] in E2. rewrite Nat.add_0_r in E2.
    revert E1 E2 E3.
    generalize (or_default (last_result body) SCIP_SUCCESS).
    generalize (interrupts s).
    generalize (run_callback body
                  (emit Module_onPricerFarkas (pricerFarkasJs_enter s))).
    intros s2 n r E1 E2 E3. destruct s2. unfold interrupts in *.
    simpl in E1, E2, E3. subst.
    unfold pricerFarkasJs_exit. simpl.
    split; [reflexivity|]. split; reflexivity.
Qed.

Lemma run_callback_calls_out_once e body s0 s :
  trace s0 = trace s ->
  calls_out_once e s (run_callback body (emit e s0)).
Proof.
  intros E.
  destruct (frame_trace _ _ (run_callback_frame body (emit e s0)))
    as (more & T & N).
  exists more. split; [|exact N].
  rewrite T. unfold emit. simpl. rewrite E, <- app_assoc. reflexivity.
Qed.

Lemma calls_out_once_then e s s1 s2 more :
  calls_out_once e s s1 -> trace s2 = trace s1 ++ more ->
  count is_callout more = 0%nat -> calls_out_once e s s2.
Proof.
  intros (m & T & N) E M. exists (m ++ more). split.
  - rewrite E, T, <- app_assoc. reflexivity.
  - rewrite count_app, N, M. reflexivity.
Qed.

Lemma pricerRedcostJs_exit_trace out s :
  trace (fst (pricerRedcostJs_exit out s))
  = trace s
    ++ (if pending_pricer_abortround s then [SCIPinterruptSolve] else []).
Proof.
  unfold pricerRedcostJs_exit. destruct s. simpl.
  destruct pending_pricer_abortround0; simpl; [reflexivity|].
  rewrite app_nil_r. reflexivity.
Qed.

Lemma pricerFarkasJs_exit_trace result s :
  trace (fst (pricerFarkasJs_exit result s))
  = trace s
    ++ (if pending_pricer_abortround s then [SCIPinterruptSolve] else []).
Proof.
  unfold pricerFarkasJs_exit. destruct s. simpl.
  destruct pending_pricer_abortround0; simpl; [reflexivity|].
  rewrite app_nil_r. reflexivity.
Qed.

(** X10.  An enabled hook with a handler calls out exactly once, first thing
    and with the values the solver supplied: the incumbent hook with the
    objective value (provided there is a best solution), the node hook with
    the two bounds and the node count, the pricing hooks with no argument.
    None of the round operations the handler calls makes the bridge call out
    again.  Without a best solution the incumbent hook does nothing at
    all. *)
Theorem hook_calls_out_once (s : bridge) :
  (forall sol objval h,
     js_incumbent_callback s <> 0 -> sol <> NULL ->
     calls_out_once (Module_onIncumbent objval) s
       (eventExecBestSol sol objval (Some h) s)) /\
  (forall dualbound primalbound nnodes h,
     js_node_callback s <> 0 ->
     calls_out_once (Module_onNode dualbound primalbound nnodes) s
       (eventExecNode dualbound primalbound nnodes (Some h) s)) /\
  (forall body out,
     js_pricer_redcost_callback s <> 0 ->
     calls_out_once Module_onPricerRedcost s
       (fst (pricerRedcostJs (Some body) out s))) /\
  (forall body result,
     js_pricer_farkas_callback s <> 0 ->
     calls_out_once Module_onPricerFarkas s
       (fst (pricerFarkasJs true (Some body) result s))) /\
  (forall objval h, eventExecBestSol NULL objval h s = s).
Proof.
  split; [|split; [|split; [|split]]].
  - intros sol objval h Hf Hs. unfold eventExecBestSol.
    apply Z.eqb_neq in Hs. rewrite Hs. cbn [negb option_map].
    rewrite callout_enabled by exact Hf.
    apply run_callback_calls_out_once. reflexivity.
  - intros d p n h Hf. unfold eventExecNode. cbn [option_map].
    rewrite callout_enabled by exact Hf.
    apply run_callback_calls_out_once. reflexivity.
  - intros body out Hf. unfold pricerRedcostJs.
    replace (js_pricer_redcost_callback (pricerRedcostJs_enter s))
      with (js_pricer_redcost_callback s) by (destruct s; reflexivity).
    rewrite callout_enabled by exact Hf.
    eapply calls_out_once_then.
    + apply (run_callback_calls_out_once Module_onPricerRedcost body
               (pricerRedcostJs_enter s) s).
      destruct s; reflexivity.
    + apply pricerRedcostJs_exit_trace.
    + destruct (pending_pricer_abortround _); reflexivity.
  - intros body result Hf. unfold pricerFarkasJs. simpl negb. cbv iota.
    replace (js_pricer_farkas_callback (pricerFarkasJs_enter s))
      with (js_pricer_farkas_callback s) by (destruct s; reflexivity).
    rewrite callout_enabled by exact Hf.
    eapply calls_out_once_then.
    + apply (run_callback_calls_out_once Module_onPricerFarkas body
               (pricerFarkasJs_enter s) s).
      destruct s; reflexivity.
    + apply pricerFarkasJs_exit_trace.
    + destruct (pending_pricer_abortround _); reflexivity.
  - intros objval h. reflexivity.
Qed.

End MoreRounds.

(** ** Coefficient batches *)

Lemma array_read_length {A : Type} (a : list A) (n : Z) (d : A) :
  length (array_read a n d) = Z.to_nat n.
Proof. unfold array_read. rewrite length_map, length_seq. reflexivity. Qed.

Lemma array_read_inv {A : Type} (a : list A) (n : Z) (d : A) (x : A) :
  In x (array_read a n d) -> exists i, 0 <= i < n /\ x = nth (Z.to_nat i) a d.
Proof.
  unfold array_read. intros Hin. apply in_map_iff in Hin.
  destruct Hin as (k & <- & Hk). apply in_seq in Hk.
  exists (Z.of_nat k). rewrite Nat2Z.id. split; [lia | reflexivity].
Qed.

Lemma entries_length {A B : Type} (a : list A) (b : list B) (n : Z) da db :
  length (combine (array_read a n da) (array_read b n db)) = Z.to_nat n.
Proof. rewrite length_combine, !array_read_length. lia. Qed.

Lemma sends_nil s : sends [] s = s.
Proof. unfold sends. rewrite app_nil_r. destruct s; reflexivity. Qed.

Lemma sends_emit e es s : sends es (emit e s) = sends (e :: es) s.
Proof.
  unfold sends, emit. destruct s. simpl. rewrite <- app_assoc. reflexivity.
Qed.

Lemma row_request_emit var e s : row_request var (emit e s) = row_request var s.
Proof. destruct s. reflexivity. Qed.

Lemma cons_request_emit var e s :
  cons_request var (emit e s) = cons_request var s.
Proof. destruct s. reflexivity. Qed.

Section Batches.
Context `{ScipDefs}.

Lemma refused_emit e es s : refused (sends es (emit e s)) = refused (sends (e :: es) s).
Proof. rewrite sends_emit. reflexivity. Qed.

Lemma add_var_to_rows_accepted rets i var entries s :
  (forall j, (j < length entries)%nat -> rets (i + j)%nat = SCIP_OKAY) ->
  add_var_to_rows rets i var entries s
  = (sends (map (row_request var s) entries) s, 1).
Proof.
  revert i s. induction entries as [|[rowId val] rest IH]; intros i s Hok.
  - simpl. rewrite sends_nil. reflexivity.
  - cbn [add_var_to_rows].
    pose proof (Hok 0%nat ltac:(simpl; lia)) as H0.
    rewrite Nat.add_0_r in H0. rewrite H0, Z.eqb_refl. cbn [negb].
    rewrite IH.
    + rewrite row_request_emit, sends_emit. reflexivity.
    + intros j Hj. replace (S i + j)%nat with (i + S j)%nat by lia.
      apply Hok. simpl. lia.
Qed.

Lemma add_var_to_rows_refused rets i var entries s k :
  (k < length entries)%nat ->
  (forall j, (j < k)%nat -> rets (i + j)%nat = SCIP_OKAY) ->
  rets (i + k)%nat <> SCIP_OKAY ->
  add_var_to_rows rets i var entries s
  = (refused (sends (map (row_request var s) (firstn (S k) entries)) s), -1).
Proof.
  revert i s k. induction entries as [|[rowId val] rest IH];
    intros i s k Hk Hok Hbad; [simpl in Hk; lia|].
  cbn [add_var_to_rows]. destruct k as [|k].
  - rewrite Nat.add_0_r in Hbad. apply Z.eqb_neq in Hbad. rewrite Hbad.
    cbn [negb firstn map].
    change (emit (SCIPaddVarToRow (getRowByHandle rowId s) var val) s)
      with (emit (row_request var s (rowId, val)) s).
    rewrite <- (sends_nil (emit _ s)) at 1. rewrite sends_emit. reflexivity.
  - pose proof (Hok 0%nat ltac:(lia)) as H0.
    rewrite Nat.add_0_r in H0. rewrite H0, Z.eqb_refl. cbn [negb].
    rewrite (IH (S i) _ k).
    + rewrite row_request_emit, sends_emit. reflexivity.
    + simpl in Hk. lia.
    + intros j Hj. replace (S i + j)%nat with (i + S j)%nat by lia.
      apply Hok. lia.
    + replace (S i + k)%nat with (i + S k)%nat by lia. exact Hbad.
Qed.

Lemma add_var_to_conss_accepted rets i var entries s :
  (forall j, (j < length entries)%nat -> rets (i + j)%nat = SCIP_OKAY) ->
  add_var_to_conss rets i var entries s
  = (sends (map (cons_request var s) entries) s, 1).
Proof.
  revert i s. induction entries as [|[consId val] rest IH]; intros i s Hok.
  - simpl. rewrite sends_nil. reflexivity.
  - cbn [add_var_to_conss].
    pose proof (Hok 0%nat ltac:(simpl; lia)) as H0.
    rewrite Nat.add_0_r in H0. rewrite H0, Z.eqb_refl. cbn [negb].
    rewrite IH.
    + rewrite cons_request_emit, sends_emit. reflexivity.
    + intros j Hj. replace (S i + j)%nat with (i + S j)%nat by lia.
      apply Hok. simpl. lia.
Qed.

Lemma add_var_to_conss_refused rets i var entries s k :
  (k < length entries)%nat ->
  (forall j, (j < k)%nat -> rets (i + j)%nat = SCIP_OKAY) ->
  rets (i + k)%nat <> SCIP_OKAY ->
  add_var_to_conss rets i var entries s
  = (refused (sends (map (cons_request var s) (firstn (S k) entries)) s), -1).
Proof.
  revert i s k. induction entries as [|[consId val] rest IH];
    intros i s k Hk Hok Hbad; [simpl in Hk; lia|].
  cbn [add_var_to_conss]. destruct k as [|k].
  - rewrite Nat.add_0_r in Hbad. apply Z.eqb_neq in Hbad. rewrite Hbad.
    cbn [negb firstn map].
    change (emit (SCIPaddCoefLinear (getConsByHandle consId s) var val) s)
      with (emit (cons_request var s (consId, val)) s).
    rewrite <- (sends_nil (emit _ s)) at 1. rewrite sends_emit. reflexivity.
  - pose proof (Hok 0%nat ltac:(lia)) as H0.
    rewrite Nat.add_0_r in H0. rewrite H0, Z.eqb_refl. cbn [negb].
    rewrite (IH (S i) _ k).
    + rewrite cons_request_emit, sends_emit. reflexivity.
    + simpl in Hk. lia.
    + intros j Hj. replace (S i + j)%nat with (i + S j)%nat by lia.
      apply Hok. lia.
    + replace (S i + k)%nat with (i + S k)%nat by lia. exact Hbad.
Qed.

Lemma handles_checked (get : Z -> ptr) (ids : list Z) (nnz : Z) :
  (forall i, 0 <= i < nnz -> get (nth (Z.to_nat i) ids 0) <> NULL) ->
  existsb (fun id => get id =? NULL) (array_read ids nnz 0) = false.
Proof.
  intros Hv. apply not_true_is_false. intros E.
  apply existsb_exists in E. destruct E as (id & Hin & E).
  apply array_read_inv in Hin. destruct Hin as (i & Hi & ->).
  apply Z.eqb_eq in E. exact (Hv i Hi E).
Qed.

(** X11.  A column-coefficient batch whose handles are all valid sends the
    coefficients to the solver in order.  If the solver accepts them all the
    call returns 1 and changes nothing but that.  If the solver refuses the
    (k+1)-th, the call returns -1 with the first k+1 requests sent and none
    taken back, marks the round aborted with result DIDNOTRUN, sets
    stop-early and requests an interrupt; the remaining coefficients are
    not sent. *)
Theorem column_batch_outcome (varId : Z) (ids : list Z) (vals : list float)
    (nnz : Z) (rets : nat -> Z) (s : bridge) :
  scip_instance s <> NULL -> 0 <= nnz -> getVarByHandle varId s <> NULL ->
  let var := getVarByHandle varId s in
  let entries := combine (array_read ids nnz 0) (array_read vals nnz 0%float) in
  ((forall i, 0 <= i < nnz ->
      getRowByHandle (nth (Z.to_nat i) ids 0) s <> NULL) ->
   ((forall j, (j < Z.to_nat nnz)%nat -> rets j = SCIP_OKAY) ->
    scip_pricer_add_var_to_rows_batch varId (Some ids) (Some vals) nnz rets s
    = (sends (map (row_request var s) entries) s, 1)) /\
   (forall k, (k < Z.to_nat nnz)%nat ->
      (forall j, (j < k)%nat -> rets j = SCIP_OKAY) ->
      rets k <> SCIP_OKAY ->
      scip_pricer_add_var_to_rows_batch varId (Some ids) (Some vals) nnz rets s
      = (refused
           (sends (map (row_request var s) (firstn (S k) entries)) s), -1))) /\
  ((forall i, 0 <= i < nnz ->
      getConsByHandle (nth (Z.to_nat i) ids 0) s <> NULL) ->
   ((forall j, (j < Z.to_nat nnz)%nat -> rets j = SCIP_OKAY) ->
    scip_pricer_add_var_to_conss_batch varId (Some ids) (Some vals) nnz rets s
    = (sends (map (cons_request var s) entries) s, 1)) /\
   (forall k, (k < Z.to_nat nnz)%nat ->
      (forall j, (j < k)%nat -> rets j = SCIP_OKAY) ->
      rets k <> SCIP_OKAY ->
      scip_pricer_add_var_to_conss_batch varId (Some ids) (Some vals) nnz rets s
      = (refused
           (sends (map (cons_request var s) (firstn (S k) entries)) s), -1))).
Proof.
  intros Hi Hn Hv. cbv zeta.
  apply Z.eqb_neq in Hi, Hv.
  assert (Hn' : (nnz <? 0) = false) by (apply Z.ltb_ge; exact Hn).
  split; intros Hids.
  - unfold scip_pricer_add_var_to_rows_batch.
    rewrite Hi, Hn', Hv. cbn [orb].
    rewrite (handles_checked (fun id => getRowByHandle id s) ids nnz Hids).
    split.
    + intros Hok. apply add_var_to_rows_accepted.
      intros j Hj. rewrite entries_length in Hj. apply Hok. exact Hj.
    + intros k Hk Hok Hbad. apply add_var_to_rows_refused.
      * rewrite entries_length. exact Hk.
      * exact Hok.
      * exact Hbad.
  - unfold scip_pricer_add_var_to_conss_batch.
    rewrite Hi, Hn', Hv. cbn [orb].
    rewrite (handles_checked (fun id => getConsByHandle id s) ids nnz Hids).
    split.
    + intros Hok. apply add_var_to_conss_accepted.
      intros j Hj. rewrite entries_length in Hj. apply Hok. exact Hj.
    + intros k Hk Hok Hbad. apply add_var_to_conss_refused.
      * rewrite entries_length. exact Hk.
      * exact Hok.
      * exact Hbad.
Qed.

End Batches.

Lemma coef_request_emit cons e s :
  coef_request cons (emit e s) = coef_request cons s.
Proof. destruct s. reflexivity. Qed.

Lemma array_read_nth {A : Type} (a : list A) (n : Z) (d : A) (j : nat) :
  (j < Z.to_nat n)%nat -> nth j (array_read a n d) d = nth j a d.
Proof.
  intros Hj. unfold array_read.
  rewrite (nth_indep _ d (nth 0 a d))
    by (rewrite length_map, length_seq; exact Hj).
  rewrite (map_nth (fun i => nth i a d)), seq_nth by exact Hj. reflexivity.
Qed.

Lemma entries_nth (ids : list Z) (vals : list float) (n : Z) (j : nat) :
  (j < Z.to_nat n)%nat ->
  nth j (combine (array_read ids n 0) (array_read vals n 0%float))
    (0, 0%float)
  = (nth j ids 0, nth j vals 0%float).
Proof.
  intros Hj. rewrite combine_nth by (rewrite !array_read_length; reflexivity).
  rewrite !array_read_nth by exact Hj. reflexivity.
Qed.

Section CoefficientBatch.
Context `{ScipDefs}.

Lemma add_coefs_linear_accepted rets i cons entries s :
  (forall j, (j < length entries)%nat ->
     getVarByHandle (fst (nth j entries (0, 0%float))) s <> NULL /\
     rets (i + j)%nat = SCIP_OKAY) ->
  add_coefs_linear rets i cons entries s
  = (sends (map (coef_request cons s) entries) s, 1).
Proof.
  revert i s. induction entries as [|[varId val] rest IH]; intros i s Hok.
  - simpl. rewrite sends_nil. reflexivity.
  - cbn [add_coefs_linear].
    destruct (Hok 0%nat ltac:(simpl; lia)) as [Hv H0].
    cbn [nth fst] in Hv. apply Z.eqb_neq in Hv. rewrite Hv.
    rewrite Nat.add_0_r in H0. rewrite H0, Z.eqb_refl. cbn [negb].
    rewrite IH.
    + rewrite coef_request_emit, sends_emit. reflexivity.
    + intros j Hj. replace (S i + j)%nat with (i + S j)%nat by lia.
      destruct (Hok (S j) ltac:(simpl; lia)) as [Hv' Hr']. split.
      * destruct s. exact Hv'.
      * exact Hr'.
Qed.

Lemma add_coefs_linear_stops rets i cons entries s k :
  (k < length entries)%nat ->
  (forall j, (j < k)%nat ->
     getVarByHandle (fst (nth j entries (0, 0%float))) s <> NULL /\
     rets (i + j)%nat = SCIP_OKAY) ->
  (getVarByHandle (fst (nth k entries (0, 0%float))) s = NULL ->
   add_coefs_linear rets i cons entries s
   = (sends (map (coef_request cons s) (firstn k entries)) s, 0)) /\
  (getVarByHandle (fst (nth k entries (0, 0%float))) s <> NULL ->
   rets (i + k)%nat <> SCIP_OKAY ->
   add_coefs_linear rets i cons entries s
   = (sends (map (coef_request cons s) (firstn (S k) entries)) s, 0)).
Proof.
  revert i s k. induction entries as [|[varId val] rest IH];
    intros i s k Hk Hok; [simpl in Hk; lia|].
  cbn [add_coefs_linear]. destruct k as [|k].
  - cbn [nth fst firstn map]. split.
    + intros Hv. apply Z.eqb_eq in Hv. rewrite Hv, sends_nil. reflexivity.
    + intros Hv Hbad. apply Z.eqb_neq in Hv. rewrite Hv.
      rewrite Nat.add_0_r in Hbad. apply Z.eqb_neq in Hbad. rewrite Hbad.
      cbn [negb].
      change (emit (SCIPaddCoefLinear cons (getVarByHandle varId s) val) s)
        with (emit (coef_request cons s (varId, val)) s).
      rewrite <- (sends_nil (emit _ s)) at 1. rewrite sends_emit.
      reflexivity.
  - destruct (Hok 0%nat ltac:(lia)) as [Hv H0].
    cbn [nth fst] in Hv. apply Z.eqb_neq in Hv. rewrite Hv.
    rewrite Nat.add_0_r in H0. rewrite H0, Z.eqb_refl. cbn [negb].
    set (s1 := emit (SCIPaddCoefLinear cons (getVarByHandle varId s) val) s).
    assert (Hg : forall id, getVarByHandle id s1 = getVarByHandle id s)
      by (intros id; unfold s1; destruct s; reflexivity).
    destruct (IH (S i) s1 k) as [A B].
    + simpl in Hk. lia.
    + intros j Hj. replace (S i + j)%nat with (i + S j)%nat by lia.
      rewrite Hg. apply (Hok (S j)). lia.
    + cbn [nth firstn map].
      replace (S i + k)%nat with (i + S k)%nat in B by lia.
      rewrite Hg in A, B. unfold s1 in A, B.
      rewrite coef_request_emit, !sends_emit in A, B.
      split; [exact A | exact B].
Qed.

(** X12.  scip_add_coef_linear_batch, given an instance, a valid constraint
    handle and a count that is not negative, sends the coefficients in order
    until a variable handle does not resolve or the solver refuses one, and
    returns 1 only if neither happens.  It returns 0 with the coefficients
    sent so far left in place (those before an unresolved handle; those up to
    and including a refused one), and touches nothing but the solver:
    unlike the pricing batches it neither checks the handles beforehand nor
    marks a round. *)
Theorem coef_batch_outcome (consId : Z) (ids : list Z) (vals : list float)
    (nnz : Z) (rets : nat -> Z) (s : bridge) :
  scip_instance s <> NULL -> 0 <= nnz -> getConsByHandle consId s <> NULL ->
  let cons := getConsByHandle consId s in
  let entries := combine (array_read ids nnz 0) (array_read vals nnz 0%float) in
  let run :=
    scip_add_coef_linear_batch consId (Some ids) (Some vals) nnz rets s in
  ((forall j, (j < Z.to_nat nnz)%nat ->
      getVarByHandle (nth j ids 0) s <> NULL /\ rets j = SCIP_OKAY) ->
   run = (sends (map (coef_request cons s) entries) s, 1)) /\
  (forall k, (k < Z.to_nat nnz)%nat ->
     (forall j, (j < k)%nat ->
        getVarByHandle (nth j ids 0) s <> NULL /\ rets j = SCIP_OKAY) ->
     (getVarByHandle (nth k ids 0) s = NULL ->
      run = (sends (map (coef_request cons s) (firstn k entries)) s, 0)) /\
     (getVarByHandle (nth k ids 0) s <> NULL -> rets k <> SCIP_OKAY ->
      run = (sends (map (coef_request cons s) (firstn (S k) entries)) s, 0))).
Proof.
  intros Hi Hn Hc. cbv zeta.
  apply Z.eqb_neq in Hi, Hc.
  assert (Hn' : (nnz <? 0) = false) by (apply Z.ltb_ge; exact Hn).
  unfold scip_add_coef_linear_batch. rewrite Hi, Hn', Hc. cbn [orb].
  split.
  - intros Hok. apply add_coefs_linear_accepted.
    intros j Hj. rewrite entries_length in Hj.
    rewrite entries_nth by exact Hj. apply Hok. exact Hj.
  - intros k Hk Hok.
    destruct (add_coefs_linear_stops rets 0 (getConsByHandle consId s)
                (combine (array_read ids nnz 0) (array_read vals nnz 0%float))
                s k) as [A B].
    + rewrite entries_length. exact Hk.
    + intros j Hj. rewrite entries_nth by lia. apply Hok. exact Hj.
    + rewrite entries_nth in A, B by exact Hk. split; [exact A | exact B].
Qed.

Lemma add_coefs_linear_one_by_one consId rets i entries s :
  scip_instance s <> NULL -> getConsByHandle consId s <> NULL ->
  add_coefs_linear rets i (getConsByHandle consId s) entries s
  = add_coefs_one_by_one consId rets i entries s.
Proof.
  revert i s. induction entries as [|[varId val] rest IH]; intros i s Hi Hc;
    [reflexivity|].
  cbn [add_coefs_linear add_coefs_one_by_one]. unfold scip_add_coef_linear.
  pose proof Hi as Hi'. pose proof Hc as Hc'.
  apply Z.eqb_neq in Hi', Hc'. rewrite Hi', Hc'. cbn [orb].
  destruct (getVarByHandle varId s =? NULL); [reflexivity|].
  destruct (rets i =? SCIP_OKAY); cbn [negb Z.eqb]; [|reflexivity].
  set (s1 := emit (SCIPaddCoefLinear (getConsByHandle consId s)
                     (getVarByHandle varId s) val) s).
  replace (getConsByHandle consId s) with (getConsByHandle consId s1)
    by (unfold s1; destruct s; reflexivity).
  apply IH.
  - unfold s1. destruct s. exact Hi.
  - unfold s1. destruct s. exact Hc.
Qed.

(** X13.  The batch is the single call repeated: given an instance, a valid
    constraint handle and a count that is not negative,
    scip_add_coef_linear_batch does to the solver, and returns, what calling
    scip_add_coef_linear on the entries one after the other does, stopping
    at the first call that returns 0. *)
Theorem coef_batch_is_repeated_call (consId : Z) (ids : list Z)
    (vals : list float) (nnz : Z) (rets : nat -> Z) (s : bridge) :
  scip_instance s <> NULL -> 0 <= nnz -> getConsByHandle consId s <> NULL ->
  scip_add_coef_linear_batch consId (Some ids) (Some vals) nnz rets s
  = add_coefs_one_by_one consId rets 0
      (combine (array_read ids nnz 0) (array_read vals nnz 0%float)) s.
Proof.
  intros Hi Hn Hc.
  unfold scip_add_coef_linear_batch.
  pose proof Hi as Hi'. pose proof Hc as Hc'.
  apply Z.eqb_neq in Hi', Hc'.
  assert (Hn' : (nnz <? 0) = false) by (apply Z.ltb_ge; exact Hn).
  rewrite Hi', Hn', Hc'. cbn [orb].
  apply add_coefs_linear_one_by_one; assumption.
Qed.

End CoefficientBatch.

(** ** The list of variable names *)

Lemma string_app_assoc (a b c : string) :
  ((a ++ b) ++ c)%string = (a ++ b ++ c)%string.
Proof. induction a as [|x a IH]; simpl; [reflexivity|]. rewrite IH. reflexivity. Qed.

Lemma string_app_length (a b : string) :
  String.length (a ++ b) = (String.length a + String.length b)%nat.
Proof. induction a as [|x a IH]; simpl; [reflexivity|]. rewrite IH. reflexivity. Qed.

Lemma concat_snoc (done : list string) (name : string) :
  String.concat "," (done ++ [name])
  = match done with
    | [] => name
    | _ => (String.concat "," done ++ "," ++ name)%string
    end.
Proof.
  induction done as [|x done IH]; [reflexivity|].
  destruct done as [|y done]; [reflexivity|].
  change (String.concat "," ((x :: y :: done) ++ [name]))
    with (x ++ "," ++ String.concat "," ((y :: done) ++ [name]))%string.
  rewrite IH.
  change (String.concat "," (x :: y :: done))
    with (x ++ "," ++ String.concat "," (y :: done))%string.
  rewrite !string_app_assoc. reflexivity.
Qed.

Lemma var_names_step (done : list string) (name : string) :
  ((if (0 <? Z.of_nat (length done))%Z
    then (String.concat "," done ++ ",")%string
    else String.concat "," done) ++ name)%string
  = String.concat "," (done ++ [name]).
Proof.
  rewrite concat_snoc. destruct done as [|x done]; [reflexivity|].
  replace (0 <? Z.of_nat (length (x :: done))) with true
    by (symmetry; apply Z.ltb_lt; simpl; lia).
  apply string_app_assoc.
Qed.

Lemma var_names_step_length (done : list string) (name : string) :
  (String.length (String.concat "," (done ++ [name]))
   <= String.length (String.concat "," done) + 1 + String.length name)%nat.
Proof.
  rewrite concat_snoc. destruct done as [|x done]; [simpl; lia|].
  rewrite !string_app_length. simpl. lia.
Qed.

(** The loop appends whole names to the join of those before, and stops only
    at the end of the list or once the buffer holds 65000 bytes. *)
Lemma var_names_loop_joined (rest done : list string) :
  (forall name, In name rest -> Z.of_nat (String.length name) <= 535) ->
  Z.of_nat (String.length (String.concat "," done)) <= 65535 ->
  exists m,
    (m <= length rest)%nat /\
    var_names_loop rest (Z.of_nat (length done)) (String.concat "," done)
    = String.concat "," (done ++ firstn m rest) /\
    (m = length rest \/
     65000
     <= Z.of_nat (String.length (String.concat "," (done ++ firstn m rest)))) /\
    Z.of_nat (String.length (String.concat "," (done ++ firstn m rest)))
    <= 65535.
Proof.
  revert done. induction rest as [|name rest IH]; intros done Hshort Hfit.
  - exists 0%nat. cbn [var_names_loop firstn length]. rewrite app_nil_r.
    split; [lia|]. split; [reflexivity|]. split; [left; reflexivity | exact Hfit].
  - cbn [var_names_loop].
    destruct (Z.of_nat (String.length (String.concat "," done)) <? 65000) eqn:E.
    + apply Z.ltb_lt in E.
      rewrite var_names_step.
      assert (Hname : Z.of_nat (String.length name) <= 535)
        by (apply Hshort; left; reflexivity).
      pose proof (var_names_step_length done name) as Hlen.
      destruct (IH (done ++ [name])) as (m & Hm & Hrun & Hstop & Hfit').
      * intros n Hn. apply Hshort. right. exact Hn.
      * lia.
      * exists (S m). cbn [firstn length].
        replace (done ++ name :: firstn m rest)
          with ((done ++ [name]) ++ firstn m rest)
          by (rewrite <- app_assoc; reflexivity).
        split; [lia|]. split.
        { rewrite <- Hrun. f_equal. rewrite length_app. simpl. lia. }
        split; [|exact Hfit'].
        destruct Hstop as [->|Hstop]; [left; reflexivity | right; exact Hstop].
    + apply Z.ltb_ge in E.
      exists 0%nat. cbn [firstn]. rewrite app_nil_r.
      split; [lia|]. split; [reflexivity|]. split; [right; lia | exact Hfit].
Qed.

(** X14.  scip_get_var_names, with an instance and no name longer than 535
    bytes, returns the names of a leading part of the variable list joined
    by commas: whole names only, in order, and all of them unless the text
    has reached 65000 bytes.  Under that bound on the names the text never
    leaves the 65536-byte buffer. *)
Theorem var_names_joined (names : list string) (s : bridge) :
  scip_instance s <> NULL ->
  (forall name, In name names -> Z.of_nat (String.length name) <= 535) ->
  exists n,
    (n <= length names)%nat /\
    scip_get_var_names names s = Some (String.concat "," (firstn n names)) /\
    (n = length names \/
     65000 <= Z.of_nat (String.length (String.concat "," (firstn n names)))).
Proof.
  intros Hi Hshort. unfold scip_get_var_names.
  apply Z.eqb_neq in Hi. rewrite Hi.
  destruct (var_names_loop_joined names [] Hshort)
    as (n & Hn & Hrun & Hstop & Hfit); [simpl; lia|].
  cbn [app length String.concat] in Hrun, Hstop, Hfit.
  change (Z.of_nat 0) with 0 in Hrun.
  exists n. split; [exact Hn|]. rewrite Hrun.
  replace (Z.of_nat (String.length (String.concat "," (firstn n names)))
           <? 65536) with true by (symmetry; apply Z.ltb_lt; lia).
  split; [reflexivity | exact Hstop].
Qed.

Lemma var_names_loop_full (rest : list string) (i : Z) (buffer : string) :
  65000 <= Z.of_nat (String.length buffer) -> var_names_loop rest i buffer = buffer.
Proof.
  intros Hlen. destruct rest as [|name rest]; [reflexivity|].
  cbn [var_names_loop].
  replace (Z.of_nat (String.length buffer) <? 65000) with false
    by (symmetry; apply Z.ltb_ge; lia).
  reflexivity.
Qed.

(** X15.  The copy into the buffer is not bounded by the buffer: when the
    first variable's name has 65536 bytes or more, scip_get_var_names, given
    an instance, writes past the end of its 65536-byte buffer; without an
    instance it returns the empty text. *)
Theorem var_names_overrun (name : string) (rest : list string) (s : bridge) :
  65536 <= Z.of_nat (String.length name) ->
  scip_get_var_names (name :: rest) s
  = if scip_instance s =? NULL then Some ""%string else None.
Proof.
  intros Hlen. unfold scip_get_var_names.
  destruct (scip_instance s =? NULL); [reflexivity|].
  cbn [var_names_loop]. change (Z.of_nat (String.length "") <? 65000) with true.
  cbv iota. change (0 <? 0) with false. cbv iota.
  change ("" ++ name)%string with name.
  rewrite var_names_loop_full by lia.
  replace (Z.of_nat (String.length name) <? 65536) with false
    by (symmetry; apply Z.ltb_ge; lia).
  reflexivity.
Qed.

(** ** Lifecycle *)

Section Lifecycle.
Context `{ScipDefs}.

Lemma clearCurrentProblem_requests stage stage' s :
  exists requests,
    clearCurrentProblem stage stage' s = sends requests s /\
    forallb is_teardown requests = true /\
    (scip_instance s = NULL -> requests = []).
Proof.
  unfold clearCurrentProblem.
  destruct (scip_instance s =? NULL) eqn:E.
  { exists []. rewrite sends_nil. repeat split. }
  apply Z.eqb_neq in E.
  assert (G : forall requests,
            sends requests s = sends requests s /\
            (scip_instance s = NULL -> requests = []))
    by (intros requests; split; [reflexivity | intros E'; contradiction]).
  destruct (stage >=? SCIP_STAGE_SOLVING).
  - destruct (stage' >=? SCIP_STAGE_PROBLEM); cbv beta iota.
    + exists [SCIPfreeTransform; SCIPfreeProb].
      split; [rewrite <- !sends_emit, sends_nil; reflexivity|].
      split; [reflexivity | apply G].
    + exists [SCIPfreeTransform].
      split; [rewrite <- !sends_emit, sends_nil; reflexivity|].
      split; [reflexivity | apply G].
  - destruct (stage >=? SCIP_STAGE_PROBLEM); cbv beta iota.
    + exists [SCIPfreeProb].
      split; [rewrite <- !sends_emit, sends_nil; reflexivity|].
      split; [reflexivity | apply G].
    + exists []. rewrite sends_nil. split; [reflexivity|].
      split; [reflexivity | apply G].
Qed.

Lemma clearCurrentProblem_exact stage stage' s :
  scip_instance s <> NULL ->
  clearCurrentProblem stage stage' s
  = sends
      ((if stage >=? SCIP_STAGE_SOLVING then [SCIPfreeTransform] else [])
       ++ (if (if stage >=? SCIP_STAGE_SOLVING then stage' else stage)
              >=? SCIP_STAGE_PROBLEM
           then [SCIPfreeProb] else []))
      s.
Proof.
  intros E. unfold clearCurrentProblem.
  apply Z.eqb_neq in E. rewrite E.
  destruct (stage >=? SCIP_STAGE_SOLVING).
  - destruct (stage' >=? SCIP_STAGE_PROBLEM); cbv beta iota; cbn [app];
      rewrite <- !sends_emit, sends_nil; reflexivity.
  - destruct (stage >=? SCIP_STAGE_PROBLEM); cbv beta iota; cbn [app];
      rewrite <- ?sends_emit, sends_nil; reflexivity.
Qed.

(** X16.  scip_free puts every global back to its static initialiser, the
    two notification flags excepted (an incumbent or node callback enabled
    before stays enabled for the next instance).  With an instance it sends
    the solver the teardown the stage requires and then SCIPfree:
    SCIPfreeTransform when the stage is SOLVING or later, then SCIPfreeProb
    when the stage, asked again if the transformed problem was freed, is
    PROBLEM or later.  Without an instance it sends nothing.  A second
    scip_free changes nothing and sends nothing. *)
Theorem free_restores_initial (stage stage' : Z) (s : bridge) :
  let s' := scip_free stage stage' s in
  restarted s s' /\
  scip_instance s' = NULL /\
  (scip_instance s = NULL -> trace s' = trace s) /\
  (scip_instance s <> NULL ->
   trace s'
   = trace s
     ++ (if stage >=? SCIP_STAGE_SOLVING then [SCIPfreeTransform] else [])
     ++ (if (if stage >=? SCIP_STAGE_SOLVING then stage' else stage)
            >=? SCIP_STAGE_PROBLEM
         then [SCIPfreeProb] else [])
     ++ [SCIPfree]) /\
  (forall a b, scip_free a b s' = s').
Proof.
  cbv zeta. unfold restarted, scip_free.
  destruct (scip_instance s =? NULL) eqn:E; cbn [negb].
  - apply Z.eqb_eq in E.
    destruct s. simpl in E. subst.
    split; [reflexivity|]. split; [reflexivity|].
    split; [intros _; reflexivity|].
    split; [intros E'; contradiction E'; reflexivity|].
    intros a b. vm_compute. reflexivity.
  - apply Z.eqb_neq in E.
    rewrite (clearCurrentProblem_exact stage stage' s E).
    generalize (if (if stage >=? SCIP_STAGE_SOLVING then stage' else stage)
                      >=? SCIP_STAGE_PROBLEM
                   then [SCIPfreeProb] else []).
    generalize (if stage >=? SCIP_STAGE_SOLVING
                then [SCIPfreeTransform] else []).
    intros transform prob.
    split; [destruct s; reflexivity|].
    split; [destruct s; reflexivity|].
    split; [intros E'; contradiction|].
    split.
    + intros _. destruct s. simpl. rewrite <- !app_assoc. reflexivity.
    + intros a b. destruct s. vm_compute. reflexivity.
Qed.

(** X17.  scip_reset, scip_problem_clear and scip_problem_begin keep the
    solver instance and the two notification flags and put every other
    global back to its static initialiser: the pricer has to be included and
    its callbacks enabled again.  scip_reset does so with or without an
    instance; the other two return 0 and do nothing without one.  With an
    instance scip_problem_clear is scip_reset returning 1, and
    scip_problem_begin is scip_reset followed by the creation of the problem,
    named js_problem when the name is null or empty, and, if that succeeds,
    the setting of the objective sense; it returns 1 exactly when the solver
    accepts both. *)
Theorem problem_reset_outcome (stage stage' : Z) (name : option string)
    (maximize rc rs : Z) (s : bridge) :
  let cleared := scip_reset stage stage' s in
  let begun := scip_problem_begin name maximize stage stage' rc rs s in
  (restarted s cleared /\ scip_instance cleared = scip_instance s) /\
  (scip_instance s = NULL ->
   scip_problem_clear stage stage' s = (s, 0) /\ begun = (s, 0)) /\
  (scip_instance s <> NULL ->
   scip_problem_clear stage stage' s = (cleared, 1) /\
   fst begun
   = sends (SCIPcreateProbBasic (problem_name name)
            :: if rc =? SCIP_OKAY
               then [SCIPsetObjsense (negb (maximize =? 0))] else [])
       cleared /\
   restarted s (fst begun) /\
   (snd begun = 1 <-> rc = SCIP_OKAY /\ rs = SCIP_OKAY) /\
   (snd begun = 0 \/ snd begun = 1)).
Proof.
  cbv zeta. unfold restarted, scip_problem_begin, scip_problem_clear, scip_reset.
  fold (problem_name name).
  destruct (clearCurrentProblem_requests stage stage' s)
    as (requests & -> & _ & _).
  split; [split; destruct s; reflexivity|].
  split.
  - intros E. apply Z.eqb_eq in E. rewrite E. split; reflexivity.
  - intros E. apply Z.eqb_neq in E. rewrite E.
    split; [reflexivity|].
    destruct (rc =? SCIP_OKAY) eqn:Ec; cbn [negb fst snd].
    + apply Z.eqb_eq in Ec.
      destruct (rs =? SCIP_OKAY) eqn:Es; cbn [negb fst snd].
      * apply Z.eqb_eq in Es.
        split; [rewrite <- !sends_emit, sends_nil; reflexivity|].
        split; [destruct s; reflexivity|].
        split; [|right; reflexivity].
        split; [intros _; split; assumption | reflexivity].
      * apply Z.eqb_neq in Es.
        split; [rewrite <- !sends_emit, sends_nil; reflexivity|].
        split; [destruct s; reflexivity|].
        split; [|left; reflexivity].
        split; [discriminate | intros [_ E']; contradiction].
    + apply Z.eqb_neq in Ec.
      split; [rewrite <- !sends_emit, sends_nil; reflexivity|].
      split; [destruct s; reflexivity|].
      split; [|left; reflexivity].
      split; [discriminate | intros [E' _]; contradiction].
Qed.

(** X18.  scip_create creates at most one instance.  With an instance in
    place it returns 0 and does nothing.  Without one it stores what
    SCIPcreate hands back and goes through its four steps in order
    (SCIPcreate, the default plugins, the event handlers, the catch of the
    best-solution event): it returns 1 when all four succeed, and otherwise
    the code of the first step that fails, the later steps not counting.
    After a failure past SCIPcreate the instance stays in place, so that a
    later scip_create returns 0 without setting it up. *)
Theorem create_once (ret_create inst ret_plugins ret_handlers ret_catch : Z)
    (s : bridge) :
  let run :=
    scip_create ret_create inst ret_plugins ret_handlers ret_catch s in
  (scip_instance s <> NULL -> run = (s, 0)) /\
  (scip_instance s = NULL ->
   fst run = set_scip_instance inst s /\
   (ret_create <> SCIP_OKAY -> snd run = ret_create) /\
   (ret_create = SCIP_OKAY -> ret_plugins <> SCIP_OKAY ->
    snd run = ret_plugins) /\
   (ret_create = SCIP_OKAY -> ret_plugins = SCIP_OKAY ->
    ret_handlers <> SCIP_OKAY -> snd run = ret_handlers) /\
   (ret_create = SCIP_OKAY -> ret_plugins = SCIP_OKAY ->
    ret_handlers = SCIP_OKAY -> ret_catch <> SCIP_OKAY ->
    snd run = ret_catch) /\
   (ret_create = SCIP_OKAY -> ret_plugins = SCIP_OKAY ->
    ret_handlers = SCIP_OKAY -> ret_catch = SCIP_OKAY -> snd run = 1) /\
   (inst <> NULL ->
    forall a b c d e, scip_create a b c d e (fst run) = (fst run, 0))).
Proof.
  cbv zeta. unfold scip_create. split.
  - intros E. apply Z.eqb_neq in E. rewrite E. reflexivity.
  - intros E. apply Z.eqb_eq in E. rewrite E. cbn [negb].
    split.
    { repeat split_if; reflexivity. }
    split.
    { intros E1. apply Z.eqb_neq in E1. rewrite E1. reflexivity. }
    split.
    { intros -> E2. apply Z.eqb_neq in E2.
      rewrite Z.eqb_refl, E2. reflexivity. }
    split.
    { intros -> -> E3. apply Z.eqb_neq in E3.
      rewrite Z.eqb_refl, E3. reflexivity. }
    split.
    { intros -> -> -> E4. apply Z.eqb_neq in E4.
      rewrite Z.eqb_refl, E4. reflexivity. }
    split.
    { intros -> -> -> ->. rewrite Z.eqb_refl. reflexivity. }
    intros Hinst a b c d e.
    replace (fst (if negb (ret_create =? SCIP_OKAY)
                  then (set_scip_instance inst s, ret_create)
                  else if negb (ret_plugins =? SCIP_OKAY)
                  then (set_scip_instance inst s, ret_plugins)
                  else if negb (ret_handlers =? SCIP_OKAY)
                  then (set_scip_instance inst s, ret_handlers)
                  else if negb (ret_catch =? SCIP_OKAY)
                  then (set_scip_instance inst s, ret_catch)
                  else (set_scip_instance inst s, 1)))
      with (set_scip_instance inst s) by (repeat split_if; reflexivity).
    replace (scip_instance (set_scip_instance inst s)) with inst
      by (destruct s; reflexivity).
    apply Z.eqb_neq in Hinst. rewrite Hinst. reflexivity.
Qed.

End Lifecycle.

(** ** Rows of constraints, created objects *)

Section Objects.
Context `{ScipDefs}.

Lemma registerRowHandle_outcome ok row s :
  let s' := fst (registerRowHandle ok row s) in
  let id := snd (registerRowHandle ok row s) in
  (id = -1 \/ 0 < id) /\
  (0 < id -> row <> NULL /\ getRowByHandle id s' = row).
Proof.
  cbv zeta.
  change (registerRowHandle ok row s) with (register reg_row ok row s).
  rewrite register_snd.
  change (getRowByHandle (snd (registerHandle ok row (registry_of reg_row s)))
            (fst (register reg_row ok row s)))
    with (getByHandle (snd (registerHandle ok row (registry_of reg_row s)))
            (registry_of reg_row (fst (register reg_row ok row s)))).
  rewrite register_same.
  pose proof (registerHandle_names ok row (registry_of reg_row s)) as Hn.
  destruct (registerHandle_cases ok row (registry_of reg_row s))
    as [(E & _)|[(Hnn & _ & Hb & _)|(Hnn & _ & Eid & _)]].
  - split; [left; exact E|]. intros Hpos. cbv zeta in E. lia.
  - split; [right; exact (proj1 Hb)|]. intros Hpos.
    split; [exact Hnn|]. apply names_resolves, Hn, Hpos.
  - assert (Hpos : 0 < snd (registerHandle ok row (registry_of reg_row s))).
    { cbv zeta in Eid. rewrite Eid. unfold reg_size. lia. }
    split; [right; exact Hpos|]. intros _.
    split; [exact Hnn|]. apply names_resolves, Hn, Hpos.
Qed.

(** X19.  scip_cons_get_row returns -1 or a positive handle, and a positive
    handle resolves to the row the solver gave for the constraint.
    scip_cons_is_in_lp leaves the globals as scip_cons_get_row does (the
    row is registered on the way) and returns the solver's answer whenever
    scip_cons_get_row yields a handle, 0 otherwise: its second look-up of
    the row never fails. *)
Theorem cons_row_lookup (consId : Z) (row : ptr) (ok in_lp : bool)
    (s : bridge) :
  let found := scip_cons_get_row consId row ok s in
  let answer := scip_cons_is_in_lp consId row ok in_lp s in
  (snd found = -1 \/ 0 < snd found) /\
  (0 < snd found ->
   scip_instance s <> NULL /\ getConsByHandle consId s <> NULL /\
   row <> NULL /\ getRowByHandle (snd found) (fst found) = row) /\
  fst answer = fst found /\
  snd answer = if (0 <? snd found) && in_lp then 1 else 0.
Proof.
  cbv zeta.
  assert (G : (snd (scip_cons_get_row consId row ok s) = -1 \/
               0 < snd (scip_cons_get_row consId row ok s)) /\
              (0 < snd (scip_cons_get_row consId row ok s) ->
               scip_instance s <> NULL /\ getConsByHandle consId s <> NULL /\
               row <> NULL /\
               getRowByHandle (snd (scip_cons_get_row consId row ok s))
                 (fst (scip_cons_get_row consId row ok s)) = row)).
  { unfold scip_cons_get_row.
    destruct (scip_instance s =? NULL) eqn:E1;
      [split; [left; reflexivity | cbn [snd]; lia]|].
    destruct (getConsByHandle consId s =? NULL) eqn:E2;
      [split; [left; reflexivity | cbn [snd]; lia]|].
    destruct (row =? NULL) eqn:E3;
      [split; [left; reflexivity | cbn [snd]; lia]|].
    apply Z.eqb_neq in E1, E2, E3.
    destruct (registerRowHandle_outcome ok row s) as [A B].
    split; [exact A|]. intros Hpos.
    split; [exact E1|]. split; [exact E2|]. exact (B Hpos). }
  destruct G as [A B].
  split; [exact A|]. split; [exact B|].
  unfold scip_cons_is_in_lp.
  destruct (scip_cons_get_row consId row ok s) as [s1 rowId].
  cbn [fst snd] in *.
  destruct (rowId <=? 0) eqn:E.
  - apply Z.leb_le in E.
    replace (0 <? rowId) with false by (symmetry; apply Z.ltb_ge; exact E).
    split; reflexivity.
  - apply Z.leb_gt in E.
    replace (0 <? rowId) with true by (symmetry; apply Z.ltb_lt; exact E).
    destruct (B E) as (_ & _ & Hrow & Hres).
    rewrite Hres. apply Z.eqb_neq in Hrow. rewrite Hrow.
    split; reflexivity.
Qed.

Lemma registerVarHandle_trace ok var s :
  trace (fst (registerVarHandle ok var s)) = trace s.
Proof. apply (field_registerVar trace). intros r s0. destruct s0; reflexivity. Qed.

Lemma registerConsHandle_trace ok cons s :
  trace (fst (registerConsHandle ok cons s)) = trace s.
Proof. apply (field_registerCons trace). intros r s0. destruct s0; reflexivity. Qed.

Lemma registerVarHandle_outcome ok var s :
  let s' := fst (registerVarHandle ok var s) in
  let id := snd (registerVarHandle ok var s) in
  (0 < id /\ getVarByHandle id s' = var) \/
  (id = -1 /\ (var = NULL \/ ok = false)).
Proof.
  cbv zeta.
  change (registerVarHandle ok var s) with (register reg_var ok var s).
  rewrite register_snd.
  change (getVarByHandle (snd (registerHandle ok var (registry_of reg_var s)))
            (fst (register reg_var ok var s)))
    with (getByHandle (snd (registerHandle ok var (registry_of reg_var s)))
            (registry_of reg_var (fst (register reg_var ok var s)))).
  rewrite register_same.
  pose proof (registerHandle_names ok var (registry_of reg_var s)) as Hn.
  destruct (registerHandle_cases ok var (registry_of reg_var s))
    as [(E & _ & [E'|[_ E']])|[(_ & _ & Hb & _)|(_ & _ & Eid & _)]].
  - right. split; [exact E | left; exact E'].
  - right. split; [exact E | right; exact E'].
  - left. split; [exact (proj1 Hb)|]. apply names_resolves, Hn, (proj1 Hb).
  - assert (Hpos : 0 < snd (registerHandle ok var (registry_of reg_var s))).
    { cbv zeta in Eid. rewrite Eid. unfold reg_size. lia. }
    left. split; [exact Hpos|]. apply names_resolves, Hn, Hpos.
Qed.

(** X20.  An object the solver created is offered to it once and released
    once, in that order, whatever the solver answers to the offer and
    whether or not a handle can be issued: scip_add_var,
    scip_add_cons_linear and scip_pricer_add_priced_var send exactly these
    two requests.  scip_add_var returns -1 when the solver refuses the
    variable; when the solver accepts it the call returns a handle that
    resolves to the variable, or else -1 because the registry could not
    grow, in which case the variable is in the problem without a handle. *)
Theorem created_object_is_released (name : string) (obj : ptr)
    (ret_add : Z) (ok : bool) (s : bridge) :
  scip_instance s <> NULL -> obj <> NULL ->
  let added := scip_add_var (Some name) SCIP_OKAY obj ret_add ok s in
  trace (fst added) = trace s ++ [SCIPaddVar obj; SCIPreleaseVar obj] /\
  trace (fst (scip_add_cons_linear (Some name) SCIP_OKAY obj ret_add ok s))
  = trace s ++ [SCIPaddCons obj; SCIPreleaseCons obj] /\
  trace (fst (scip_pricer_add_priced_var (Some name) SCIP_OKAY obj ret_add
                ok s))
  = trace s ++ [SCIPaddPricedVar obj; SCIPreleaseVar obj] /\
  (ret_add <> SCIP_OKAY -> snd added = -1) /\
  (ret_add = SCIP_OKAY ->
   (0 < snd added /\ getVarByHandle (snd added) (fst added) = obj) \/
   (snd added = -1 /\ ok = false)).
Proof.
  intros Hi Hobj. cbv zeta.
  apply Z.eqb_neq in Hi. pose proof Hobj as Hobj'. apply Z.eqb_neq in Hobj'.
  unfold scip_add_var, scip_add_cons_linear, scip_pricer_add_priced_var.
  rewrite Hi, Hobj', Z.eqb_refl. cbn [is_null orb negb].
  pose proof (registerVarHandle_trace ok obj (emit (SCIPaddVar obj) s)) as T1.
  pose proof (registerConsHandle_trace ok obj (emit (SCIPaddCons obj) s))
    as T2.
  pose proof (registerVarHandle_trace ok obj (emit (SCIPaddPricedVar obj) s))
    as T3.
  pose proof (registerVarHandle_outcome ok obj (emit (SCIPaddVar obj) s))
    as O1.
  cbv zeta in O1.
  destruct (registerVarHandle ok obj (emit (SCIPaddVar obj) s)) as [s1 id1].
  destruct (registerConsHandle ok obj (emit (SCIPaddCons obj) s)) as [s2 id2].
  destruct (registerVarHandle ok obj (emit (SCIPaddPricedVar obj) s))
    as [s3 id3].
  cbn [fst snd] in *.
  destruct (ret_add =? SCIP_OKAY) eqn:Ea; cbn [negb fst snd].
  - apply Z.eqb_eq in Ea.
    split; [destruct s1, s; simpl in *; rewrite T1, <- app_assoc; reflexivity|].
    split; [destruct s2, s; simpl in *; rewrite T2, <- app_assoc; reflexivity|].
    split; [destruct s3, s; simpl in *; rewrite T3, <- app_assoc; reflexivity|].
    split; [intros E; contradiction|]. intros _.
    destruct O1 as [[Hpos Hres]|[Hid [E|E]]].
    + left. split; [exact Hpos|]. destruct s1. exact Hres.
    + contradiction.
    + right. split; assumption.
  - apply Z.eqb_neq in Ea.
    split; [destruct s; simpl; rewrite <- app_assoc; reflexivity|].
    split; [destruct s; simpl; rewrite <- app_assoc; reflexivity|].
    split; [destruct s; simpl; rewrite <- app_assoc; reflexivity|].
    split; [reflexivity|]. intros E; contradiction.
Qed.

End Objects.

(** ** Rows of the LP, a whole solve *)

Section LpRows.
Context `{ScipDefs}.




End LpRows.

Section WholeSolve.
Context `{ScipDefs}.

Lemma callout_callouts_le flag e handler s :
  is_callout e = true ->
  (callouts (callout flag e handler s) <= S (callouts s))%nat.
Proof.
  intros He.
  destruct (callout_cases flag e handler s) as [->|(_ & body & _ & ->)];
    [lia|].
  rewrite (call_frame_callouts _ _ (run_callback_frame body (emit e s))).
  unfold callouts, emit. destruct s. simpl. rewrite count_app.
  unfold count at 2. simpl. rewrite He. simpl. lia.
Qed.

Lemma no_callout_at_exit (b : bool) :
  count is_callout (if b then [SCIPinterruptSolve] else []) = 0%nat.
Proof. destruct b; reflexivity. Qed.

Lemma run_hook_callouts h s :
  (callouts (run_hook h s) <= S (callouts s))%nat.
Proof.
  destruct h; unfold run_hook.
  - unfold eventExecBestSol. destruct (negb (sol =? NULL)); [|lia].
    apply callout_callouts_le. reflexivity.
  - unfold pricerRedcostJs, callouts.
    rewrite pricerRedcostJs_exit_trace, count_app.
    pose proof (callout_callouts_le
                  (js_pricer_redcost_callback (pricerRedcostJs_enter s))
                  Module_onPricerRedcost onPricerRedcost
                  (pricerRedcostJs_enter s) eq_refl) as L.
    replace (callouts (pricerRedcostJs_enter s)) with (callouts s) in L
      by (destruct s; reflexivity).
    unfold callouts in L. rewrite no_callout_at_exit. lia.
  - unfold pricerFarkasJs. destruct has_lp; cbn [negb fst].
    + unfold callouts.
      rewrite pricerFarkasJs_exit_trace, count_app.
      pose proof (callout_callouts_le
                    (js_pricer_farkas_callback (pricerFarkasJs_enter s))
                    Module_onPricerFarkas onPricerFarkas
                    (pricerFarkasJs_enter s) eq_refl) as L.
      replace (callouts (pricerFarkasJs_enter s)) with (callouts s) in L
        by (destruct s; reflexivity).
      unfold callouts in L. rewrite no_callout_at_exit. lia.
    + destruct s. unfold callouts. simpl. lia.
Qed.

Lemma run_hook_mode h s :
  current_pricing_mode s = 0 -> current_pricing_mode (run_hook h s) = 0.
Proof.
  intros Hm. destruct h; unfold run_hook.
  - unfold eventExecBestSol. destruct (negb (sol =? NULL)); [|exact Hm].
    rewrite callout_mode. exact Hm.
  - unfold pricerRedcostJs, pricerRedcostJs_exit.
    generalize (callout (js_pricer_redcost_callback (pricerRedcostJs_enter s))
                  Module_onPricerRedcost onPricerRedcost
                  (pricerRedcostJs_enter s)).
    intros s2. destruct s2. simpl.
    destruct pending_pricer_abortround0; reflexivity.
  - unfold pricerFarkasJs. destruct has_lp; cbn [negb fst].
    + unfold pricerFarkasJs_exit.
      generalize (callout (js_pricer_farkas_callback (pricerFarkasJs_enter s))
                    Module_onPricerFarkas onPricerFarkas
                    (pricerFarkasJs_enter s)).
      intros s2. destruct s2. simpl.
      destruct pending_pricer_abortround0; reflexivity.
    + destruct s. reflexivity.
Qed.

Lemma run_hook_counted h s :
  pricer_redcost_calls (run_hook h s)
  = (if is_redcost_hook h then int_wrap (pricer_redcost_calls s + 1)
     else pricer_redcost_calls s) /\
  pricer_farkas_calls (run_hook h s)
  = (if is_farkas_hook h then int_wrap (pricer_farkas_calls s + 1)
     else pricer_farkas_calls s) /\
  pricer_round (run_hook h s)
  = (if is_redcost_hook h || is_farkas_hook h
     then int_wrap (pricer_round s + 1) else pricer_round s).
Proof.
  destruct h; unfold run_hook; cbn [is_redcost_hook is_farkas_hook orb].
  - unfold eventExecBestSol. destruct (negb (sol =? NULL));
      [|split; [reflexivity|]; split; reflexivity].
    apply callout_counters.
  - apply pricerRedcostJs_counters.
  - apply pricerFarkasJs_counters.
Qed.

Lemma is_int_step (b : bool) z :
  is_int z -> is_int (if b then int_wrap (z + 1) else z).
Proof. intros Hz. destruct b; [apply int_wrap_is_int | exact Hz]. Qed.

Lemma int_wrap_count (b : bool) z k :
  is_int z ->
  int_wrap ((if b then int_wrap (z + 1) else z) + k)
  = int_wrap (z + ((if b then 1 else 0) + k)).
Proof.
  intros Hz. destruct b.
  - rewrite int_wrap_add_l. f_equal. lia.
  - f_equal.
Qed.

Lemma run_hooks_counted hooks s :
  is_int (pricer_redcost_calls s) -> is_int (pricer_farkas_calls s) ->
  is_int (pricer_round s) ->
  let s' := fold_left (fun s h => run_hook h s) hooks s in
  pricer_redcost_calls s'
  = int_wrap (pricer_redcost_calls s + redcost_hooks hooks) /\
  pricer_farkas_calls s'
  = int_wrap (pricer_farkas_calls s + farkas_hooks hooks) /\
  pricer_round s'
  = int_wrap (pricer_round s + redcost_hooks hooks + farkas_hooks hooks).
Proof.
  revert s. induction hooks as [|h rest IH]; intros s I1 I2 I3; cbv zeta.
  - unfold redcost_hooks, farkas_hooks. cbn [fold_left filter length Z.of_nat].
    rewrite !Z.add_0_r, !int_wrap_id by assumption.
    split; [reflexivity|]. split; reflexivity.
  - cbn [fold_left].
    destruct (run_hook_counted h s) as (E1 & E2 & E3).
    destruct (IH (run_hook h s)) as (-> & -> & ->).
    + rewrite E1. apply is_int_step, I1.
    + rewrite E2. apply is_int_step, I2.
    + rewrite E3. apply is_int_step, I3.
    + rewrite E1, E2, E3. rewrite <- !Z.add_assoc.
      rewrite !int_wrap_count by assumption.
      unfold redcost_hooks, farkas_hooks. cbn [filter].
      destruct h; cbn [is_redcost_hook is_farkas_hook orb length];
        rewrite ?Nat2Z.inj_succ;
        (split; [f_equal; lia|]; split; f_equal; lia).
Qed.

Lemma run_hooks_callouts hooks s :
  let s' := fold_left (fun s h => run_hook h s) hooks s in
  (callouts s' <= callouts s + length hooks)%nat /\
  (current_pricing_mode s = 0 -> current_pricing_mode s' = 0).
Proof.
  revert s. induction hooks as [|h rest IH]; intros s; cbv zeta.
  - cbn [fold_left length]. split; [lia | exact (fun E => E)].
  - cbn [fold_left length].
    destruct (IH (run_hook h s)) as (Hc & Hm).
    pose proof (run_hook_callouts h s) as Hc1.
    split; [lia|]. intros E. apply Hm, run_hook_mode, E.
Qed.

(** X22.  Across a whole scip_solve with an instance in place, the handlers
    of its hooks making round operations, the counters JavaScript reads grow
    by the pricing hooks the solver ran, in 32-bit arithmetic: redcostCalls
    by the number of reduced-cost hooks, farkasCalls by the number of Farkas
    hooks, round by both together, and exactly by that much as long as the
    sum does not pass [int_max].  The bridge calls out at most once per hook;
    when the call returns the pricing mode is 0 and the instance is the same.
    Without an instance nothing changes. *)
Theorem solve_counts_rounds (hooks : list solver_hook) (retcode status : Z)
    (s : bridge) :
  let s' := fst (scip_solve hooks retcode status s) in
  let n := scip_pricer_get_redcost_calls s in
  let f := scip_pricer_get_farkas_calls s in
  let r := scip_pricer_get_round s in
  let kn := redcost_hooks hooks in
  let kf := farkas_hooks hooks in
  (scip_instance s = NULL -> s' = s) /\
  (scip_instance s <> NULL ->
   (callouts s' <= callouts s + length hooks)%nat /\
   scip_ctx_get_pricing_mode s' = 0 /\
   scip_instance s' = scip_instance s /\
   (is_int n -> is_int f -> is_int r ->
    scip_pricer_get_redcost_calls s' = int_wrap (n + kn) /\
    scip_pricer_get_farkas_calls s' = int_wrap (f + kf) /\
    scip_pricer_get_round s' = int_wrap (r + kn + kf) /\
    (n + kn <= int_max -> scip_pricer_get_redcost_calls s' = n + kn) /\
    (f + kf <= int_max -> scip_pricer_get_farkas_calls s' = f + kf) /\
    (r + kn + kf <= int_max -> scip_pricer_get_round s' = r + kn + kf))).
Proof.
  cbv zeta. split.
  - intros E. unfold scip_solve. apply Z.eqb_eq in E. rewrite E. reflexivity.
  - intros E.
    pose proof (hf_instance _ _ (scip_solve_handles hooks retcode status s))
      as Hinst.
    unfold scip_pricer_get_redcost_calls, scip_pricer_get_farkas_calls,
      scip_pricer_get_round, scip_ctx_get_pricing_mode.
    revert Hinst. unfold scip_solve. apply Z.eqb_neq in E. rewrite E.
    set (s0 := s |> set_current_pricing_mode 0 |> set_added_vars_this_call 0).
    assert (E1 : pricer_redcost_calls s0 = pricer_redcost_calls s)
      by (destruct s; reflexivity).
    assert (E2 : pricer_farkas_calls s0 = pricer_farkas_calls s)
      by (destruct s; reflexivity).
    assert (E3 : pricer_round s0 = pricer_round s)
      by (destruct s; reflexivity).
    assert (E4 : callouts s0 = callouts s) by (destruct s; reflexivity).
    assert (E5 : current_pricing_mode s0 = 0) by (destruct s; reflexivity).
    pose proof (run_hooks_counted hooks s0) as A. cbv zeta in A.
    rewrite E1, E2, E3 in A.
    destruct (run_hooks_callouts hooks s0) as (C1 & C2).
    rewrite E4 in C1. specialize (C2 E5).
    clearbody s0.
    assert (Kn : 0 <= redcost_hooks hooks)
      by (unfold redcost_hooks; lia).
    assert (Kf : 0 <= farkas_hooks hooks)
      by (unfold farkas_hooks; lia).
    assert (G : forall s1,
              s1 = fold_left (fun s h => run_hook h s) hooks s0 ->
              scip_instance s1 = scip_instance s ->
              (callouts s1 <= callouts s + length hooks)%nat /\
              current_pricing_mode s1 = 0 /\
              scip_instance s1 = scip_instance s /\
              (is_int (pricer_redcost_calls s) ->
               is_int (pricer_farkas_calls s) -> is_int (pricer_round s) ->
               pricer_redcost_calls s1
               = int_wrap (pricer_redcost_calls s + redcost_hooks hooks) /\
               pricer_farkas_calls s1
               = int_wrap (pricer_farkas_calls s + farkas_hooks hooks) /\
               pricer_round s1
               = int_wrap (pricer_round s + redcost_hooks hooks
                           + farkas_hooks hooks) /\
               (pricer_redcost_calls s + redcost_hooks hooks <= int_max ->
                pricer_redcost_calls s1
                = pricer_redcost_calls s + redcost_hooks hooks) /\
               (pricer_farkas_calls s + farkas_hooks hooks <= int_max ->
                pricer_farkas_calls s1
                = pricer_farkas_calls s + farkas_hooks hooks) /\
               (pricer_round s + redcost_hooks hooks + farkas_hooks hooks
                <= int_max ->
                pricer_round s1
                = pricer_round s + redcost_hooks hooks
                  + farkas_hooks hooks))).
    { intros s1 -> Hinst.
      split; [exact C1|]. split; [exact C2|]. split; [exact Hinst|].
      intros I1 I2 I3. destruct (A I1 I2 I3) as (A1 & A2 & A3).
      split; [exact A1|]. split; [exact A2|]. split; [exact A3|].
      unfold is_int in *.
      split; [intros B; rewrite A1; apply int_wrap_id; lia|].
      split; [intros B; rewrite A2; apply int_wrap_id; lia|].
      intros B; rewrite A3; apply int_wrap_id; lia. }
    repeat match goal with
           | |- context [if ?b then (?x, _) else _] => destruct b
           end; cbn [fst]; intros Hinst; apply G; try reflexivity; exact Hinst.
Qed.

(** X5.  The pricing mode JavaScript reads: 1 at every point of a
    reduced-cost callback and 2 at every point of a Farkas callback, as long
    as the callback calls round operations only, and 0 again once the hook
    has returned; the last mode and the last result then tell which hook ran
    and what it reported.  The calls that would end this from inside a
    callback are the resets and scip_solve, each of which leaves the mode at
    0: scip_reset and scip_free always, scip_problem_clear,
    scip_problem_begin and scip_solve when there is an instance. *)
Theorem pricing_mode_protocol (s : bridge) :
  (forall calls out handler,
     scip_ctx_get_pricing_mode
       (run_callback calls
          (emit Module_onPricerRedcost (pricerRedcostJs_enter s))) = 1 /\
     let s' := fst (pricerRedcostJs handler out s) in
     let out' := snd (pricerRedcostJs handler out s) in
     scip_ctx_get_pricing_mode s' = 0 /\
     scip_pricer_get_last_mode s' = 1 /\
     slot_result out'
     = store (slot_result out) (scip_pricer_get_last_result s')) /\
  (forall calls has_lp result handler,
     scip_ctx_get_pricing_mode
       (run_callback calls
          (emit Module_onPricerFarkas (pricerFarkasJs_enter s))) = 2 /\
     let s' := fst (pricerFarkasJs has_lp handler result s) in
     let result' := snd (pricerFarkasJs has_lp handler result s) in
     scip_ctx_get_pricing_mode s' = 0 /\
     scip_pricer_get_last_mode s' = 2 /\
     result' = store result (scip_pricer_get_last_result s')) /\
  (forall stage stage',
     scip_ctx_get_pricing_mode (scip_reset stage stage' s) = 0 /\
     scip_ctx_get_pricing_mode (scip_free stage stage' s) = 0) /\
  (scip_instance s <> NULL ->
   forall stage stage' name maximize rc rs hooks retcode status,
     scip_ctx_get_pricing_mode (fst (scip_problem_clear stage stage' s)) = 0 /\
     scip_ctx_get_pricing_mode
       (fst (scip_problem_begin name maximize stage stage' rc rs s)) = 0 /\
     scip_ctx_get_pricing_mode (fst (scip_solve hooks retcode status s)) = 0).
Proof.
  unfold scip_ctx_get_pricing_mode, scip_pricer_get_last_mode,
    scip_pricer_get_last_result.
  split; [|split; [|split]]; [| |
    intros stage stage'; split;
      [unfold scip_reset; generalize (clearCurrentProblem stage stage' s);
       intros s1; destruct s1; reflexivity
      |unfold scip_free; destruct (negb (scip_instance s =? NULL));
       [generalize (clearCurrentProblem stage stage' s); intros s1;
        destruct s1; reflexivity
       |destruct s; reflexivity]]
  | intros Hi stage stage' name maximize rc rs hooks retcode status;
    apply Z.eqb_neq in Hi;
    split; [|split];
      [unfold scip_problem_clear; rewrite Hi;
       generalize (clearCurrentProblem stage stage' s); intros s1;
       destruct s1; reflexivity
      |unfold scip_problem_begin; rewrite Hi;
       generalize (clearCurrentProblem stage stage' s); intros s1;
       destruct (negb (rc =? SCIP_OKAY));
         [destruct s1; reflexivity|];
       destruct (negb (rs =? SCIP_OKAY)); destruct s1; reflexivity
      |unfold scip_solve; rewrite Hi;
       assert (M := proj2 (run_hooks_callouts hooks
                             (s |> set_current_pricing_mode 0
                                |> set_added_vars_this_call 0))
                      ltac:(destruct s; reflexivity));
       repeat match goal with
              | |- context [if ?b then (?x, _) else _] => destruct b
              end; exact M]].
  - intros calls out handler. split.
    { rewrite run_callback_mode. destruct s; reflexivity. }
    cbv zeta. unfold pricerRedcostJs.
    assert (Hl : last_pricing_mode
                   (callout
                      (js_pricer_redcost_callback (pricerRedcostJs_enter s))
                      Module_onPricerRedcost handler (pricerRedcostJs_enter s))
                 = 1).
    { destruct (callout_cases
                  (js_pricer_redcost_callback (pricerRedcostJs_enter s))
                  Module_onPricerRedcost handler (pricerRedcostJs_enter s))
        as [->|(_ & body & _ & ->)]; [destruct s; reflexivity|].
      assert (G : forall b s0,
                last_pricing_mode (run_callback b s0) = last_pricing_mode s0).
      { induction b as [|c rest IH]; simpl; intros s0; [reflexivity|].
        rewrite IH.
        destruct (registers_only c || marks_round c) eqn:E.
        - apply field_not_setter; [field_hyps .. | exact E].
        - destruct c; try discriminate; destruct s0; reflexivity. }
      rewrite G. destruct s; reflexivity. }
    revert Hl.
    generalize (callout (js_pricer_redcost_callback (pricerRedcostJs_enter s))
                  Module_onPricerRedcost handler (pricerRedcostJs_enter s)).
    intros s2 Hl. destruct s2. simpl in Hl. subst.
    unfold pricerRedcostJs_exit. simpl.
    destruct pending_pricer_abortround0; simpl;
      (split; [reflexivity|]; split; reflexivity).
  - intros calls has_lp result handler. split.
    { rewrite run_callback_mode. destruct s; reflexivity. }
    cbv zeta. unfold pricerFarkasJs.
    destruct has_lp; simpl negb; cbv iota.
    + assert (Hl : last_pricing_mode
                     (callout
                        (js_pricer_farkas_callback (pricerFarkasJs_enter s))
                        Module_onPricerFarkas handler (pricerFarkasJs_enter s))
                   = 2).
      { destruct (callout_cases
                    (js_pricer_farkas_callback (pricerFarkasJs_enter s))
                    Module_onPricerFarkas handler (pricerFarkasJs_enter s))
          as [->|(_ & body & _ & ->)]; [destruct s; reflexivity|].
        assert (G : forall b s0,
                  last_pricing_mode (run_callback b s0)
                  = last_pricing_mode s0).
        { induction b as [|c rest IH]; simpl; intros s0; [reflexivity|].
          rewrite IH.
          destruct (registers_only c || marks_round c) eqn:E.
          - apply field_not_setter; [field_hyps .. | exact E].
          - destruct c; try discriminate; destruct s0; reflexivity. }
        rewrite G. destruct s; reflexivity. }
      revert Hl.
      generalize (callout (js_pricer_farkas_callback (pricerFarkasJs_enter s))
                    Module_onPricerFarkas handler (pricerFarkasJs_enter s)).
      intros s2 Hl. destruct s2. simpl in Hl. subst.
      unfold pricerFarkasJs_exit. simpl.
      destruct pending_pricer_abortround0; simpl;
        (split; [reflexivity|]; split; reflexivity).
    + destruct s. simpl. split; [reflexivity|]. split; reflexivity.
Qed.

End WholeSolve.

(** ** Every handle handed out resolves *)

Section Issued.
Context `{ScipDefs}.

Lemma register_issued k ok obj s : issued k obj (register k ok obj s).
Proof.
  unfold issued. rewrite register_snd, resolve_registry_of, register_same.
  pose proof (registerHandle_names ok obj (registry_of k s)) as Hn.
  destruct (registerHandle_cases ok obj (registry_of k s))
    as [(E & _)|[(Hnn & _ & Hb & _)|(Hnn & _ & Eid & _)]].
  - left. exact E.
  - right. split; [exact (proj1 Hb)|]. split; [exact Hnn|].
    apply names_resolves, Hn, (proj1 Hb).
  - assert (Hpos : 0 < snd (registerHandle ok obj (registry_of k s))).
    { cbv zeta in Eid. rewrite Eid. unfold reg_size. lia. }
    right. split; [exact Hpos|]. split; [exact Hnn|].
    apply names_resolves, Hn, Hpos.
Qed.

Lemma issued_then k obj s1 id (g : bridge -> bridge) :
  (forall s0 i, resolve k i (g s0) = resolve k i s0) ->
  issued k obj (s1, id) -> issued k obj (g s1, id).
Proof.
  intros Hg [E|(Hpos & Hn & Hr)]; [left; exact E|].
  right. cbn [fst snd] in *. rewrite Hg. repeat split; assumption.
Qed.

Lemma issued_failure k obj s : issued k obj (s, -1).
Proof. left. reflexivity. Qed.

Lemma resolve_emit k i e s : resolve k i (emit e s) = resolve k i s.
Proof. destruct s, k; reflexivity. Qed.

Lemma issued_existing k id s :
  resolve k id s <> NULL -> issued k (resolve k id s) (s, id).
Proof.
  intros Hn. right. cbn [fst snd].
  split; [|split; [exact Hn | reflexivity]].
  destruct (Z_lt_le_dec 0 id) as [Hpos|Hle]; [exact Hpos|].
  exfalso. apply Hn. rewrite resolve_registry_of.
  apply getByHandle_out_of_range. left. exact Hle.
Qed.

(** X23.  Every function that returns a handle returns -1 or a positive
    handle that resolves, in the globals it leaves, to the object it stands
    for: the variable or constraint just added or found, the column just
    priced in, the transformed counterpart (which is the object itself, under
    the handle passed in, when that is already transformed).  No function
    hands out 0 or a handle that resolves to nothing. *)
Theorem returned_handles_resolve (s : bridge) :
  (forall name ret var ret_add ok,
     issued reg_var var (scip_add_var name ret var ret_add ok s)) /\
  (forall name ret cons ret_add ok,
     issued reg_cons cons (scip_add_cons_linear name ret cons ret_add ok s)) /\
  (forall name var ok, issued reg_var var (scip_var_find_id name var ok s)) /\
  (forall name cons ok,
     issued reg_cons cons (scip_cons_find_id name cons ok s)) /\
  (forall varId transformed (var_transformed : bool) ret transvar ok,
     issued reg_var
       (if var_transformed then getVarByHandle varId s else transvar)
       (scip_var_get_transformed varId transformed var_transformed ret
          transvar ok s)) /\
  (forall consId transformed (cons_transformed : bool) ret transcons ok,
     issued reg_cons
       (if cons_transformed then getConsByHandle consId s else transcons)
       (scip_cons_get_transformed consId transformed cons_transformed ret
          transcons ok s)) /\
  (forall name ret var ret_add ok,
     issued reg_var var
       (scip_pricer_add_priced_var name ret var ret_add ok s)).
Proof.
  split; [|split; [|split; [|split; [|split; [|split]]]]].
  - intros name ret var ret_add ok. unfold scip_add_var.
    repeat (split_if; [apply issued_failure|]).
    pose proof (register_issued reg_var ok var (emit (SCIPaddVar var) s)) as I.
    cbn [register] in I.
    destruct (registerVarHandle ok var (emit (SCIPaddVar var) s)) as [s1 id].
    apply (issued_then reg_var var s1 id (emit (SCIPreleaseVar var)));
      [intros s0 i; apply resolve_emit | exact I].
  - intros name ret cons ret_add ok. unfold scip_add_cons_linear.
    repeat (split_if; [apply issued_failure|]).
    pose proof (register_issued reg_cons ok cons (emit (SCIPaddCons cons) s))
      as I.
    cbn [register] in I.
    destruct (registerConsHandle ok cons (emit (SCIPaddCons cons) s))
      as [s1 id].
    apply (issued_then reg_cons cons s1 id (emit (SCIPreleaseCons cons)));
      [intros s0 i; apply resolve_emit | exact I].
  - intros name var ok. unfold scip_var_find_id.
    split_if; [apply issued_failure|]. apply (register_issued reg_var).
  - intros name cons ok. unfold scip_cons_find_id.
    split_if; [apply issued_failure|]. apply (register_issued reg_cons).
  - intros varId transformed var_transformed ret transvar ok.
    unfold scip_var_get_transformed.
    destruct (scip_instance s =? NULL); [apply issued_failure|].
    destruct (negb transformed); [apply issued_failure|].
    destruct (getVarByHandle varId s =? NULL) eqn:E; [apply issued_failure|].
    apply Z.eqb_neq in E.
    destruct var_transformed.
    + apply (issued_existing reg_var varId s E).
    + split_if; [apply issued_failure|]. apply (register_issued reg_var).
  - intros consId transformed cons_transformed ret transcons ok.
    unfold scip_cons_get_transformed.
    destruct (scip_instance s =? NULL); [apply issued_failure|].
    destruct (negb transformed); [apply issued_failure|].
    destruct (getConsByHandle consId s =? NULL) eqn:E;
      [apply issued_failure|].
    apply Z.eqb_neq in E.
    destruct cons_transformed.
    + apply (issued_existing reg_cons consId s E).
    + split_if; [apply issued_failure|]. apply (register_issued reg_cons).
  - intros name ret var ret_add ok. unfold scip_pricer_add_priced_var.
    repeat (split_if; [apply issued_failure|]).
    pose proof (register_issued reg_var ok var
                  (emit (SCIPaddPricedVar var) s)) as I.
    cbn [register] in I.
    destruct (registerVarHandle ok var (emit (SCIPaddPricedVar var) s))
      as [s1 id].
    apply (issued_then reg_var var s1 id
             (fun s0 =>
                s0 |> set_priced_vars_added (priced_vars_added s1 + 1)
                   |> set_added_vars_this_call (added_vars_this_call s1 + 1)
                   |> emit (SCIPreleaseVar var)));
      [intros s0 i; destruct s0; reflexivity | exact I].
Qed.

End Issued.
(** ** Concrete runs

    The theorems above applied to, and the claims that fail evaluated on,
    runs that start from the initial globals, with the header constants of
    [scip8]. *)

Section ConcreteRuns.
#[local] Existing Instance scip8.

Lemma ready_bridge_reachable : reachable ready_bridge.
Proof. exists ready_calls. reflexivity. Qed.

(** One abort-round call in a reduced-cost round: the round reports
    DIDNOTRUN and stop-early, and the trace holds two interrupt requests. *)
Lemma abort_round_on_exit_witness :
  let r := pricerRedcostJs (Some [call_pricer_abort_round]) fresh_slots
             ready_bridge in
  slot_result (snd r) = Some SCIP_DIDNOTRUN /\
  slot_stopearly (snd r) = Some true /\
  (2 <= interrupts (fst r))%nat.
Proof.
  cbv zeta.
  assert (Hi : scip_instance ready_bridge <> NULL)
    by (vm_compute; discriminate).
  assert (Hin : In call_pricer_abort_round [call_pricer_abort_round])
    by (left; reflexivity).
  assert (Hf : js_pricer_redcost_callback ready_bridge <> 0)
    by (vm_compute; discriminate).
  destruct (proj1 (abort_round_on_exit [call_pricer_abort_round] fresh_slots
                     None ready_bridge Hi Hin) Hf)
    as (R1 & R2 & _ & R4 & _).
  split; [exact R1|]. split; [exact R2|].
  eapply Nat.le_trans; [|exact R4]. vm_compute. repeat constructor.
Defined.

(** C2 as stated fails: a single abort-round call makes the solver receive
    two interrupt requests, one from scip_pricer_abort_round and one from the
    exit of the round. *)
Lemma abort_round_requests_two_interrupts :
  let r := pricerRedcostJs (Some [call_pricer_abort_round]) fresh_slots
             ready_bridge in
  interrupts ready_bridge = 0%nat /\
  interrupts (fst r) = 2%nat /\
  ~ (slot_result (snd r) = Some SCIP_DIDNOTRUN /\
     slot_stopearly (snd r) = Some true /\
     interrupts (fst r) = (interrupts ready_bridge + 1)%nat).
Proof.
  cbv zeta. split; [vm_compute; reflexivity|]. split; [vm_compute; reflexivity|].
  intros (_ & _ & E). vm_compute in E. discriminate.
Qed.

(** C3 as stated fails: after a reduced-cost round that added two columns,
    a Farkas invocation without LP changes addedVarsThisCall from 2 to 0. *)
Lemma farkas_without_lp_resets_counter :
  let s := fst (pricerRedcostJs (Some two_columns) fresh_slots ready_bridge) in
  let s' := fst (pricerFarkasJs false (Some []) (Some 0) s) in
  added_vars_this_call s = 2 /\
  added_vars_this_call s' = 0 /\
  added_vars_this_call s' <> added_vars_this_call s.
Proof.
  cbv zeta. split; [vm_compute; reflexivity|]. split; [vm_compute; reflexivity|].
  vm_compute. discriminate.
Qed.

(** C4 as stated fails: a reduced-cost round sets lower bound 5 and
    stop-early; the Farkas round that follows starts with both still
    pending. *)
Lemma farkas_entry_keeps_outputs :
  let s := fst (pricerRedcostJs
                  (Some [call_pricer_set_lowerbound 5;
                         call_pricer_set_stopearly 1])
                  fresh_slots ready_bridge) in
  let e := pricerFarkasJs_enter s in
  pending_pricer_stopearly e = true /\
  pending_pricer_lowerbound e = 5%float /\
  ~ (pending_pricer_result e = SCIP_SUCCESS /\
     pending_pricer_lowerbound e = SCIP_INVALID /\
     pending_pricer_stopearly e = false /\
     pending_pricer_abortround e = false /\
     added_vars_this_call e = 0).
Proof.
  cbv zeta. split; [vm_compute; reflexivity|]. split; [vm_compute; reflexivity|].
  intros (_ & _ & E & _). vm_compute in E. discriminate.
Qed.

(** An invalid variable handle inside a round: the call returns -1 and only
    marks the round. *)
Lemma injection_handle_error_witness :
  let s := emit Module_onPricerRedcost (pricerRedcostJs_enter ready_bridge) in
  scip_pricer_add_var_to_rows_batch 0 (Some [1]) (Some [1%float]) 1
    (fun _ => SCIP_OKAY) s
  = (mark_abortround s, -1).
Proof.
  cbv zeta.
  apply (proj1 (injection_handle_error
                  (emit Module_onPricerRedcost
                     (pricerRedcostJs_enter ready_bridge)))).
  right; right; right; right; left. vm_compute. reflexivity.
Defined.

(** C7 as stated fails: the rejected call requests no interrupt. *)
Lemma invalid_handle_requests_no_interrupt :
  let s := emit Module_onPricerRedcost (pricerRedcostJs_enter ready_bridge) in
  let r := scip_pricer_add_var_to_rows_batch 0 (Some [1]) (Some [1%float]) 1
             (fun _ => SCIP_OKAY) s in
  snd r = -1 /\
  pending_pricer_abortround (fst r) = true /\
  pending_pricer_result (fst r) = SCIP_DIDNOTRUN /\
  interrupts (fst r) = interrupts s /\
  ~ (snd r = -1 /\
     pending_pricer_abortround (fst r) = true /\
     pending_pricer_result (fst r) = SCIP_DIDNOTRUN /\
     (interrupts s < interrupts (fst r))%nat).
Proof.
  cbv zeta. repeat (split; [vm_compute; reflexivity|]).
  intros (_ & _ & _ & E). vm_compute in E. lia.
Qed.

(** A callback that sets lower bound 5: the slot receives 5. *)
Lemma redcost_lowerbound_slot_witness :
  slot_lowerbound
    (snd (pricerRedcostJs (Some [call_pricer_set_lowerbound 5]) fresh_slots
            ready_bridge))
  = Some 5%float.
Proof.
  assert (Hnum : PrimFloat.eqb SCIP_INVALID SCIP_INVALID = true)
    by (vm_compute; reflexivity).
  assert (Hf : js_pricer_redcost_callback ready_bridge <> 0)
    by (vm_compute; discriminate).
  exact (proj1 (redcost_lowerbound_slot
                  (Some [call_pricer_set_lowerbound 5]) fresh_slots
                  ready_bridge Hnum)
           [call_pricer_set_lowerbound 5] Hf eq_refl).
Defined.

(** C8 as stated fails: the callback sets a lower bound explicitly, to the
    value of [SCIP_INVALID]; the slot still holds its prior value 0. *)
Lemma explicit_sentinel_is_not_written :
  let r := pricerRedcostJs (Some [call_pricer_set_lowerbound SCIP_INVALID])
             fresh_slots ready_bridge in
  last_lowerbound [call_pricer_set_lowerbound SCIP_INVALID]
  = Some SCIP_INVALID /\
  slot_lowerbound (snd r) = Some 0%float /\
  slot_lowerbound (snd r) <> Some SCIP_INVALID.
Proof.
  cbv zeta. split; [vm_compute; reflexivity|]. split; [vm_compute; reflexivity|].
  intros E.
  apply (f_equal (fun o => match o with
                           | Some x => PrimFloat.eqb x 0%float
                           | None => false
                           end)) in E.
  vm_compute in E. discriminate.
Qed.

(** With the reduced-cost flag switched off, the installed handler is not
    run: the round ends like a round without handler. *)
Lemma disabled_hook_is_silent_witness :
  let s := scip_pricer_enable_redcost_callback 0 ready_bridge in
  pricerRedcostJs (Some [call_pricer_abort_round]) fresh_slots s
  = pricerRedcostJs None fresh_slots s.
Proof.
  cbv zeta.
  apply (proj1 (proj2 (proj2 (disabled_hook_is_silent
                  (scip_pricer_enable_redcost_callback 0 ready_bridge))))).
  vm_compute. reflexivity.
Defined.

(** A variable handle issued after [ready_calls] resolves before a reset and
    is not-found after it. *)
Lemma reset_invalidates_handles_witness :
  let s := run_api one_variable_calls initial_bridge in
  resolve reg_var 1 s = 500 /\
  resolve reg_var 1 (scip_reset SCIP_STAGE_SOLVING SCIP_STAGE_PROBLEM s)
  = NULL.
Proof.
  cbv zeta. split; [vm_compute; reflexivity|].
  assert (Hr : reachable (run_api one_variable_calls initial_bridge))
    by (exists one_variable_calls; reflexivity).
  exact (proj1 (reset_invalidates_handles
                  (run_api one_variable_calls initial_bridge) reg_var 1
                  SCIP_STAGE_SOLVING SCIP_STAGE_PROBLEM None 0
                  SCIP_OKAY SCIP_OKAY Hr)).
Defined.


(** C6 as stated fails in two ways.  With both counters at [int_max] a
    reduced-cost invocation leaves them at [int_min], not one higher.  And a
    callback that calls scip_reset leaves them at 0: from (0, 0) the
    invocation ends at (0, 0), not at (1, 1). *)
Lemma redcost_counters_wrap_and_reset :
  let full := at_int_max ready_bridge in
  let wrapped := fst (pricerRedcostJs None fresh_slots full) in
  let cleared :=
    fst (pricerRedcostJs_reentrant [api_reset 0 0] fresh_slots ready_bridge) in
  (pricer_redcost_calls full = 2147483647 /\ pricer_round full = 2147483647) /\
  (pricer_redcost_calls wrapped = -2147483648 /\
   pricer_round wrapped = -2147483648) /\
  ~ (pricer_redcost_calls wrapped = pricer_redcost_calls full + 1 /\
     pricer_round wrapped = pricer_round full + 1) /\
  (pricer_redcost_calls ready_bridge = 0 /\ pricer_round ready_bridge = 0) /\
  (pricer_redcost_calls cleared = 0 /\ pricer_round cleared = 0) /\
  ~ (pricer_redcost_calls cleared = pricer_redcost_calls ready_bridge + 1 /\
     pricer_round cleared = pricer_round ready_bridge + 1).
Proof.
  cbv zeta.
  split; [split; vm_compute; reflexivity|].
  split; [split; vm_compute; reflexivity|].
  split; [intros [E _]; vm_compute in E; discriminate|].
  split; [split; vm_compute; reflexivity|].
  split; [split; vm_compute; reflexivity|].
  intros [E _]. vm_compute in E. discriminate.
Qed.

(** *** The further properties on concrete runs *)

Lemma model_bridge_reachable : reachable model_bridge.
Proof. exists model_calls. reflexivity. Qed.

Lemma solved_bridge_reachable : reachable solved_bridge.
Proof. exists solved_calls. reflexivity. Qed.

Lemma doubled_length (n : nat) (s : string) :
  Z.of_nat (String.length (doubled n s))
  = 2 ^ Z.of_nat n * Z.of_nat (String.length s).
Proof.
  revert s. induction n as [|n IH]; intros s.
  - cbn [doubled]. change (2 ^ Z.of_nat 0) with 1. lia.
  - cbn [doubled]. rewrite IH, string_app_length, Nat2Z.inj_add.
    rewrite Nat2Z.inj_succ, Z.pow_succ_r by lia. lia.
Qed.

(** In the small model handle 1 of the variables resolves, being in
    range. *)
Lemma resolve_in_range_witness :
  reachable model_bridge /\
  (resolve reg_var 1 model_bridge <> NULL <->
   0 < 1 <= reg_size (registry_of reg_var model_bridge)) /\
  (scip_instance model_bridge = NULL -> resolve reg_var 1 model_bridge = NULL).
Proof.
  split; [exact model_bridge_reachable|].
  exact (resolve_in_range model_bridge reg_var 1 model_bridge_reachable).
Defined.

(** Three variables added to a fresh problem get the handles 1, 2, 3. *)
Lemma first_variables_handles_witness :
  scip_instance ready_bridge <> NULL /\
  snd (add_vars [500; 501; 502]
         (fst (scip_problem_begin (Some "p"%string) 0 0 0 1 1 ready_bridge)))
  = first_handles (length [500; 501; 502]).
Proof.
  assert (Hi : scip_instance ready_bridge <> NULL)
    by (vm_compute; discriminate).
  assert (Hnd : NoDup [500; 501; 502]).
  { repeat constructor; simpl; intuition discriminate. }
  assert (Hnull : ~ In NULL [500; 501; 502]).
  { simpl. intuition discriminate. }
  split; [exact Hi|].
  exact (first_variables_handles [500; 501; 502] ready_bridge
           (Some "p"%string) 0 0 0 1 1 Hi Hnd Hnull).
Defined.

(** A variable looked up, another added, the first looked up again under
    another name: the same handle, nothing changed. *)
Lemma find_id_stable_witness :
  let calls := [api_js (call_add_var (Some "y"%string) 1 501 1 true)] in
  let id := snd (scip_var_find_id (Some "x"%string) 500 true ready_bridge) in
  let s' :=
    run_api calls
      (fst (scip_var_find_id (Some "x"%string) 500 true ready_bridge)) in
  0 < id /\ scip_var_find_id (Some "t_x"%string) 500 false s' = (s', id).
Proof.
  cbv zeta.
  assert (Hpos : 0 < snd (scip_var_find_id (Some "x"%string) 500 true
                            ready_bridge))
    by (vm_compute; reflexivity).
  split; [exact Hpos|].
  exact (proj1 (find_id_stable ready_bridge "x" "t_x" 500 true false
                  [api_js (call_add_var (Some "y"%string) 1 501 1 true)]
                  ready_bridge_reachable eq_refl) Hpos).
Defined.

(** After a solve with one reduced-cost and one Farkas round. *)
Lemma round_counter_is_sum_witness :
  reachable solved_bridge /\
  is_int (scip_pricer_get_redcost_calls solved_bridge
          + scip_pricer_get_farkas_calls solved_bridge) /\
  scip_pricer_get_round solved_bridge
  = scip_pricer_get_redcost_calls solved_bridge
    + scip_pricer_get_farkas_calls solved_bridge.
Proof.
  assert (Hs : is_int (scip_pricer_get_redcost_calls solved_bridge
                       + scip_pricer_get_farkas_calls solved_bridge))
    by (vm_compute; split; discriminate).
  split; [exact solved_bridge_reachable|]. split; [exact Hs|].
  exact (proj2 (proj2 (round_counter_is_sum solved_bridge
                         solved_bridge_reachable)) Hs).
Defined.

(** A reduced-cost round whose callback injects two columns. *)
Lemma priced_columns_counted_witness :
  let s' := fst (pricerRedcostJs (Some two_columns) fresh_slots ready_bridge) in
  scip_instance ready_bridge <> NULL /\
  js_pricer_redcost_callback ready_bridge <> 0 /\
  columns_added two_columns = 2 /\
  scip_pricer_get_n_added_vars_this_call s' = columns_added two_columns /\
  scip_pricer_get_n_added_vars s'
  = scip_pricer_get_n_added_vars ready_bridge + columns_added two_columns.
Proof.
  cbv zeta.
  assert (Hi : scip_instance ready_bridge <> NULL)
    by (vm_compute; discriminate).
  assert (Hf : js_pricer_redcost_callback ready_bridge <> 0)
    by (vm_compute; discriminate).
  split; [exact Hi|]. split; [exact Hf|].
  split; [vm_compute; reflexivity|].
  exact (proj1 (priced_columns_counted two_columns fresh_slots None
                  ready_bridge Hi) Hf).
Defined.

(** A reduced-cost round whose callback sets the result twice and
    stop-early once, and injects a column in between. *)
Lemma clean_round_reports_settings_witness :
  let run := pricerRedcostJs (Some setting_body) fresh_slots ready_bridge in
  scip_instance ready_bridge <> NULL /\
  forallb keeps_round setting_body = true /\
  js_pricer_redcost_callback ready_bridge <> 0 /\
  or_default (last_result setting_body) SCIP_SUCCESS = 7 /\
  slot_result (snd run)
  = store (slot_result fresh_slots)
      (or_default (last_result setting_body) SCIP_SUCCESS) /\
  slot_stopearly (snd run)
  = store (slot_stopearly fresh_slots)
      (or_default (last_stopearly setting_body) false) /\
  scip_pricer_get_last_result (fst run)
  = or_default (last_result setting_body) SCIP_SUCCESS /\
  interrupts (fst run) = interrupts ready_bridge.
Proof.
  cbv zeta.
  assert (Hi : scip_instance ready_bridge <> NULL)
    by (vm_compute; discriminate).
  assert (Hb : forallb keeps_round setting_body = true)
    by (vm_compute; reflexivity).
  assert (Hf : js_pricer_redcost_callback ready_bridge <> 0)
    by (vm_compute; discriminate).
  split; [exact Hi|]. split; [exact Hb|]. split; [exact Hf|].
  split; [vm_compute; reflexivity|].
  exact (proj1 (clean_round_reports_settings setting_body fresh_slots None
                  ready_bridge Hi Hb) Hf).
Defined.

(** One coefficient of the variable with handle 1 in the row with handle 1,
    the solver accepting it. *)
Lemma column_batch_outcome_witness :
  let s := model_bridge in
  let rets := fun _ : nat => 1 in
  scip_instance s <> NULL /\ 0 <= 1 /\ getVarByHandle 1 s <> NULL /\
  scip_pricer_add_var_to_rows_batch 1 (Some [1]) (Some [2%float]) 1 rets s
  = (sends
       (map (row_request (getVarByHandle 1 s) s)
          (combine (array_read [1] 1 0) (array_read [2%float] 1 0%float)))
       s, 1).
Proof.
  cbv zeta.
  assert (Hi : scip_instance model_bridge <> NULL)
    by (vm_compute; discriminate).
  assert (Hn : 0 <= 1) by lia.
  assert (Hv : getVarByHandle 1 model_bridge <> NULL)
    by (vm_compute; discriminate).
  assert (Hrows : forall i, 0 <= i < 1 ->
            getRowByHandle (nth (Z.to_nat i) [1] 0) model_bridge <> NULL).
  { intros i Hr. assert (E : i = 0) by lia. subst i.
    vm_compute. discriminate. }
  split; [exact Hi|]. split; [exact Hn|]. split; [exact Hv|].
  exact (proj1 (proj1 (column_batch_outcome 1 [1] [2%float] 1 (fun _ => 1)
                         model_bridge Hi Hn Hv) Hrows)
           (fun j _ => eq_refl)).
Defined.

(** One coefficient of the variable with handle 1 in the constraint with
    handle 1, the solver accepting it. *)
Lemma coef_batch_outcome_witness :
  let s := model_bridge in
  let rets := fun _ : nat => 1 in
  scip_instance s <> NULL /\ 0 <= 1 /\ getConsByHandle 1 s <> NULL /\
  scip_add_coef_linear_batch 1 (Some [1]) (Some [2%float]) 1 rets s
  = (sends
       (map (coef_request (getConsByHandle 1 s) s)
          (combine (array_read [1] 1 0) (array_read [2%float] 1 0%float)))
       s, 1).
Proof.
  cbv zeta.
  assert (Hi : scip_instance model_bridge <> NULL)
    by (vm_compute; discriminate).
  assert (Hn : 0 <= 1) by lia.
  assert (Hc : getConsByHandle 1 model_bridge <> NULL)
    by (vm_compute; discriminate).
  assert (Hvars : forall j, (j < Z.to_nat 1)%nat ->
            getVarByHandle (nth j [1] 0) model_bridge <> NULL /\
            (fun _ : nat => 1) j = SCIP_OKAY).
  { intros j Hj. assert (E : j = 0%nat) by lia. subst j.
    split; [vm_compute; discriminate | reflexivity]. }
  split; [exact Hi|]. split; [exact Hn|]. split; [exact Hc|].
  exact (proj1 (coef_batch_outcome 1 [1] [2%float] 1 (fun _ => 1)
                  model_bridge Hi Hn Hc) Hvars).
Defined.

(** The same batch as single calls. *)
Lemma coef_batch_is_repeated_call_witness :
  let s := model_bridge in
  let rets := fun _ : nat => 1 in
  scip_instance s <> NULL /\ 0 <= 1 /\ getConsByHandle 1 s <> NULL /\
  scip_add_coef_linear_batch 1 (Some [1]) (Some [2%float]) 1 rets s
  = add_coefs_one_by_one 1 rets 0
      (combine (array_read [1] 1 0) (array_read [2%float] 1 0%float)) s.
Proof.
  cbv zeta.
  assert (Hi : scip_instance model_bridge <> NULL)
    by (vm_compute; discriminate).
  assert (Hn : 0 <= 1) by lia.
  assert (Hc : getConsByHandle 1 model_bridge <> NULL)
    by (vm_compute; discriminate).
  split; [exact Hi|]. split; [exact Hn|]. split; [exact Hc|].
  exact (coef_batch_is_repeated_call 1 [1] [2%float] 1 (fun _ => 1)
           model_bridge Hi Hn Hc).
Defined.

(** Two short names. *)
Lemma var_names_joined_witness :
  let names := ["x"%string; "y"%string] in
  scip_instance ready_bridge <> NULL /\
  (forall name, In name names -> Z.of_nat (String.length name) <= 535) /\
  exists n,
    (n <= length names)%nat /\
    scip_get_var_names names ready_bridge
    = Some (String.concat "," (firstn n names)) /\
    (n = length names \/
     65000 <= Z.of_nat (String.length (String.concat "," (firstn n names)))).
Proof.
  cbv zeta.
  assert (Hi : scip_instance ready_bridge <> NULL)
    by (vm_compute; discriminate).
  assert (Hs : forall name, In name ["x"%string; "y"%string] ->
                 Z.of_nat (String.length name) <= 535).
  { intros name [<-|[<-|[]]]; vm_compute; discriminate. }
  split; [exact Hi|]. split; [exact Hs|].
  exact (var_names_joined ["x"%string; "y"%string] ready_bridge Hi Hs).
Defined.

(** A first name of 65536 bytes. *)
Lemma var_names_overrun_witness :
  65536 <= Z.of_nat (String.length long_name) /\
  scip_get_var_names [long_name] ready_bridge
  = if scip_instance ready_bridge =? NULL then Some ""%string else None.
Proof.
  assert (Hl : 65536 <= Z.of_nat (String.length long_name)).
  { unfold long_name. rewrite doubled_length. vm_compute. discriminate. }
  split; [exact Hl|].
  exact (var_names_overrun long_name [] ready_bridge Hl).
Defined.

(** A variable the solver creates and accepts. *)
Lemma created_object_is_released_witness :
  let added := scip_add_var (Some "x"%string) SCIP_OKAY 500 1 true
                 ready_bridge in
  scip_instance ready_bridge <> NULL /\ 500 <> NULL /\
  trace (fst added)
  = trace ready_bridge ++ [SCIPaddVar 500; SCIPreleaseVar 500].
Proof.
  cbv zeta.
  assert (Hi : scip_instance ready_bridge <> NULL)
    by (vm_compute; discriminate).
  assert (Ho : 500 <> NULL) by (vm_compute; discriminate).
  split; [exact Hi|]. split; [exact Ho|].
  exact (proj1 (created_object_is_released "x" 500 1 true ready_bridge
                  Hi Ho)).
Defined.

End ConcreteRuns.
